(** * simple-batch: the job-execution engine

    A shallow embedding of the scheduler's recovery sweep, the job processor
    and its finalisation, the write-back request cache, the per-request
    executor, the job service and the paging of a job's requests, together
    with the store accessors they call.

    Modelling conventions.
    - The SQLite tables are lists of rows; an [UPDATE ... WHERE c] maps over the
      rows and rewrites those that satisfy [c]; [COUNT] is the length of a
      filter.  The [update_time] columns and triggers are left out.
    - Timestamps are the strings the code produces; the wall clock
      ([datetime('now','localtime')], [TimeUtils.get_current_time_iso]) is an
      argument of the operation that reads it.  [time.time()] is an integer.
    - The Python dict of the cache is a [gmap], the dirty set a [gset].
    - A store operation that raises leaves the store as it was (its connection
      is closed without a commit).  Raises are taken from an oracle where the
      caller catches them ([flush_updates], [_finalize_job_processing], the
      conditional finalize of [process_job], the job service) and where a
      raise ends the caller (the error log of the executor); elsewhere the
      operations are total.
    - The tasks of a job run under one cooperative scheduler.  An executor is
      the list of its effects.  A job's run interleaves the effects of its
      executors with the steps of the periodic flush, which gives way inside
      each of its bulk writes and is cancelled when the executors are done,
      possibly inside a write.  For a limit of at least 1 the semaphore only
      restricts the interleavings and is left out; the pause wait returns
      without an effect on the cache.  The performance snapshots and their
      table are left out: they read the rows of the job and, when their
      computation goes through, write nothing else.
    - What is done to a job from outside while it is processed is an
      observation of the run ([job_processor.Meanwhile]): nothing, its
      deletion, or a reset or a pause.  The recovery sweep resets every job it
      finds processing, and the job service resets or pauses a job on request;
      the scheduler then starts the job a second time while the first run
      goes on, or the executors wait to be resumed.  Such runs are named and
      not followed further. *)

From Stdlib Require Import ZArith Lia.
From stdpp Require Import base option list gmap sets strings sorting.

Local Open Scope Z_scope.

(** ** const.py *)

Module JobStatus.
Inductive t := PENDING | PROCESSING | COMPLETED | FAILED | PAUSED.
#[global] Instance eq_dec : EqDecision t.
Proof. solve_decision. Defined.
End JobStatus.

Module RequestStatus.
Inductive t := PENDING | PROCESSING | SUCCESS | FAILED | RETRYING.
#[global] Instance eq_dec : EqDecision t.
Proof. solve_decision. Defined.
End RequestStatus.

(** ** settings.py *)

Module settings.
Definition REQUEST_CACHE_BATCH_SIZE : Z := 100.
Definition REQUEST_CACHE_FLUSH_INTERVAL : Z := 5.
Definition RETRY_BACKOFF_BASE : Z := 2.
End settings.

(** ** models.py *)

Module BatchJob.
Record t := mk {
  id : Z;
  total_requests : Z;
  status : JobStatus.t;
  success_count : Z;
  failed_count : Z;
  concurrency : Z;
  max_retries : Z;
  start_time : option string;
  end_time : option string;
}.
End BatchJob.

Module BatchRequest.
Record t := mk {
  id : Z;
  batch_job_id : Z;
  request_index : Z;
  status : RequestStatus.t;
  retry_count : Z;
  response_body : option string;
  prompt_tokens : Z;
  completion_tokens : Z;
  total_tokens : Z;
  start_time : option string;
  end_time : option string;
}.
End BatchRequest.

Module ErrorLog.
Record t := mk {
  batch_job_id : Z;
  request_id : option Z;
  error_type : string;
  error_message : string;
}.
End ErrorLog.

(** The store: the three tables the engine reads and writes. *)
Record DB := mkDB {
  batch_jobs : list BatchJob.t;
  batch_requests : list BatchRequest.t;
  error_logs : list ErrorLog.t;
}.

Definition with_jobs (f : list BatchJob.t → list BatchJob.t) (db : DB) : DB :=
  mkDB (f (batch_jobs db)) (batch_requests db) (error_logs db).

Definition with_requests (f : list BatchRequest.t → list BatchRequest.t) (db : DB) : DB :=
  mkDB (batch_jobs db) (f (batch_requests db)) (error_logs db).

(** [UPDATE tbl SET ... WHERE c]: rows satisfying [c] are rewritten by [set]. *)
Definition sql_update {A} (c : A → bool) (set : A → A) (tbl : list A) : list A :=
  (λ row, if c row then set row else row) <$> tbl.

(** [SELECT COUNT( * ) FROM tbl WHERE c]. *)
Definition sql_count {A} (c : A → bool) (tbl : list A) : Z :=
  Z.of_nat (length (filter (λ row, c row = true) tbl)).

(** Python truthiness of an [Optional[str]]. *)
Definition truthy (s : option string) : bool :=
  match s with
  | Some s => negb (String.eqb s "")
  | None => false
  end.

(** Python's [a or b] on integers. *)
Definition py_or (a b : Z) : Z := if a =? 0 then b else a.

(** [x IS NOT NULL AND x != ''] *)
Definition not_null_nor_empty (s : option string) : bool := truthy s.

(** [COALESCE(x, d)] *)
Definition coalesce (x : option string) (d : string) : option string :=
  match x with
  | Some v => Some v
  | None => Some d
  end.

Definition non_terminal (s : RequestStatus.t) : bool :=
  match s with
  | RequestStatus.PENDING | RequestStatus.PROCESSING | RequestStatus.RETRYING => true
  | _ => false
  end.

Definition in_flight (s : RequestStatus.t) : bool :=
  match s with
  | RequestStatus.PROCESSING | RequestStatus.RETRYING => true
  | _ => false
  end.

(** ** curd/batch_requests_curd.py *)

Module batch_requests_curd.
Import BatchRequest.

Definition set_status_times (s : RequestStatus.t) (st en : option string) (r : t) : t :=
  mk (id r) (batch_job_id r) (request_index r) s (retry_count r) (response_body r)
     (prompt_tokens r) (completion_tokens r) (total_tokens r) st en.

Definition set_status_end (s : RequestStatus.t) (en : option string) (r : t) : t :=
  set_status_times s (start_time r) en r.

(** One tuple of [bulk_update_request_status]'s [executemany]. *)
Record StatusUpdate := mkStatusUpdate {
  su_request_id : Z;
  su_status : RequestStatus.t;
  su_start_time : option string;
}.

(** One tuple of [bulk_update_request_success]; the statement writes the
    literal ['success'] and does not read the status of the update. *)
Record SuccessUpdate := mkSuccessUpdate {
  ok_request_id : Z;
  ok_response_body : option string;
  ok_prompt_tokens : Z;
  ok_completion_tokens : Z;
  ok_start_time : option string;
  ok_end_time : option string;
}.

(** One tuple of [bulk_update_request_failure]. *)
Record FailureUpdate := mkFailureUpdate {
  ko_request_id : Z;
  ko_status : RequestStatus.t;
  ko_retry_count : Z;
  ko_end_time : option string;
}.

(** [UPDATE batch_requests SET status = ?, start_time = ? WHERE id = ?] *)
Definition apply_status_update (u : StatusUpdate) (tbl : list t) : list t :=
  sql_update (λ r, bool_decide (id r = su_request_id u))
    (λ r, set_status_times (su_status u) (su_start_time u) (end_time r) r) tbl.

Definition bulk_update_request_status (updates : list StatusUpdate) (db : DB) : DB :=
  with_requests (λ tbl, foldl (λ tbl u, apply_status_update u tbl) tbl updates) db.

(** [UPDATE batch_requests SET status = 'success', response_body = ?,
    prompt_tokens = ?, completion_tokens = ?, total_tokens = ?, start_time = ?,
    end_time = ? WHERE id = ?], the total being the sum of the two counts. *)
Definition apply_success_update (u : SuccessUpdate) (tbl : list t) : list t :=
  sql_update (λ r, bool_decide (id r = ok_request_id u))
    (λ r, mk (id r) (batch_job_id r) (request_index r) RequestStatus.SUCCESS (retry_count r)
             (ok_response_body u) (ok_prompt_tokens u) (ok_completion_tokens u)
             (ok_prompt_tokens u + ok_completion_tokens u)
             (ok_start_time u) (ok_end_time u)) tbl.

Definition bulk_update_request_success (updates : list SuccessUpdate) (db : DB) : DB :=
  with_requests (λ tbl, foldl (λ tbl u, apply_success_update u tbl) tbl updates) db.

(** [UPDATE batch_requests SET status = ?, retry_count = ?, end_time = ? WHERE id = ?] *)
Definition apply_failure_update (u : FailureUpdate) (tbl : list t) : list t :=
  sql_update (λ r, bool_decide (id r = ko_request_id u))
    (λ r, mk (id r) (batch_job_id r) (request_index r) (ko_status u) (ko_retry_count u)
             (response_body r) (prompt_tokens r) (completion_tokens r) (total_tokens r)
             (start_time r) (ko_end_time u)) tbl.

Definition bulk_update_request_failure (updates : list FailureUpdate) (db : DB) : DB :=
  with_requests (λ tbl, foldl (λ tbl u, apply_failure_update u tbl) tbl updates) db.

(** The returned row counts of the operations below only feed log lines in the
    callers modelled here; the operations return the new store. *)

Definition reset_processing_requests_for_job (job_id : Z) (db : DB) : DB :=
  with_requests
    (sql_update (λ r, bool_decide (batch_job_id r = job_id) && in_flight (status r))
                (set_status_times RequestStatus.PENDING None None)) db.

Definition set_reset (r : t) : t :=
  mk (id r) (batch_job_id r) (request_index r) RequestStatus.PENDING 0 (response_body r)
     (prompt_tokens r) (completion_tokens r) (total_tokens r) None None.

Definition reset_failed_requests_for_job (job_id : Z) (db : DB) : DB :=
  with_requests
    (sql_update (λ r, bool_decide (batch_job_id r = job_id)
                      && bool_decide (status r = RequestStatus.FAILED))
                set_reset) db.

Definition reset_all_requests_for_job (job_id : Z) (db : DB) : DB :=
  with_requests (sql_update (λ r, bool_decide (batch_job_id r = job_id)) set_reset) db.

Definition reset_single_request (request_id : Z) (db : DB) : DB :=
  with_requests (sql_update (λ r, bool_decide (id r = request_id)) set_reset) db.

(** The [WHERE] clause shared by the two statements of the conditional
    finalize: [retry_count >= ? OR response_body IS NULL OR response_body = '']. *)
Definition exhausted_or_empty (max_retries : Z) (r : t) : bool :=
  (max_retries <=? retry_count r) || negb (not_null_nor_empty (response_body r)).

Definition has_usable_response (r : t) : bool :=
  not_null_nor_empty (response_body r) && (0 <? total_tokens r).

Definition finalize_incomplete_requests_for_job
    (job_id max_retries : Z) (now : string) (db : DB) : DB :=
  let db :=
    with_requests
      (sql_update (λ r, bool_decide (batch_job_id r = job_id) && non_terminal (status r)
                        && has_usable_response r && exhausted_or_empty max_retries r)
                  (λ r, set_status_end RequestStatus.SUCCESS (coalesce (end_time r) now) r)) db in
  with_requests
    (sql_update (λ r, bool_decide (batch_job_id r = job_id) && non_terminal (status r)
                      && exhausted_or_empty max_retries r)
                (set_status_end RequestStatus.FAILED (Some now))) db.

Definition finalize_all_incomplete_requests_for_job (job_id : Z) (now : string) (db : DB) : DB :=
  let db :=
    with_requests
      (sql_update (λ r, bool_decide (batch_job_id r = job_id) && non_terminal (status r)
                        && has_usable_response r)
                  (λ r, set_status_end RequestStatus.SUCCESS (coalesce (end_time r) now) r)) db in
  with_requests
    (sql_update (λ r, bool_decide (batch_job_id r = job_id) && non_terminal (status r))
                (set_status_end RequestStatus.FAILED (Some now))) db.

(** [SELECT * FROM batch_requests WHERE batch_job_id = ? ORDER BY request_index];
    the order plays no role in what follows and the rows come in table order. *)
Definition get_requests_for_job (job_id : Z) (db : DB) : list t :=
  filter (λ r, batch_job_id r = job_id) (batch_requests db).

Definition count_requests_for_job (job_id : Z) (db : DB) : Z :=
  sql_count (λ r, bool_decide (batch_job_id r = job_id)) (batch_requests db).

(** The dict with keys ['success'] and ['failed'], as a pair. *)
Definition get_status_counts_for_job (job_id : Z) (db : DB) : Z * Z :=
  (sql_count (λ r, bool_decide (batch_job_id r = job_id)
                   && bool_decide (status r = RequestStatus.SUCCESS)) (batch_requests db),
   sql_count (λ r, bool_decide (batch_job_id r = job_id)
                   && bool_decide (status r = RequestStatus.FAILED)) (batch_requests db)).

(** [LIMIT ? OFFSET ?]: SQLite reads a negative limit as no limit and a
    negative offset as 0. *)
Definition sql_limit_offset {A} (limit offset : Z) (rows : list A) : list A :=
  let rows := drop (Z.to_nat offset) rows in
  if limit <? 0 then rows else take (Z.to_nat limit) rows.

(** [SELECT ... WHERE batch_job_id = ? ORDER BY request_index ASC LIMIT ? OFFSET ?].
    The request indices of a job are distinct (UNIQUE(batch_job_id,
    request_index)), so the order is determined. *)
Definition index_le (r1 r2 : t) : Prop := request_index r1 ≤ request_index r2.

#[global] Instance index_le_dec : RelDecision index_le.
Proof. intros r1 r2. unfold index_le. apply _. Defined.

Definition get_requests_for_job_paginated (job_id limit offset : Z) (db : DB) : list t :=
  sql_limit_offset limit offset
    (merge_sort index_le (filter (λ r, batch_job_id r = job_id) (batch_requests db))).

End batch_requests_curd.

(** ** curd/batch_job_curd.py *)

Module batch_job_curd.
Import BatchJob.

(** [update_job_status]: the status is always written; a start or end time
    only when the argument is truthy. *)
Definition update_job_status
    (job_id : Z) (s : JobStatus.t) (start_time' end_time' : option string) (db : DB) : DB :=
  with_jobs
    (sql_update (λ j, bool_decide (id j = job_id))
       (λ j, mk (id j) (total_requests j) s (success_count j) (failed_count j)
                (concurrency j) (max_retries j)
                (if truthy start_time' then start_time' else start_time j)
                (if truthy end_time' then end_time' else end_time j))) db.

Definition update_job_total_requests (job_id total : Z) (db : DB) : DB :=
  with_jobs
    (sql_update (λ j, bool_decide (id j = job_id))
       (λ j, mk (id j) total (status j) (success_count j) (failed_count j)
                (concurrency j) (max_retries j) (start_time j) (end_time j))) db.

Definition get_jobs_by_status (s : JobStatus.t) (db : DB) : list t :=
  filter (λ j, status j = s) (batch_jobs db).

(** Jobs marked completed for which a request row in a non-terminal status
    exists. *)
Definition get_incomplete_completed_jobs (db : DB) : list t :=
  filter (λ j, status j = JobStatus.COMPLETED
               ∧ existsb (λ r, bool_decide (BatchRequest.batch_job_id r = id j)
                               && non_terminal (BatchRequest.status r))
                         (batch_requests db) = true)
         (batch_jobs db).

Definition reset_job_stats (job_id : Z) (db : DB) : DB :=
  with_jobs
    (sql_update (λ j, bool_decide (id j = job_id))
       (λ j, mk (id j) (total_requests j) (status j) 0 0
                (concurrency j) (max_retries j) None None)) db.

Definition update_job_stats (job_id succ fail : Z) (db : DB) : DB :=
  with_jobs
    (sql_update (λ j, bool_decide (id j = job_id))
       (λ j, mk (id j) (total_requests j) (status j) succ fail
                (concurrency j) (max_retries j) (start_time j) (end_time j))) db.

(** [SELECT * FROM batch_jobs WHERE id = ?], first row or [None]. *)
Definition get_job_details (job_id : Z) (db : DB) : option t :=
  head (filter (λ j, id j = job_id) (batch_jobs db)).

(** [DELETE FROM batch_jobs WHERE id = ?] under the foreign keys of the
    schema (database.py), which every connection enforces: the rows of
    [batch_requests] and [error_logs] that reference a deleted job row are
    deleted with it (ON DELETE CASCADE), and so are the error log entries that
    reference a deleted request.  Without a job row of this id the statement
    deletes nothing. *)
Definition delete_job (job_id : Z) (db : DB) : DB :=
  if bool_decide (job_id ∈ id <$> batch_jobs db) then
    let deleted_requests :=
      BatchRequest.id
      <$> filter (λ r, BatchRequest.batch_job_id r = job_id) (batch_requests db) in
    mkDB (filter (λ j, id j ≠ job_id) (batch_jobs db))
         (filter (λ r, BatchRequest.batch_job_id r ≠ job_id) (batch_requests db))
         (filter (λ e, bool_decide (ErrorLog.batch_job_id e ≠ job_id)
                       && match ErrorLog.request_id e with
                          | Some k => bool_decide (k ∉ deleted_requests)
                          | None => true
                          end = true)
                 (error_logs db))
  else db.

End batch_job_curd.

(** ** processor/scheduler.py *)

Module scheduler.

(** The body of the recovery loop for one job. *)
Definition recover_one (db : DB) (job : BatchJob.t) : DB :=
  let db := batch_requests_curd.reset_processing_requests_for_job (BatchJob.id job) db in
  batch_job_curd.update_job_status (BatchJob.id job) JobStatus.PENDING None None db.

Definition recover_incomplete_jobs (db : DB) : DB :=
  let stuck_jobs := batch_job_curd.get_jobs_by_status JobStatus.PROCESSING db in
  let incomplete_completed_jobs := batch_job_curd.get_incomplete_completed_jobs db in
  let all_jobs_to_recover := stuck_jobs ++ incomplete_completed_jobs in
  let db := foldl recover_one db all_jobs_to_recover in
  foldl (λ db job, batch_job_curd.reset_job_stats (BatchJob.id job) db)
        db incomplete_completed_jobs.

End scheduler.

(** ** processor/request_cache.py *)

(** The three bulk writes of a flush; the oracle of [flush_updates] says which
    of them raise. *)
Inductive Batch := SuccessBatch | FailedBatch | ProcessingBatch.

Module RequestCache.

Record t := mk {
  requests : gmap Z BatchRequest.t;
  dirty_request_ids : gset Z;
  batch_size : Z;
  last_flush_time : Z;
  flush_interval : Z;
}.

(** The constructor, reading [time.time()] as [now]. *)
Definition __init__ (now : Z) : t :=
  mk ∅ ∅ settings.REQUEST_CACHE_BATCH_SIZE now settings.REQUEST_CACHE_FLUSH_INTERVAL.

Definition with_entry (request_id : Z) (r : BatchRequest.t) (c : t) : t :=
  mk (<[request_id := r]> (requests c)) ({[request_id]} ∪ dirty_request_ids c)
     (batch_size c) (last_flush_time c) (flush_interval c).

Definition with_dirty (d : gset Z) (c : t) : t :=
  mk (requests c) d (batch_size c) (last_flush_time c) (flush_interval c).

Definition with_last_flush_time (now : Z) (c : t) : t :=
  mk (requests c) (dirty_request_ids c) (batch_size c) now (flush_interval c).

(** The dict comprehension keyed by the row id: a later row with the same key
    replaces an earlier one. *)
Definition load_requests_for_job (job_id : Z) (db : DB) (c : t) : t :=
  mk (foldl (λ m r, <[BatchRequest.id r := r]> m) ∅
            (batch_requests_curd.get_requests_for_job job_id db))
     (dirty_request_ids c) (batch_size c) (last_flush_time c) (flush_interval c).

(** [self.requests.values()] come in the order of insertion, which for the
    cache of a job is the order of [load_requests_for_job]: ascending request
    index, distinct within a job.  The [gmap] does not keep this order; it is
    restored here. *)
Definition get_pending_requests (c : t) : list BatchRequest.t :=
  merge_sort batch_requests_curd.index_le
    (filter (λ r, BatchRequest.status r = RequestStatus.PENDING)
            ((map_to_list (requests c)).*2)).

Definition update_request_status
    (request_id : Z) (status : RequestStatus.t) (start_time : option string) (c : t) : t :=
  match requests c !! request_id with
  | Some r =>
      with_entry request_id
        (batch_requests_curd.set_status_times status
           (if truthy start_time then start_time else BatchRequest.start_time r)
           (BatchRequest.end_time r) r) c
  | None => c
  end.

(** [processed_data] only selects a log line and is not an argument here. *)
Definition update_request_as_success
    (request_id : Z) (response_body : string) (p_tokens c_tokens : Z) (end_time : string)
    (c : t) : t :=
  match requests c !! request_id with
  | Some r =>
      with_entry request_id
        (BatchRequest.mk (BatchRequest.id r) (BatchRequest.batch_job_id r)
           (BatchRequest.request_index r) RequestStatus.SUCCESS (BatchRequest.retry_count r)
           (Some response_body) p_tokens c_tokens (p_tokens + c_tokens)
           (BatchRequest.start_time r) (Some end_time)) c
  | None => c
  end.

Definition update_request_as_failed
    (request_id : Z) (end_time : string) (new_retry_count : Z)
    (final_status : RequestStatus.t) (c : t) : t :=
  match requests c !! request_id with
  | Some r =>
      with_entry request_id
        (BatchRequest.mk (BatchRequest.id r) (BatchRequest.batch_job_id r)
           (BatchRequest.request_index r) final_status new_retry_count
           (BatchRequest.response_body r) (BatchRequest.prompt_tokens r)
           (BatchRequest.completion_tokens r) (BatchRequest.total_tokens r)
           (BatchRequest.start_time r) (Some end_time)) c
  | None => c
  end.

Definition success_record (r : BatchRequest.t) : batch_requests_curd.SuccessUpdate :=
  batch_requests_curd.mkSuccessUpdate (BatchRequest.id r) (BatchRequest.response_body r)
    (BatchRequest.prompt_tokens r) (BatchRequest.completion_tokens r)
    (BatchRequest.start_time r) (BatchRequest.end_time r).

Definition failed_record (r : BatchRequest.t) : batch_requests_curd.FailureUpdate :=
  batch_requests_curd.mkFailureUpdate (BatchRequest.id r) (BatchRequest.status r)
    (BatchRequest.retry_count r) (BatchRequest.end_time r).

Definition processing_record (r : BatchRequest.t) : batch_requests_curd.StatusUpdate :=
  batch_requests_curd.mkStatusUpdate (BatchRequest.id r) (BatchRequest.status r)
    (BatchRequest.start_time r).

Definition _batch_update_success_requests (rs : list BatchRequest.t) : DB → DB :=
  batch_requests_curd.bulk_update_request_success (success_record <$> rs).

Definition _batch_update_failed_requests (rs : list BatchRequest.t) : DB → DB :=
  batch_requests_curd.bulk_update_request_failure (failed_record <$> rs).

Definition _batch_update_processing_requests (rs : list BatchRequest.t) : DB → DB :=
  batch_requests_curd.bulk_update_request_status (processing_record <$> rs).

(** [requests_to_sync]: the records of the dirty ids that are in the map. *)
Definition requests_to_sync (c : t) : list BatchRequest.t :=
  omap (λ i, requests c !! i) (elements (dirty_request_ids c)).

Definition success_requests (rs : list BatchRequest.t) : list BatchRequest.t :=
  filter (λ r, BatchRequest.status r = RequestStatus.SUCCESS) rs.

Definition failed_requests (rs : list BatchRequest.t) : list BatchRequest.t :=
  filter (λ r, BatchRequest.status r = RequestStatus.FAILED) rs.

Definition processing_requests (rs : list BatchRequest.t) : list BatchRequest.t :=
  filter (λ r, in_flight (BatchRequest.status r) = true) rs.

(** One guarded bulk write inside the [try]: skipped once an earlier write has
    raised or when its batch is empty; the flag records a raise. *)
Definition guarded_write
    (raised : bool) (write : list BatchRequest.t → DB → DB) (rs : list BatchRequest.t)
    (acc : DB * bool) : DB * bool :=
  if acc.2 then acc
  else match rs with
       | [] => acc
       | _ => if raised then (acc.1, true) else (write rs acc.1, false)
       end.

(** The body of the [try] of [flush_updates]: the store after the writes that
    went through, and whether one of them raised. *)
Definition sync_to_store (raises : Batch → bool) (rs : list BatchRequest.t) (db : DB) : DB * bool :=
  guarded_write (raises ProcessingBatch) _batch_update_processing_requests (processing_requests rs)
    (guarded_write (raises FailedBatch) _batch_update_failed_requests (failed_requests rs)
       (guarded_write (raises SuccessBatch) _batch_update_success_requests (success_requests rs)
          (db, false))).

(** The condition under which a flush goes ahead. *)
Definition flush_due (force : bool) (current_time : Z) (c : t) : bool :=
  force || (batch_size c <=? Z.of_nat (size (dirty_request_ids c)))
        || (flush_interval c <=? current_time - last_flush_time c).

Definition flush_updates
    (raises : Batch → bool) (force : bool) (current_time : Z) (c : t) (db : DB) : t * DB :=
  if bool_decide (dirty_request_ids c = ∅) then (c, db)
  else if flush_due force current_time c then
    let dirty_ids := elements (dirty_request_ids c) in
    let rs := requests_to_sync c in
    let c := with_dirty ∅ c in
    let '(db, raised) := sync_to_store raises rs db in
    if raised then (with_dirty (dirty_request_ids c ∪ list_to_set dirty_ids) c, db)
    else (with_last_flush_time current_time c, db)
  else (c, db).

(** *** A flush, write by write

    [flush_updates] gives way inside each of its bulk writes, and the
    executors go on mutating the cached records meanwhile.  The three batches
    are lists of the cached objects, made when the flush starts; the tuples of
    a bulk write are read from the objects of its batch when the write is
    called: when the flush starts for the first batch that is not empty, and
    when the write before it returns for the others. *)

Definition write_batch (b : Batch) : list BatchRequest.t → DB → DB :=
  match b with
  | SuccessBatch => _batch_update_success_requests
  | FailedBatch => _batch_update_failed_requests
  | ProcessingBatch => _batch_update_processing_requests
  end.

(** The dirty entries of the dict, each object with its key. *)
Definition entries_to_sync (c : t) : list (Z * BatchRequest.t) :=
  omap (λ k, pair k <$> requests c !! k) (elements (dirty_request_ids c)).

(** A batch that is not empty, as the [if] before its write sees it. *)
Definition batch_of (b : Batch) (P : RequestStatus.t → Prop) `{!∀ s, Decision (P s)}
    (entries : list (Z * BatchRequest.t)) : list (Batch * list (Z * BatchRequest.t)) :=
  match filter (λ e, P (BatchRequest.status e.2)) entries with
  | [] => []
  | batch => [(b, batch)]
  end.

Definition batches (entries : list (Z * BatchRequest.t))
    : list (Batch * list (Z * BatchRequest.t)) :=
  batch_of SuccessBatch (λ s, s = RequestStatus.SUCCESS) entries
  ++ batch_of FailedBatch (λ s, s = RequestStatus.FAILED) entries
  ++ batch_of ProcessingBatch (λ s, in_flight s = true) entries.

(** A call of [flush_updates] that is inside one of its bulk writes: the ids
    it took from the dirty set, its clock reading, the batch of the write
    under way with the records as they were when the write was called, and
    the batches still to come, as the keys of their objects. *)
Record Flushing := mkFlushing {
  flushing_dirty_ids : list Z;
  flushing_time : Z;
  under_way : Batch * list BatchRequest.t;
  to_come : list (Batch * list Z);
}.

(** From the start of [flush_updates] to its first bulk write, or to its end
    when it has nothing to write. *)
Definition flush_begin (force : bool) (current_time : Z) (c : t) : t * option Flushing :=
  if bool_decide (dirty_request_ids c = ∅) then (c, None)
  else if flush_due force current_time c then
    let dirty_ids := elements (dirty_request_ids c) in
    let entries := entries_to_sync c in
    let c := with_dirty ∅ c in
    match batches entries with
    | [] => (with_last_flush_time current_time c, None)
    | (b, batch) :: rest =>
        (c, Some (mkFlushing dirty_ids current_time (b, batch.*2)
                    ((λ b, (b.1, b.2.*1)) <$> rest)))
    end
  else (c, None).

(** The write under way comes back: with an exception, which the [except]
    clause answers by marking the ids of the flush dirty again, or with its
    tuples committed, and then the next write is called, or the flush ends
    with the time stamp. *)
Definition flush_write (raises : bool) (f : Flushing) (c : t) (db : DB)
    : t * DB * option Flushing :=
  if raises then
    (with_dirty (dirty_request_ids c ∪ list_to_set (flushing_dirty_ids f)) c, db, None)
  else
    let db := write_batch (under_way f).1 (under_way f).2 db in
    match to_come f with
    | [] => (with_last_flush_time (flushing_time f) c, db, None)
    | (b, keys) :: rest =>
        (c, db,
         Some (mkFlushing (flushing_dirty_ids f) (flushing_time f)
                 (b, omap (λ k, requests c !! k) keys) rest))
    end.

(** The task of the flush is cancelled inside the write under way, before the
    commit of the write or after it.  [CancelledError] is not an [Exception]:
    the [except] clause is skipped and the ids of the flush stay out of the
    dirty set. *)
Definition flush_cut (committed : bool) (f : Flushing) (db : DB) : DB :=
  if committed then write_batch (under_way f).1 (under_way f).2 db else db.

End RequestCache.

Definition no_raise : Batch → bool := λ _, false.

(** ** processor/request_executor.py *)

(** What an executor does to the outside world, in program order.  An executor
    never reads the cache, so its run is the list of its effects.  [Flush] is
    a call of [flush_updates] that runs to its end before any executor goes
    on. *)
Inductive Effect :=
| Mark_status (request_id : Z) (status : RequestStatus.t) (start_time : option string)
| Mark_success (request_id : Z) (response_body : string) (p_tokens c_tokens : Z)
               (end_time : string)
| Mark_failed (request_id : Z) (end_time : string) (new_retry_count : Z)
              (final_status : RequestStatus.t)
| Log_error (request_id : Z) (entry : ErrorLog.t)
| Call_upstream (request_id : Z) (attempt : nat)
| Sleep (request_id : Z) (seconds : Z)
| Flush (current_time : Z) (raises : Batch → bool).

(** How the [try] statement of one attempt ends: with the response; with an
    exception of the body that its handler has entered in the error log
    ([Upstream_error] for [APIError] and [APITimeoutError], [Other_exception]
    for any other [Exception]); with the cancellation of the task inside the
    body ([CancelledError] is not an [Exception]); or inside a handler whose
    [log_error_to_db] does not come back: it raises, as it does under the
    foreign key of [error_logs] once the job row is deleted, or the task is
    cancelled before the commit of the entry ([Log_raised]: nothing is
    written), or the task is cancelled after the commit ([Log_cancelled]).
    What leaves a handler ends the executor. *)
Inductive Outcome :=
| Returned (response_body : string) (usage : option (Z * Z))
| Upstream_error (error_type error_message : string)
| Other_exception (error_type error_message : string)
| Cancelled
| Log_raised
| Log_cancelled (error_type error_message : string).

Module request_executor.

(** What one executor observes: the outcome of each attempt, the two existence
    checks of the job, and the clock.  An existence check answers [false]
    when the job is not found, when the lookup raises, and also when the task
    is cancelled while it waits there or in the sleep before.  The pause wait
    returns without touching the cache and is not an effect. *)
Record Env := mkEnv {
  upstream : nat → Outcome;
  job_exists_at_start : nat → bool;
  job_exists_before_retry : nat → bool;
  start_clock : nat → string;
  end_clock : nat → string;
}.

Definition backoff (base : Z) (attempt : nat) : Z := base ^ Z.of_nat attempt.

Section executor.
Context (RETRY_BACKOFF_BASE : Z).

(** The [for attempt in range(max_attempts)] loop, on the attempts still to
    run. *)
Fixpoint attempts
    (env : Env) (job : BatchJob.t) (request_id max_attempts : Z) (todo : list nat)
    : list Effect :=
  match todo with
  | [] => []
  | attempt :: rest =>
      if negb (job_exists_at_start env attempt) then []
      else
        let start_time := start_clock env attempt in
        let status_to_set :=
          if (attempt =? 0)%nat then RequestStatus.PROCESSING else RequestStatus.RETRYING in
        Mark_status request_id status_to_set (Some start_time)
        :: Call_upstream request_id attempt
        :: match upstream env attempt with
           | Returned response_body usage =>
               [Mark_success request_id response_body
                  (match usage with Some u => u.1 | None => 0 end)
                  (match usage with Some u => u.2 | None => 0 end)
                  (end_clock env attempt)]
           | Upstream_error error_type error_message =>
               Log_error request_id
                 (ErrorLog.mk (BatchJob.id job) (Some request_id) error_type error_message)
               :: (if Z.of_nat attempt <? max_attempts - 1 then
                     if negb (job_exists_before_retry env attempt) then []
                     else
                       Mark_failed request_id (end_clock env attempt)
                         (Z.of_nat attempt + 1) RequestStatus.RETRYING
                       :: Sleep request_id (backoff RETRY_BACKOFF_BASE attempt)
                       :: attempts env job request_id max_attempts rest
                   else
                     [Mark_failed request_id (end_clock env attempt)
                        (Z.of_nat attempt + 1) RequestStatus.FAILED])
           | Other_exception error_type error_message =>
               [Log_error request_id
                  (ErrorLog.mk (BatchJob.id job) (Some request_id) error_type error_message);
                Mark_failed request_id (end_clock env attempt)
                  (Z.of_nat attempt + 1) RequestStatus.FAILED]
           | Cancelled => []
           | Log_raised => []
           | Log_cancelled error_type error_message =>
               [Log_error request_id
                  (ErrorLog.mk (BatchJob.id job) (Some request_id) error_type error_message)]
           end
  end.

Definition max_attempts_of (job : BatchJob.t) : Z := Z.max 1 (BatchJob.max_retries job).

Definition execute_request (env : Env) (request : BatchRequest.t) (job : BatchJob.t)
    : list Effect :=
  let request_id := BatchRequest.id request in
  let max_attempts := max_attempts_of job in
  attempts env job request_id max_attempts (seq 0 (Z.to_nat max_attempts)).

End executor.
End request_executor.

(** ** The effects on the cache and the store *)

Definition World : Type := RequestCache.t * DB.

Definition log_error_to_db (entry : ErrorLog.t) (db : DB) : DB :=
  mkDB (batch_jobs db) (batch_requests db) (error_logs db ++ [entry]).

Definition perform (w : World) (e : Effect) : World :=
  match e with
  | Mark_status request_id status start_time =>
      (RequestCache.update_request_status request_id status start_time w.1, w.2)
  | Mark_success request_id response_body p_tokens c_tokens end_time =>
      (RequestCache.update_request_as_success request_id response_body p_tokens c_tokens
         end_time w.1, w.2)
  | Mark_failed request_id end_time new_retry_count final_status =>
      (RequestCache.update_request_as_failed request_id end_time new_retry_count
         final_status w.1, w.2)
  | Log_error _ entry => (w.1, log_error_to_db entry w.2)
  | Call_upstream _ _ => w
  | Sleep _ _ => w
  | Flush current_time raises => RequestCache.flush_updates raises false current_time w.1 w.2
  end.

Definition run (effects : list Effect) (w : World) : World := foldl perform w effects.

(** ** processor/job_processor.py *)

(** The store operations inside the [try] of [_finalize_job_processing]; the
    oracle says which of them raise. *)
Inductive StoreOp :=
| Finalize_all | Status_counts | Count_requests | Update_total | Update_stats.

Definition no_fault : StoreOp → bool := λ _, false.

(** A step of the scheduler: the next effect of one executor, the start of
    a round of the periodic flush, or the return of the bulk write that the
    flush is in. *)
Inductive Choice :=
| Step (task : nat)
| Flush_start (current_time : Z)
| Flush_next (raises : bool).

(** The executors of a job and its periodic flush under a cooperative
    scheduler.  A choice that cannot be taken is skipped: a step of an
    executor that has returned, the start of a flush while one is under way,
    the return of a write when no flush is under way.  Once the choices are
    used up the executors still running finish one after the other, since the
    job awaits all of them.  The result has the flush that is under way when
    the last executor returns. *)
Fixpoint run_tasks (choices : list Choice) (tasks : list (list Effect)) (w : World)
    (flushing : option RequestCache.Flushing) : World * option RequestCache.Flushing :=
  match choices with
  | [] => (run (concat tasks) w, flushing)
  | Step i :: choices =>
      match tasks !! i with
      | Some (e :: rest) => run_tasks choices (<[i := rest]> tasks) (perform w e) flushing
      | _ => run_tasks choices tasks w flushing
      end
  | Flush_start current_time :: choices =>
      match flushing with
      | Some _ => run_tasks choices tasks w flushing
      | None =>
          let '(c, flushing) := RequestCache.flush_begin false current_time w.1 in
          run_tasks choices tasks (c, w.2) flushing
      end
  | Flush_next raises :: choices =>
      match flushing with
      | Some f =>
          let '(c, db, flushing) := RequestCache.flush_write raises f w.1 w.2 in
          run_tasks choices tasks (c, db) flushing
      | None => run_tasks choices tasks w flushing
      end
  end.

Module job_processor.

Definition _finalize_incomplete_requests (job_id max_retries : Z) (now : string) (db : DB) : DB :=
  batch_requests_curd.finalize_incomplete_requests_for_job job_id max_retries now db.

(** The test that decides the terminal status. *)
Definition all_terminal (succ fail total : Z) : bool :=
  ((total <=? succ + fail) && (0 <? total)) || (total =? 0).

(** The locals [succ], [fail], [total] and the store when the [try] block is
    left, normally or through the [except] clause: a raising operation leaves
    the locals assigned so far. *)
Definition finalize_try
    (raises : StoreOp → bool) (job job_details : BatchJob.t) (now : string) (db : DB)
    : Z * Z * Z * DB :=
  let total := py_or (BatchJob.total_requests job_details) 0 in
  if raises Finalize_all then (0, 0, total, db) else
  let db := batch_requests_curd.finalize_all_incomplete_requests_for_job (BatchJob.id job) now db in
  if raises Status_counts then (0, 0, total, db) else
  let status_counts := batch_requests_curd.get_status_counts_for_job (BatchJob.id job) db in
  let succ := status_counts.1 in
  let fail := status_counts.2 in
  if raises Count_requests then (succ, fail, total, db) else
  let actual_total := batch_requests_curd.count_requests_for_job (BatchJob.id job) db in
  let reported_total :=
    py_or (BatchJob.total_requests job_details) (BatchJob.total_requests job) in
  let after_total :=
    if bool_decide (reported_total ≠ actual_total) then
      if raises Update_total then None
      else Some (actual_total,
                 batch_job_curd.update_job_total_requests (BatchJob.id job) actual_total db)
    else Some (total, db) in
  match after_total with
  | None => (succ, fail, total, db)
  | Some (total, db) =>
      if raises Update_stats then (succ, fail, total, db)
      else (succ, fail, total, batch_job_curd.update_job_stats (BatchJob.id job) succ fail db)
  end.

Definition _finalize_job_processing
    (raises : StoreOp → bool) (job job_details : BatchJob.t) (end_time now : string) (db : DB)
    : DB :=
  let '(succ, fail, total, db) := finalize_try raises job job_details now db in
  if all_terminal succ fail total then
    batch_job_curd.update_job_status (BatchJob.id job) JobStatus.COMPLETED None (Some end_time) db
  else
    batch_job_curd.update_job_status (BatchJob.id job) JobStatus.FAILED None (Some end_time) db.

(** What is done to the job from outside while [process_job] runs: nothing;
    its deletion ([job_service.delete_job]); or a reset or a pause, by the
    recovery sweep, which resets every job it finds processing, or through
    the job service. *)
Inductive Meanwhile := Left_alone | Deleted | Reset_or_paused.

(** What a run of [process_job] observes from outside: the clock, the endpoint
    configuration ([None] when missing, else its [is_active]), what each
    executor observes, the scheduling of the tasks, which store operations
    raise where the code catches the exception, whether the cancellation of
    the periodic flush finds the write under way committed, and what is done
    to the job meanwhile. *)
Record Env := mkEnv {
  start_time : string;
  api_config : option bool;
  cache_clock : Z;
  executor_env : Z → request_executor.Env;
  schedule : list Choice;
  final_flush_clock : Z;
  final_flush_raises : Batch → bool;
  conditional_finalize_raises : bool;
  conditional_finalize_now : string;
  end_time : string;
  finalize_raises : StoreOp → bool;
  finalize_now : string;
  flush_cut_committed : bool;
  meanwhile : Meanwhile;
}.

(** How a call of [process_job] ends, with the store it leaves: it returns;
    [asyncio.Semaphore] raises [ValueError] for a negative limit; the
    executors wait for ever for a semaphore of limit 0; the job is deleted
    under it; or the job is reset or paused under it, and then a second run
    of the job may write the same rows and the executors may wait without
    end: the store of such a run is not given. *)
Inductive Ending :=
| Returns (db : DB)
| Raises (db : DB)
| Blocks (db : DB)
| Job_deleted (db : DB)
| Not_followed.

Section process.
Context (RETRY_BACKOFF_BASE : Z).

(** A job that is deleted while it is processed leaves nothing behind,
    whenever the deletion comes: what [process_job] has written by then are
    rows and log entries of the job, which go with the job row, and what it
    writes afterwards finds no row to update or is refused by the foreign key.
    [process_job] then returns at the check of [get_job_details_safe], or
    raises from an insert that no [try] guards. *)
Definition process_job (env : Env) (job : BatchJob.t) (db : DB) : Ending :=
  let job_id := BatchJob.id job in
  match meanwhile env with
  | Deleted => Job_deleted (batch_job_curd.delete_job job_id db)
  | Reset_or_paused => Not_followed
  | Left_alone =>
      let db := batch_job_curd.update_job_status job_id JobStatus.PROCESSING
                  (Some (start_time env)) None db in
      match api_config env with
      | Some true =>
          let request_cache :=
            RequestCache.load_requests_for_job job_id db (RequestCache.__init__ (cache_clock env)) in
          let requests_to_process := RequestCache.get_pending_requests request_cache in
          match requests_to_process with
          | [] => Returns (batch_job_curd.update_job_status job_id JobStatus.COMPLETED
                             None (Some (end_time env)) db)
          | _ =>
              if BatchJob.concurrency job <? 0 then Raises db
              else if BatchJob.concurrency job =? 0 then Blocks db
              else
                let tasks :=
                  (λ req, request_executor.execute_request RETRY_BACKOFF_BASE
                            (executor_env env (BatchRequest.id req)) req job)
                  <$> requests_to_process in
                let '(w, flushing) := run_tasks (schedule env) tasks (request_cache, db) None in
                let db :=
                  match flushing with
                  | Some f => RequestCache.flush_cut (flush_cut_committed env) f w.2
                  | None => w.2
                  end in
                let w := RequestCache.flush_updates (final_flush_raises env) true
                           (final_flush_clock env) w.1 db in
                let db :=
                  if conditional_finalize_raises env then w.2
                  else _finalize_incomplete_requests job_id (BatchJob.max_retries job)
                         (conditional_finalize_now env) w.2 in
                match batch_job_curd.get_job_details job_id db with
                | None => Returns db
                | Some job_details =>
                    Returns (_finalize_job_processing (finalize_raises env) job job_details
                               (end_time env) (finalize_now env) db)
                end
          end
      | _ =>
          let db :=
            log_error_to_db
              (ErrorLog.mk job_id None "ConfigurationError" "api config missing or inactive") db in
          Returns (batch_job_curd.update_job_status job_id JobStatus.FAILED
                     None (Some (end_time env)) db)
      end
  end.

End process.
End job_processor.

(** ** service/job_service.py *)

Module job_service.

(** The store operations of the service functions.  Each function catches
    the exceptions of its body and then returns [False]; the oracle says which
    operations raise, and the store is then as the operations before the raise
    left it. *)
Inductive Op :=
| Delete | Reset_failed | Reset_processing | Reset_all | Reset_single
| Set_status | Reset_stats | Get_details.

Definition delete_job (raises : Op → bool) (job_id : Z) (db : DB) : bool * DB :=
  if raises Delete then (false, db)
  else (true, batch_job_curd.delete_job job_id db).

(** [cursor.rowcount] of the two reset statements is the number of rows that
    satisfy the [WHERE] clause when the statement runs. *)
Definition retry_failed_requests (raises : Op → bool) (job_id : Z) (db : DB) : bool * DB :=
  if raises Reset_failed then (false, db) else
  let updated_failed :=
    sql_count (λ r, bool_decide (BatchRequest.batch_job_id r = job_id)
                    && bool_decide (BatchRequest.status r = RequestStatus.FAILED))
              (batch_requests db) in
  let db := batch_requests_curd.reset_failed_requests_for_job job_id db in
  if 0 <? updated_failed then
    if raises Set_status then (false, db)
    else (true, batch_job_curd.update_job_status job_id JobStatus.PENDING None None db)
  else
    if raises Reset_processing then (false, db) else
    let updated_inprogress :=
      sql_count (λ r, bool_decide (BatchRequest.batch_job_id r = job_id)
                      && in_flight (BatchRequest.status r))
                (batch_requests db) in
    let db := batch_requests_curd.reset_processing_requests_for_job job_id db in
    if 0 <? updated_inprogress then
      if raises Set_status then (false, db)
      else (true, batch_job_curd.update_job_status job_id JobStatus.PENDING None None db)
    else (true, db).

Definition retry_specific_request (raises : Op → bool) (request_id : Z) (db : DB) : bool * DB :=
  if raises Reset_single then (false, db)
  else (true, batch_requests_curd.reset_single_request request_id db).

Definition reset_job_to_pending (raises : Op → bool) (job_id : Z) (db : DB) : bool * DB :=
  if raises Reset_all then (false, db) else
  let db := batch_requests_curd.reset_all_requests_for_job job_id db in
  if raises Set_status then (false, db) else
  let db := batch_job_curd.update_job_status job_id JobStatus.PENDING None None db in
  if raises Reset_stats then (false, db) else
  (true, batch_job_curd.reset_job_stats job_id db).

Definition pause_job (raises : Op → bool) (job_id : Z) (db : DB) : bool * DB :=
  if raises Set_status then (false, db)
  else (true, batch_job_curd.update_job_status job_id JobStatus.PAUSED None None db).

(** The reset of the requests in flight sits in a [try] of its own, whose
    [except] clause passes. *)
Definition resume_job (raises : Op → bool) (job_id : Z) (db : DB) : bool * DB :=
  if raises Get_details then (false, db) else
  match batch_job_curd.get_job_details job_id db with
  | None => (false, db)
  | Some job =>
      if bool_decide (BatchJob.status job ≠ JobStatus.PAUSED) then (true, db)
      else
        let db :=
          if raises Reset_processing then db
          else batch_requests_curd.reset_processing_requests_for_job job_id db in
        if raises Set_status then (false, db)
        else (true, batch_job_curd.update_job_status job_id JobStatus.PENDING None None db)
  end.

End job_service.

(** ** service/ui_response_service.py *)

Module ui_response_service.

(** The dict that [get_job_requests_page] returns. *)
Record Page := mkPage {
  items : list BatchRequest.t;
  total : Z;
  page : Z;
  page_size : Z;
  total_pages : Z;
}.

(** [//] is the floor division, as [Z.div] is for a positive divisor. *)
Definition get_job_requests_page (job_id : Z) (page page_size : option Z) (db : DB) : Page :=
  let page := match page with
              | Some p => if p <? 1 then 1 else p
              | None => 1
              end in
  let page_size := match page_size with
                   | Some s => if s <? 1 then 2 else s
                   | None => 2
                   end in
  let total := batch_requests_curd.count_requests_for_job job_id db in
  let total_pages := Z.max 1 ((total + page_size - 1) / page_size) in
  let page := Z.min page total_pages in
  let offset := (page - 1) * page_size in
  let items := batch_requests_curd.get_requests_for_job_paginated job_id page_size offset db in
  mkPage items total page page_size total_pages.

End ui_response_service.

(** ** Vocabulary of the properties *)

(** What the recovery sweep does to a request row of a recovered job. *)
Definition reset_in_flight (r : BatchRequest.t) : BatchRequest.t :=
  if in_flight (BatchRequest.status r)
  then batch_requests_curd.set_status_times RequestStatus.PENDING None None r
  else r.

(** The cache as [load_requests_for_job] builds it: each record is stored
    under its own id. *)
Definition keyed_by_id (c : RequestCache.t) : Prop :=
  map_Forall (λ k r, BatchRequest.id r = k) (RequestCache.requests c).

(** What the bulk write of its batch makes of the row of a record [r]: the
    success batch writes the status, the response body, the token counts and
    both times; the failed batch the status, the retry count and the end time;
    the processing batch the status and the start time; a pending record is in
    no batch. *)
Definition written (r row : BatchRequest.t) : BatchRequest.t :=
  match BatchRequest.status r with
  | RequestStatus.SUCCESS =>
      BatchRequest.mk (BatchRequest.id row) (BatchRequest.batch_job_id row)
        (BatchRequest.request_index row) RequestStatus.SUCCESS (BatchRequest.retry_count row)
        (BatchRequest.response_body r) (BatchRequest.prompt_tokens r)
        (BatchRequest.completion_tokens r)
        (BatchRequest.prompt_tokens r + BatchRequest.completion_tokens r)
        (BatchRequest.start_time r) (BatchRequest.end_time r)
  | RequestStatus.FAILED =>
      BatchRequest.mk (BatchRequest.id row) (BatchRequest.batch_job_id row)
        (BatchRequest.request_index row) RequestStatus.FAILED (BatchRequest.retry_count r)
        (BatchRequest.response_body row) (BatchRequest.prompt_tokens row)
        (BatchRequest.completion_tokens row) (BatchRequest.total_tokens row)
        (BatchRequest.start_time row) (BatchRequest.end_time r)
  | RequestStatus.PENDING => row
  | s =>
      BatchRequest.mk (BatchRequest.id row) (BatchRequest.batch_job_id row)
        (BatchRequest.request_index row) s (BatchRequest.retry_count row)
        (BatchRequest.response_body row) (BatchRequest.prompt_tokens row)
        (BatchRequest.completion_tokens row) (BatchRequest.total_tokens row)
        (BatchRequest.start_time r) (BatchRequest.end_time row)
  end.

(** One row under the statements of an [executemany] whose tuples [us] are
    keyed by [key] and applied by [set]. *)
Definition row_fold {U} (key : U → Z) (set : U → BatchRequest.t → BatchRequest.t)
    (us : list U) (row : BatchRequest.t) : BatchRequest.t :=
  foldl (λ row u, if bool_decide (BatchRequest.id row = key u) then set u row else row)
        row us.

Definition is_success (s : RequestStatus.t) : bool := bool_decide (s = RequestStatus.SUCCESS).
Definition is_failed (s : RequestStatus.t) : bool := bool_decide (s = RequestStatus.FAILED).

(** The cached record of a dirty id. *)
Definition dirty_record (c : RequestCache.t) (k : Z) : option BatchRequest.t :=
  if bool_decide (k ∈ RequestCache.dirty_request_ids c) then RequestCache.requests c !! k
  else None.

(** A store row after the bulk writes of the batches selected by [sel]. *)
Definition flushed_row (sel : RequestStatus.t → bool) (c : RequestCache.t)
    (row : BatchRequest.t) : BatchRequest.t :=
  match dirty_record c (BatchRequest.id row) with
  | Some r => if sel (BatchRequest.status r) then written r row else row
  | None => row
  end.

(** Two stores with the same tables other than the request rows. *)
Definition same_frame (db1 db2 : DB) : Prop :=
  batch_jobs db1 = batch_jobs db2 ∧ error_logs db1 = error_logs db2.

(** The record of [request_id] as a fresh cache loads it from the store. *)
Definition reload (job_id : Z) (db : DB) (request_id : Z) : option BatchRequest.t :=
  RequestCache.requests (RequestCache.load_requests_for_job job_id db (RequestCache.__init__ 0))
  !! request_id.

(** Agreement of two records on the fields the mutators write. *)
Definition agree_on_mutated_fields (r r' : BatchRequest.t) : Prop :=
  BatchRequest.status r = BatchRequest.status r'
  ∧ BatchRequest.start_time r = BatchRequest.start_time r'
  ∧ BatchRequest.end_time r = BatchRequest.end_time r'
  ∧ BatchRequest.retry_count r = BatchRequest.retry_count r'
  ∧ BatchRequest.response_body r = BatchRequest.response_body r'
  ∧ BatchRequest.prompt_tokens r = BatchRequest.prompt_tokens r'
  ∧ BatchRequest.completion_tokens r = BatchRequest.completion_tokens r'
  ∧ BatchRequest.total_tokens r = BatchRequest.total_tokens r'.

(** The retry counts of the cached records are at most [bound]. *)
Definition cache_within (bound : Z) (c : RequestCache.t) : Prop :=
  map_Forall (λ _ r, BatchRequest.retry_count r ≤ bound) (RequestCache.requests c).

(** The retry counts of the stored requests of the job are at most [bound]. *)
Definition rows_within (job_id bound : Z) (db : DB) : Prop :=
  Forall (λ r, BatchRequest.batch_job_id r = job_id → BatchRequest.retry_count r ≤ bound)
         (batch_requests db).

(** An effect that writes a retry count writes one that is at most [bound]. *)
Definition effect_within (bound : Z) (e : Effect) : Prop :=
  match e with
  | Mark_failed _ _ new_retry_count _ => new_retry_count ≤ bound
  | _ => True
  end.

(** The request an effect is about; the periodic flush is about none. *)
Definition target (e : Effect) : option Z :=
  match e with
  | Mark_status request_id _ _ | Mark_success request_id _ _ _ _
  | Mark_failed request_id _ _ _ | Log_error request_id _
  | Call_upstream request_id _ | Sleep request_id _ => Some request_id
  | Flush _ _ => None
  end.

(** The effects of a run that are about the request [k]. *)
Definition about (k : Z) (effects : list Effect) : list Effect :=
  filter (λ e, target e = Some k) effects.

(** Every cached record that is failed and not dirty has its status and
    retry count in the rows of the store. *)
Definition failed_synced (w : World) : Prop :=
  ∀ k r row,
    RequestCache.requests w.1 !! k = Some r →
    k ∉ RequestCache.dirty_request_ids w.1 →
    row ∈ batch_requests w.2 →
    BatchRequest.id row = k →
    BatchRequest.status r = RequestStatus.FAILED →
    BatchRequest.status row = RequestStatus.FAILED
    ∧ BatchRequest.retry_count row = BatchRequest.retry_count r.

(** The statuses of the records that a flush puts in the batch [b]. *)
Definition batch_class (b : Batch) (s : RequestStatus.t) : Prop :=
  match b with
  | SuccessBatch => s = RequestStatus.SUCCESS
  | FailedBatch => s = RequestStatus.FAILED
  | ProcessingBatch => in_flight s = true
  end.

(** The flush [f] has still to write the record of the key [k], in its batch
    [b]: in the write under way or in one to come. *)
Definition awaits_write (f : RequestCache.Flushing) (b : Batch) (k : Z) : Prop :=
  ((RequestCache.under_way f).1 = b
   ∧ k ∈ BatchRequest.id <$> (RequestCache.under_way f).2)
  ∨ ∃ keys, (b, keys) ∈ RequestCache.to_come f ∧ k ∈ keys.

(** The cache and the store between two steps of the scheduler.  With no
    flush under way the failed records are in step with the rows.  With a
    flush under way: a record of the write under way whose id is not dirty is
    still the cached one; a key the flush has still to write is one of the
    ids it took, and its record, unless dirty again, still has a status of
    its batch; and a failed record that is not dirty is in its row or has
    still to be written by the flush. *)
Definition flush_in_step (w : World) (flushing : option RequestCache.Flushing) : Prop :=
  keyed_by_id w.1
  ∧ match flushing with
    | None => failed_synced w
    | Some f =>
        (∀ r, r ∈ (RequestCache.under_way f).2 →
              BatchRequest.id r ∉ RequestCache.dirty_request_ids w.1 →
              RequestCache.requests w.1 !! BatchRequest.id r = Some r)
        ∧ (∀ b k, awaits_write f b k →
                  k ∈ RequestCache.flushing_dirty_ids f
                  ∧ (k ∉ RequestCache.dirty_request_ids w.1 →
                     ∃ r, RequestCache.requests w.1 !! k = Some r
                          ∧ batch_class b (BatchRequest.status r)))
        ∧ (∀ k r row,
             RequestCache.requests w.1 !! k = Some r →
             k ∉ RequestCache.dirty_request_ids w.1 →
             row ∈ batch_requests w.2 →
             BatchRequest.id row = k →
             BatchRequest.status r = RequestStatus.FAILED →
             (BatchRequest.status row = RequestStatus.FAILED
              ∧ BatchRequest.retry_count row = BatchRequest.retry_count r)
             ∨ awaits_write f FailedBatch k)
    end.

(** The flush that is inside one of its bulk writes when the last executor of
    the job returns and the background tasks are cancelled, if there is one. *)
Definition flush_at_cleanup (base : Z) (env : job_processor.Env) (job : BatchJob.t) (db : DB)
    : option RequestCache.Flushing :=
  let db := batch_job_curd.update_job_status (BatchJob.id job) JobStatus.PROCESSING
              (Some (job_processor.start_time env)) None db in
  let request_cache :=
    RequestCache.load_requests_for_job (BatchJob.id job) db
      (RequestCache.__init__ (job_processor.cache_clock env)) in
  let tasks :=
    (λ req, request_executor.execute_request base
              (job_processor.executor_env env (BatchRequest.id req)) req job)
    <$> RequestCache.get_pending_requests request_cache in
  (run_tasks (job_processor.schedule env) tasks (request_cache, db) None).2.

(** The backoff sleeps of a run, in order. *)
Definition sleeps (effects : list Effect) : list Z :=
  omap (λ e, match e with Sleep _ seconds => Some seconds | _ => None end) effects.

(** The attempts for which the upstream call was made, in order. *)
Definition calls (effects : list Effect) : list nat :=
  omap (λ e, match e with Call_upstream _ attempt => Some attempt | _ => None end) effects.

Definition is_upstream_error (o : Outcome) : bool :=
  match o with Upstream_error _ _ => true | _ => false end.

(** Every attempt before [k] found the job, failed with an upstream error and
    found the job again before retrying: attempt [k] is reached. *)
Definition retried_until (env : request_executor.Env) (k : nat) : Prop :=
  ∀ j, (j < k)%nat →
    request_executor.job_exists_at_start env j = true
    ∧ is_upstream_error (request_executor.upstream env j) = true
    ∧ request_executor.job_exists_before_retry env j = true.

(** The foreign keys of the schema hold: every request and every error log
    entry belongs to a job of the store, and an entry that names a request
    names one of the store. *)
Definition references_intact (db : DB) : Prop :=
  (∀ r, r ∈ batch_requests db →
        BatchRequest.batch_job_id r ∈ BatchJob.id <$> batch_jobs db)
  ∧ (∀ e, e ∈ error_logs db →
          ErrorLog.batch_job_id e ∈ BatchJob.id <$> batch_jobs db
          ∧ ∀ k, ErrorLog.request_id e = Some k →
                 k ∈ BatchRequest.id <$> batch_requests db).

(** ** Sample data *)

Module sample.

Definition request (id index : Z) : BatchRequest.t :=
  BatchRequest.mk id 7 index RequestStatus.PENDING 0 None 0 0 0 None None.

Definition job : BatchJob.t := BatchJob.mk 7 2 JobStatus.PENDING 0 0 2 3 None None.

Definition db : DB := mkDB [job] [request 1 1; request 2 2] [].

(** A job marked completed while its second request is still pending. *)
Definition db_crashed : DB :=
  mkDB [BatchJob.mk 7 2 JobStatus.COMPLETED 1 0 2 3 None None]
       [BatchRequest.mk 1 7 1 RequestStatus.SUCCESS 0 (Some "{}"%string) 1 1 2 None None;
        request 2 2] [].

(** The upstream answers every call with a rate-limit error; the job is there
    at every check. *)
Definition rate_limited : request_executor.Env :=
  request_executor.mkEnv (λ _, Upstream_error "RateLimitError" "429") (λ _, true) (λ _, true)
    (λ _, "t0"%string) (λ _, "t1"%string).

(** The first call is rate limited; the second raises an exception that is
    not an upstream error. *)
Definition broken : request_executor.Env :=
  request_executor.mkEnv
    (λ attempt, match attempt with
                | O => Upstream_error "RateLimitError" "429"
                | _ => Other_exception "ValueError" "bad"
                end)
    (λ _, true) (λ _, true) (λ _, "t0"%string) (λ _, "t1"%string).

(** A run of the sample job in which every upstream call is rate limited,
    the two executors take turns, the periodic flush comes by once and writes
    its batch while the executors go on, no store operation raises, and the
    job stays in the store. *)
Definition all_rate_limited : job_processor.Env :=
  job_processor.mkEnv "2025-01-01 00:00:00" (Some true) 0 (λ _, rate_limited)
    [Step 0; Step 1; Step 1; Step 0; Flush_start 6; Step 0; Flush_next false; Step 1]
    100 no_raise false
    "2025-01-01 00:01:00" "2025-01-01 00:01:01" no_fault "2025-01-01 00:01:02" false
    job_processor.Left_alone.

(** The same job and upstream, but the executor of the first request runs to
    its end before anything else; the periodic flush then starts to write the
    failed record, the second executor runs to its end meanwhile, and the
    flush is cancelled inside its write, which is not committed. *)
Definition cut_in_write : job_processor.Env :=
  job_processor.mkEnv "2025-01-01 00:00:00" (Some true) 0 (λ _, rate_limited)
    (replicate 14 (Step 0) ++ [Flush_start 6])
    100 no_raise false
    "2025-01-01 00:01:00" "2025-01-01 00:01:01" no_fault "2025-01-01 00:01:02" false
    job_processor.Left_alone.

Definition cache : RequestCache.t :=
  RequestCache.load_requests_for_job 7 db (RequestCache.__init__ 0).

(** The first request has failed once and waits for its retry. *)
Definition cache_retrying : RequestCache.t :=
  RequestCache.update_request_as_failed 1 "t1" 1 RequestStatus.RETRYING cache.

(** The first request has failed for good in memory; the write of the failed
    batch raises. *)
Definition cache_failed : RequestCache.t :=
  RequestCache.update_request_as_failed 1 "t1" 3 RequestStatus.FAILED cache.

(** The first call raises an exception, and the handler cannot write the
    error log: the job row has been deleted during the call. *)
Definition log_refused : request_executor.Env :=
  request_executor.mkEnv (λ _, Log_raised) (λ _, true) (λ _, true)
    (λ _, "t0"%string) (λ _, "t1"%string).


(** The first call is rate limited, the second returns a response with
    usage 3 + 4 tokens; the job is there at every check. *)
Definition recovers : request_executor.Env :=
  request_executor.mkEnv
    (λ attempt, match attempt with
                | O => Upstream_error "RateLimitError" "429"
                | _ => Returned "{}" (Some (3, 4))
                end)
    (λ _, true) (λ _, true) (λ _, "t0"%string) (λ _, "t1"%string).

(** Every call is rate limited, and the job is deleted while the executor
    sleeps after its first attempt. *)
Definition deleted_after_first : request_executor.Env :=
  request_executor.mkEnv (λ _, Upstream_error "RateLimitError" "429")
    (λ attempt, match attempt with O => true | _ => false end) (λ _, true)
    (λ _, "t0"%string) (λ _, "t1"%string).

(** The store of an interrupted run: the first request has succeeded, the
    second is still marked processing. *)
Definition db_stale : DB :=
  mkDB [BatchJob.mk 7 2 JobStatus.PENDING 0 0 2 3 None None]
       [BatchRequest.mk 1 7 1 RequestStatus.SUCCESS 0 (Some "{}"%string) 1 1 2 None None;
        BatchRequest.mk 2 7 2 RequestStatus.PROCESSING 0 None 0 0 0 (Some "t0"%string) None]
       [].

(** The store after a crash in the middle of a run: the job is still marked
    processing and its second request is in flight. *)
Definition db_stuck : DB :=
  mkDB [BatchJob.mk 7 2 JobStatus.PROCESSING 0 0 2 3 None None]
       [BatchRequest.mk 1 7 1 RequestStatus.SUCCESS 0 (Some "{}"%string) 1 1 2 None None;
        BatchRequest.mk 2 7 2 RequestStatus.PROCESSING 0 None 0 0 0 (Some "t0"%string) None]
       [].

End sample.

(** * Properties *)

(** ** Rows under an [UPDATE] *)

Lemma sql_update_lookup {A} (c : A → bool) (set : A → A) (tbl : list A) (i : nat) :
  sql_update c set tbl !! i = (λ row, if c row then set row else row) <$> (tbl !! i).
Proof. unfold sql_update. apply list_lookup_fmap. Qed.


(** ** The cache mutators on an absent id *)

(** C10. A mutator of the request cache called with an id that is not a key of
    the request map returns the cache as it was: the map and the dirty set are
    unchanged, and there is no failure path (the membership test guards every
    access). *)
Theorem mutators_absent_id_noop (c : RequestCache.t) (request_id : Z) :
  RequestCache.requests c !! request_id = None →
  (∀ status start_time,
     RequestCache.update_request_status request_id status start_time c = c)
  ∧ (∀ response_body p_tokens c_tokens end_time,
       RequestCache.update_request_as_success request_id response_body p_tokens c_tokens
         end_time c = c)
  ∧ (∀ end_time new_retry_count final_status,
       RequestCache.update_request_as_failed request_id end_time new_retry_count
         final_status c = c).
Proof.
  intros Hnone.
  unfold RequestCache.update_request_status, RequestCache.update_request_as_success,
    RequestCache.update_request_as_failed.
  rewrite Hnone. done.
Qed.

Lemma mutators_absent_id_noop_witness :
  RequestCache.requests sample.cache !! 5 = None
  ∧ RequestCache.update_request_as_failed 5 "t" 1 RequestStatus.FAILED sample.cache
    = sample.cache.
Proof.
  split; [reflexivity|].
  apply (mutators_absent_id_noop sample.cache 5). reflexivity.
Defined.

(** ** Conditional finalize *)

(** The row a request row becomes under the two statements of the conditional
    finalize. *)
Lemma finalize_incomplete_lookup (job_id max_retries : Z) (now : string) (db : DB) (i : nat) :
  batch_requests
    (batch_requests_curd.finalize_incomplete_requests_for_job job_id max_retries now db) !! i
  = (λ r,
       let r1 :=
         if bool_decide (BatchRequest.batch_job_id r = job_id)
            && non_terminal (BatchRequest.status r)
            && batch_requests_curd.has_usable_response r
            && batch_requests_curd.exhausted_or_empty max_retries r
         then batch_requests_curd.set_status_end RequestStatus.SUCCESS
                (coalesce (BatchRequest.end_time r) now) r
         else r in
       if bool_decide (BatchRequest.batch_job_id r1 = job_id)
          && non_terminal (BatchRequest.status r1)
          && batch_requests_curd.exhausted_or_empty max_retries r1
       then batch_requests_curd.set_status_end RequestStatus.FAILED (Some now) r1
       else r1) <$> (batch_requests db !! i).
Proof.
  unfold batch_requests_curd.finalize_incomplete_requests_for_job, with_requests. simpl.
  rewrite !sql_update_lookup. by destruct (batch_requests db !! i).
Qed.

(** C3. The conditional finalize changes a request row only if the row belongs
    to the job, is still non-terminal, and has either used up its attempts
    ([retry_count >= max_retries]) or an empty response body; such a row is
    marked success when its body is non-empty and its total token count
    positive, and failed otherwise; a non-terminal row with a non-empty body
    and attempts left is not changed. *)
Theorem conditional_finalize_cases
    (job_id max_retries : Z) (now : string) (db : DB) (i : nat) (r : BatchRequest.t) :
  batch_requests db !! i = Some r →
  ∃ r',
    batch_requests
      (job_processor._finalize_incomplete_requests job_id max_retries now db) !! i = Some r'
    ∧ (r' ≠ r →
         BatchRequest.batch_job_id r = job_id
         ∧ non_terminal (BatchRequest.status r) = true
         ∧ (max_retries ≤ BatchRequest.retry_count r
            ∨ not_null_nor_empty (BatchRequest.response_body r) = false))
    ∧ (BatchRequest.batch_job_id r = job_id →
       non_terminal (BatchRequest.status r) = true →
       max_retries ≤ BatchRequest.retry_count r
       ∨ not_null_nor_empty (BatchRequest.response_body r) = false →
       BatchRequest.status r' =
         (if not_null_nor_empty (BatchRequest.response_body r)
             && (0 <? BatchRequest.total_tokens r)
          then RequestStatus.SUCCESS else RequestStatus.FAILED))
    ∧ (non_terminal (BatchRequest.status r) = true →
       not_null_nor_empty (BatchRequest.response_body r) = true →
       BatchRequest.retry_count r < max_retries →
       r' = r).
Proof.
  intros Hr. unfold job_processor._finalize_incomplete_requests.
  rewrite finalize_incomplete_lookup, Hr. simpl.
  eexists; split; [reflexivity|].
  unfold batch_requests_curd.exhausted_or_empty, batch_requests_curd.has_usable_response.
  destruct r as [rid jid idx st rc body pt ct tt stt ent]; simpl.
  destruct (bool_decide_reflect (jid = job_id)) as [Hj|Hj];
    destruct (Z.leb_spec max_retries rc) as [Hrc|Hrc];
    destruct (not_null_nor_empty body) eqn:Hbody;
    destruct (Z.ltb_spec 0 tt) as [Htt|Htt];
    destruct st; simpl; rewrite ?Hbody; simpl;
    repeat match goal with
           | |- context [bool_decide (?a = ?b)] =>
               destruct (bool_decide_reflect (a = b)); simpl
           | |- context [?a <=? ?b] => destruct (Z.leb_spec a b); simpl
           end;
    repeat split; intros; try done; try lia; intuition (try done; try lia).
Qed.

Lemma conditional_finalize_cases_witness :
  ∃ r',
    batch_requests (job_processor._finalize_incomplete_requests 7 3 "now" sample.db) !! 0%nat
    = Some r'
    ∧ BatchRequest.status r' = RequestStatus.FAILED.
Proof.
  destruct (conditional_finalize_cases 7 3 "now" sample.db 0 (sample.request 1 1) eq_refl)
    as (r' & Hr' & _ & Hst & _).
  exists r'. split; [exact Hr'|].
  rewrite Hst; [reflexivity | reflexivity | reflexivity | right; reflexivity].
Defined.

(** ** The recovery sweep *)

Lemma reset_in_flight_idem (r : BatchRequest.t) :
  reset_in_flight (reset_in_flight r) = reset_in_flight r.
Proof. unfold reset_in_flight. by destruct r as [? ? ? [] ? ? ? ? ? ? ?]. Qed.

Lemma reset_in_flight_job (r : BatchRequest.t) :
  BatchRequest.batch_job_id (reset_in_flight r) = BatchRequest.batch_job_id r.
Proof. unfold reset_in_flight. by destruct (in_flight _). Qed.

(** Request rows after the first loop of the sweep over the jobs [jobs]. *)
Lemma recover_loop_requests (jobs : list BatchJob.t) (db : DB) (k : nat) :
  batch_requests (foldl scheduler.recover_one db jobs) !! k
  = (λ r, if bool_decide (BatchRequest.batch_job_id r ∈ BatchJob.id <$> jobs)
          then reset_in_flight r else r) <$> (batch_requests db !! k).
Proof.
  revert db. induction jobs as [|j jobs IH]; intros db.
  - simpl. by destruct (batch_requests db !! k).
  - cbn [foldl]. rewrite IH, fmap_cons. unfold scheduler.recover_one at 1.
    cbn [batch_job_curd.update_job_status with_jobs batch_requests
         batch_requests_curd.reset_processing_requests_for_job with_requests].
    rewrite sql_update_lookup.
    destruct (batch_requests db !! k) as [r|]; [|done]. cbn [fmap option_fmap option_map].
    f_equal.
    destruct (bool_decide_reflect (BatchRequest.batch_job_id r = BatchJob.id j)) as [Hj|Hj];
      cbn [andb].
    + fold (reset_in_flight r).
      rewrite (bool_decide_eq_true_2 (_ ∈ _ :: _)) by (rewrite Hj; left).
      rewrite reset_in_flight_job, reset_in_flight_idem. by case_bool_decide.
    + case_bool_decide as H1; case_bool_decide as H2; try done.
      * destruct H2. by right.
      * apply elem_of_cons in H2 as [?|?]; done.
Qed.

(** Job rows after the first loop of the sweep. *)
Lemma recover_loop_jobs (jobs : list BatchJob.t) (db : DB) (i : nat) :
  batch_jobs (foldl scheduler.recover_one db jobs) !! i
  = (λ j, if bool_decide (BatchJob.id j ∈ BatchJob.id <$> jobs)
          then BatchJob.mk (BatchJob.id j) (BatchJob.total_requests j) JobStatus.PENDING
                 (BatchJob.success_count j) (BatchJob.failed_count j) (BatchJob.concurrency j)
                 (BatchJob.max_retries j) (BatchJob.start_time j) (BatchJob.end_time j)
          else j) <$> (batch_jobs db !! i).
Proof.
  revert db. induction jobs as [|j jobs IH]; intros db.
  - simpl. by destruct (batch_jobs db !! i).
  - cbn [foldl]. rewrite IH, fmap_cons. unfold scheduler.recover_one at 1.
    cbn [batch_job_curd.update_job_status with_jobs batch_jobs
         batch_requests_curd.reset_processing_requests_for_job with_requests].
    rewrite sql_update_lookup.
    destruct (batch_jobs db !! i) as [j0|]; [|done]. cbn [fmap option_fmap option_map].
    f_equal.
    destruct (bool_decide_reflect (BatchJob.id j0 = BatchJob.id j)) as [Hj|Hj].
    + cbn [BatchJob.id truthy]. rewrite (bool_decide_eq_true_2 (_ ∈ _ :: _)) by (rewrite Hj; left).
      by case_bool_decide.
    + case_bool_decide as H1; case_bool_decide as H2; try done.
      * destruct H2. by right.
      * apply elem_of_cons in H2 as [?|?]; done.
Qed.

(** Job rows after the second loop of the sweep. *)
Lemma reset_stats_loop_jobs (jobs : list BatchJob.t) (db : DB) (i : nat) :
  batch_jobs
    (foldl (λ db job, batch_job_curd.reset_job_stats (BatchJob.id job) db) db jobs) !! i
  = (λ j, if bool_decide (BatchJob.id j ∈ BatchJob.id <$> jobs)
          then BatchJob.mk (BatchJob.id j) (BatchJob.total_requests j) (BatchJob.status j)
                 0 0 (BatchJob.concurrency j) (BatchJob.max_retries j) None None
          else j) <$> (batch_jobs db !! i).
Proof.
  revert db. induction jobs as [|j jobs IH]; intros db.
  - simpl. by destruct (batch_jobs db !! i).
  - cbn [foldl]. rewrite IH, fmap_cons.
    cbn [batch_job_curd.reset_job_stats with_jobs batch_jobs].
    rewrite sql_update_lookup.
    destruct (batch_jobs db !! i) as [j0|]; [|done]. cbn [fmap option_fmap option_map].
    f_equal.
    destruct (bool_decide_reflect (BatchJob.id j0 = BatchJob.id j)) as [Hj|Hj].
    + cbn [BatchJob.id]. rewrite (bool_decide_eq_true_2 (_ ∈ _ :: _)) by (rewrite Hj; left).
      by case_bool_decide.
    + case_bool_decide as H1; case_bool_decide as H2; try done.
      * destruct H2. by right.
      * apply elem_of_cons in H2 as [?|?]; done.
Qed.

Lemma reset_stats_loop_requests (jobs : list BatchJob.t) (db : DB) :
  batch_requests
    (foldl (λ db job, batch_job_curd.reset_job_stats (BatchJob.id job) db) db jobs)
  = batch_requests db.
Proof. revert db. induction jobs as [|j jobs IH]; intros db; [done|]. cbn [foldl]. by rewrite IH. Qed.

(** C8. For a job the sweep finds in [processing], or marked [completed]
    while one of its requests is non-terminal: after the sweep the job's
    status is [pending]; each of its request rows that was [processing] or
    [retrying] is [pending] with start and end time cleared, and its other
    request rows are as before; for the completed job the success and failure
    counters are zero. *)
Theorem recovery_sweep_resets (db : DB) (i : nat) (job : BatchJob.t) :
  batch_jobs db !! i = Some job →
  BatchJob.status job = JobStatus.PROCESSING
  ∨ (BatchJob.status job = JobStatus.COMPLETED
     ∧ ∃ r, r ∈ batch_requests db
            ∧ BatchRequest.batch_job_id r = BatchJob.id job
            ∧ non_terminal (BatchRequest.status r) = true) →
  let db' := scheduler.recover_incomplete_jobs db in
  (∃ job', batch_jobs db' !! i = Some job'
           ∧ BatchJob.id job' = BatchJob.id job
           ∧ BatchJob.status job' = JobStatus.PENDING
           ∧ (BatchJob.status job = JobStatus.COMPLETED →
              BatchJob.success_count job' = 0 ∧ BatchJob.failed_count job' = 0))
  ∧ (∀ k r, batch_requests db !! k = Some r →
            BatchRequest.batch_job_id r = BatchJob.id job →
            batch_requests db' !! k
            = Some (if in_flight (BatchRequest.status r)
                    then BatchRequest.mk (BatchRequest.id r) (BatchRequest.batch_job_id r)
                           (BatchRequest.request_index r) RequestStatus.PENDING
                           (BatchRequest.retry_count r) (BatchRequest.response_body r)
                           (BatchRequest.prompt_tokens r) (BatchRequest.completion_tokens r)
                           (BatchRequest.total_tokens r) None None
                    else r)).
Proof.
  intros Hjob Hsel db'. subst db'. unfold scheduler.recover_incomplete_jobs.
  set (stuck := batch_job_curd.get_jobs_by_status JobStatus.PROCESSING db).
  set (incomplete := batch_job_curd.get_incomplete_completed_jobs db).
  assert (Hin : job ∈ batch_jobs db) by (by eapply list_elem_of_lookup_2).
  assert (Hall : BatchJob.id job ∈ BatchJob.id <$> (stuck ++ incomplete)).
  { apply list_elem_of_fmap_2, elem_of_app.
    destruct Hsel as [Hp|[Hc (r & Hr & Hrj & Hnt)]].
    - left. by apply list_elem_of_filter.
    - right. apply list_elem_of_filter. split; [|done]. split; [done|].
      apply existsb_exists. exists r. split; [by apply list_elem_of_In|].
      by rewrite Hnt, bool_decide_eq_true_2. }
  assert (Hinc : BatchJob.status job = JobStatus.COMPLETED →
                 BatchJob.id job ∈ BatchJob.id <$> incomplete).
  { intros Hc. apply list_elem_of_fmap_2.
    destruct Hsel as [Hp|[_ (r & Hr & Hrj & Hnt)]]; [congruence|].
    apply list_elem_of_filter. split; [|done]. split; [done|].
    apply existsb_exists. exists r. split; [by apply list_elem_of_In|].
    by rewrite Hnt, bool_decide_eq_true_2. }
  split.
  - rewrite reset_stats_loop_jobs, recover_loop_jobs, Hjob. cbn [fmap option_fmap option_map].
    rewrite (bool_decide_eq_true_2 _ Hall). cbn [BatchJob.id].
    eexists; split; [reflexivity|].
    case_bool_decide as Hd; cbn; (split; [done|split; [done|]]); intros Hc; [done|].
    destruct Hd; auto.
  - intros k r Hr Hrj.
    rewrite reset_stats_loop_requests, recover_loop_requests, Hr.
    cbn [fmap option_fmap option_map]. rewrite bool_decide_eq_true_2 by (by rewrite Hrj).
    unfold reset_in_flight, batch_requests_curd.set_status_times. by destruct (in_flight _).
Qed.

Lemma recovery_sweep_resets_witness :
  ∃ job', batch_jobs (scheduler.recover_incomplete_jobs sample.db_crashed) !! 0%nat = Some job'
          ∧ BatchJob.status job' = JobStatus.PENDING.
Proof.
  destruct (recovery_sweep_resets sample.db_crashed 0
              (BatchJob.mk 7 2 JobStatus.COMPLETED 1 0 2 3 None None) eq_refl)
    as [(job' & Hjob' & _ & Hst & _) _].
  - right. split; [reflexivity|]. exists (sample.request 2 2).
    split; [apply list_elem_of_In; simpl; auto | split; reflexivity].
  - exists job'. by split.
Defined.

(** ** Unconditional finalize and the terminal status of a job *)


Lemma update_job_status_hit job_id s st en db i row :
  batch_jobs db !! i = Some row →
  BatchJob.id row = job_id →
  batch_jobs (batch_job_curd.update_job_status job_id s st en db) !! i
  = Some (BatchJob.mk (BatchJob.id row) (BatchJob.total_requests row) s
            (BatchJob.success_count row) (BatchJob.failed_count row)
            (BatchJob.concurrency row) (BatchJob.max_retries row)
            (if truthy st then st else BatchJob.start_time row)
            (if truthy en then en else BatchJob.end_time row)).
Proof.
  intros Hrow Hid. unfold batch_job_curd.update_job_status, with_jobs; cbn [batch_jobs].
  rewrite sql_update_lookup, Hrow. cbn [fmap option_fmap option_map].
  by rewrite bool_decide_eq_true_2.
Qed.

Lemma update_job_stats_hit job_id succ fail db i row :
  batch_jobs db !! i = Some row →
  BatchJob.id row = job_id →
  batch_jobs (batch_job_curd.update_job_stats job_id succ fail db) !! i
  = Some (BatchJob.mk (BatchJob.id row) (BatchJob.total_requests row) (BatchJob.status row)
            succ fail (BatchJob.concurrency row) (BatchJob.max_retries row)
            (BatchJob.start_time row) (BatchJob.end_time row)).
Proof.
  intros Hrow Hid. unfold batch_job_curd.update_job_stats, with_jobs; cbn [batch_jobs].
  rewrite sql_update_lookup, Hrow. cbn [fmap option_fmap option_map].
  by rewrite bool_decide_eq_true_2.
Qed.

Lemma update_job_total_requests_hit job_id total db i row :
  batch_jobs db !! i = Some row →
  BatchJob.id row = job_id →
  batch_jobs (batch_job_curd.update_job_total_requests job_id total db) !! i
  = Some (BatchJob.mk (BatchJob.id row) total (BatchJob.status row)
            (BatchJob.success_count row) (BatchJob.failed_count row)
            (BatchJob.concurrency row) (BatchJob.max_retries row)
            (BatchJob.start_time row) (BatchJob.end_time row)).
Proof.
  intros Hrow Hid. unfold batch_job_curd.update_job_total_requests, with_jobs; cbn [batch_jobs].
  rewrite sql_update_lookup, Hrow. cbn [fmap option_fmap option_map].
  by rewrite bool_decide_eq_true_2.
Qed.

(** The job row when the [try] block is left: still a row of the job, whatever
    raised; the request rows are those the forced finalize left, if it ran. *)
Lemma finalize_try_job_row raises job job_details now db i row :
  batch_jobs db !! i = Some row →
  BatchJob.id row = BatchJob.id job →
  ∃ row1,
    batch_jobs (job_processor.finalize_try raises job job_details now db).2 !! i = Some row1
    ∧ BatchJob.id row1 = BatchJob.id job.
Proof.
  intros Hrow Hid. unfold job_processor.finalize_try.
  repeat match goal with
         | |- context [if raises ?op then _ else _] => destruct (raises op)
         | |- context [bool_decide ?P] => destruct (bool_decide P)
         end; cbn [snd];
    (eexists; split;
     [ repeat first [ exact Hrow | exact Hid
                    | eapply update_job_stats_hit
                    | eapply update_job_total_requests_hit
                    | reflexivity ]
     | done ]).
Qed.

(** The locals and the store when nothing raises. *)
Lemma finalize_try_no_fault job job_details now db :
  let db1 :=
    batch_requests_curd.finalize_all_incomplete_requests_for_job (BatchJob.id job) now db in
  let counts := batch_requests_curd.get_status_counts_for_job (BatchJob.id job) db1 in
  let actual := batch_requests_curd.count_requests_for_job (BatchJob.id job) db1 in
  let reported :=
    py_or (BatchJob.total_requests job_details) (BatchJob.total_requests job) in
  job_processor.finalize_try no_fault job job_details now db
  = if bool_decide (reported ≠ actual)
    then (counts.1, counts.2, actual,
          batch_job_curd.update_job_stats (BatchJob.id job) counts.1 counts.2
            (batch_job_curd.update_job_total_requests (BatchJob.id job) actual db1))
    else (counts.1, counts.2, BatchJob.total_requests job_details,
          batch_job_curd.update_job_stats (BatchJob.id job) counts.1 counts.2 db1).
Proof.
  cbn zeta. unfold job_processor.finalize_try, no_fault.
  case_bool_decide; [done|]. unfold py_or at 1. by destruct (_ =? 0) eqn:E; [apply Z.eqb_eq in E; rewrite E|].
Qed.

Lemma finalize_all_jobs job_id now db :
  batch_jobs (batch_requests_curd.finalize_all_incomplete_requests_for_job job_id now db)
  = batch_jobs db.
Proof. done. Qed.

Lemma finalize_try_ext raises1 raises2 job job_details now db :
  (∀ op, raises1 op = raises2 op) →
  job_processor.finalize_try raises1 job job_details now db
  = job_processor.finalize_try raises2 job job_details now db.
Proof. intros Hext. unfold job_processor.finalize_try. by rewrite !Hext. Qed.

(** C1. Whatever raises inside the [try] block, the status written at the end
    of job processing is [completed] exactly when the locals satisfy
    [succ + fail >= total] and [total > 0], or [total = 0], and [failed] in
    every other case.  When nothing raises, [succ] and [fail] are the numbers
    of the job's rows in status success and failed in the final store and are
    the counters written to the job row, and [total] is the stored total,
    replaced by (and rewritten to) the actual number of the job's rows when
    the reported total differs from it. *)
Theorem finalize_sets_terminal_status
    (raises : StoreOp → bool) (job job_details : BatchJob.t) (end_time now : string)
    (db : DB) (i : nat) (row : BatchJob.t) :
  batch_jobs db !! i = Some row →
  BatchJob.id row = BatchJob.id job →
  let locals := job_processor.finalize_try raises job job_details now db in
  let succ := locals.1.1.1 in
  let fail := locals.1.1.2 in
  let total := locals.1.2 in
  let db' := job_processor._finalize_job_processing raises job job_details end_time now db in
  ∃ row',
    batch_jobs db' !! i = Some row'
    ∧ (BatchJob.status row' = JobStatus.COMPLETED
       ↔ (total ≤ succ + fail ∧ 0 < total) ∨ total = 0)
    ∧ (¬ ((total ≤ succ + fail ∧ 0 < total) ∨ total = 0)
       → BatchJob.status row' = JobStatus.FAILED)
    ∧ ((∀ op, raises op = false) →
       let actual := batch_requests_curd.count_requests_for_job (BatchJob.id job) db' in
       let reported :=
         py_or (BatchJob.total_requests job_details) (BatchJob.total_requests job) in
       (succ, fail) = batch_requests_curd.get_status_counts_for_job (BatchJob.id job) db'
       ∧ BatchJob.success_count row' = succ
       ∧ BatchJob.failed_count row' = fail
       ∧ (reported ≠ actual → total = actual ∧ BatchJob.total_requests row' = actual)
       ∧ (reported = actual → total = BatchJob.total_requests job_details)).
Proof.
  intros Hrow Hid. cbn zeta.
  destruct (finalize_try_job_row raises job job_details now db i row Hrow Hid)
    as (row1 & Hrow1 & Hid1).
  unfold job_processor._finalize_job_processing.
  assert (Hdec : ∀ succ fail total,
    job_processor.all_terminal succ fail total = true
    ↔ (total ≤ succ + fail ∧ 0 < total) ∨ total = 0).
  { intros. unfold job_processor.all_terminal.
    rewrite orb_true_iff, andb_true_iff, Z.leb_le, Z.ltb_lt, Z.eqb_eq. done. }
  destruct (job_processor.finalize_try raises job job_details now db)
    as [[[succ fail] total] db1] eqn:Htry.
  cbn [fst snd] in *.
  set (st := if job_processor.all_terminal succ fail total
             then JobStatus.COMPLETED else JobStatus.FAILED).
  assert (Hfin : (if job_processor.all_terminal succ fail total
     then batch_job_curd.update_job_status (BatchJob.id job) JobStatus.COMPLETED None
            (Some end_time) db1
     else batch_job_curd.update_job_status (BatchJob.id job) JobStatus.FAILED None
            (Some end_time) db1)
    = batch_job_curd.update_job_status (BatchJob.id job) st None (Some end_time) db1).
  { subst st. by destruct (job_processor.all_terminal _ _ _). }
  rewrite Hfin. clear Hfin.
  eexists. split; [by apply update_job_status_hit|]. cbn [BatchJob.status].
  split; [|split].
  - rewrite <- Hdec. subst st. by destruct (job_processor.all_terminal _ _ _).
  - rewrite <- Hdec. subst st. by destruct (job_processor.all_terminal _ _ _).
  - intros Hnf. rewrite (finalize_try_ext raises no_fault) in Htry by done.
    rewrite finalize_try_no_fault in Htry. cbn zeta in Htry.
    cbn [BatchJob.success_count BatchJob.failed_count BatchJob.total_requests].
    case_bool_decide as Hne; inversion Htry; subst; clear Htry.
    + erewrite update_job_stats_hit in Hrow1;
        [|by eapply update_job_total_requests_hit|done].
      inversion Hrow1; subst; clear Hrow1. cbn.
      unfold batch_requests_curd.count_requests_for_job,
        batch_requests_curd.get_status_counts_for_job. cbn [batch_requests].
      repeat split; try done; intros; exfalso; eauto.
    + erewrite update_job_stats_hit in Hrow1; [|by rewrite finalize_all_jobs|done].
      inversion Hrow1; subst; clear Hrow1. cbn.
      unfold batch_requests_curd.count_requests_for_job,
        batch_requests_curd.get_status_counts_for_job. cbn [batch_requests].
      repeat split; try done; intros; exfalso; eauto.
Qed.

Lemma finalize_sets_terminal_status_witness :
  ∃ row',
    batch_jobs (job_processor._finalize_job_processing no_fault sample.job sample.job
                  "end" "now" sample.db) !! 0%nat = Some row'
    ∧ BatchJob.status row' = JobStatus.COMPLETED.
Proof.
  destruct (finalize_sets_terminal_status no_fault sample.job sample.job "end" "now"
              sample.db 0 sample.job eq_refl eq_refl) as (row' & Hrow' & Hst & _).
  exists row'. split; [exact Hrow'|]. apply Hst. left. vm_compute. split; [discriminate|reflexivity].
Defined.

(** ** The executor: backoff *)

Lemma backoff_strictly_increasing (base : Z) (k : nat) :
  1 < base → request_executor.backoff base k < request_executor.backoff base (S k).
Proof.
  intros Hbase. unfold request_executor.backoff.
  apply Z.pow_lt_mono_r; lia.
Qed.

Lemma sleeps_cons (e : Effect) (l : list Effect) :
  sleeps (e :: l) = match e with Sleep _ s => [s] | _ => [] end ++ sleeps l.
Proof. by destruct e. Qed.

Lemma calls_cons (e : Effect) (l : list Effect) :
  calls (e :: l) = match e with Call_upstream _ a => [a] | _ => [] end ++ calls l.
Proof. by destruct e. Qed.

(** The sleeps of the loop over the attempts [a, a+1, ...]: the [k]-th one
    follows attempt [a + k]. *)
Lemma attempts_sleeps base env job request_id max_attempts (n a k : nat) (s : Z) :
  sleeps (request_executor.attempts base env job request_id max_attempts (seq a n)) !! k
  = Some s →
  s = request_executor.backoff base (a + k).
Proof.
  revert a k. induction n as [|n IH]; intros a k; cbn [seq request_executor.attempts].
  - done.
  - destruct (request_executor.job_exists_at_start env a); cbn [negb]; [|done].
    destruct (request_executor.upstream env a); rewrite !sleeps_cons; cbn [app]; try done.
    destruct (_ <? _); [|done].
    destruct (request_executor.job_exists_before_retry env a); cbn [negb]; [|done].
    + rewrite !sleeps_cons; cbn [app].
      destruct k as [|k]; cbn [lookup list_lookup].
      * intros [= <-]. by rewrite Nat.add_0_r.
      * intros Hs. apply IH in Hs. by rewrite Nat.add_succ_r.
Qed.

(** With an upstream error at every attempt and the job in place, the loop
    sleeps after every attempt but the last. *)
Lemma attempts_all_errors_sleeps base env job request_id (n a : nat) :
  (∀ k, request_executor.job_exists_at_start env k = true
        ∧ is_upstream_error (request_executor.upstream env k) = true
        ∧ request_executor.job_exists_before_retry env k = true) →
  sleeps (request_executor.attempts base env job request_id (Z.of_nat (a + n)) (seq a n))
  = request_executor.backoff base <$> seq a (n - 1).
Proof.
  intros Henv. revert a. induction n as [|n IH]; intros a; [done|].
  cbn [seq request_executor.attempts].
  destruct (Henv a) as (-> & Herr & ->). cbn [negb].
  destruct (request_executor.upstream env a); try done. rewrite !sleeps_cons; cbn [app].
  destruct (Z.ltb_spec (Z.of_nat a) (Z.of_nat (a + S n) - 1)) as [Hlt|Hge].
  - rewrite !sleeps_cons; cbn [app]. destruct n as [|n]; [lia|].
    replace (a + S (S n))%nat with (S a + S n)%nat by lia. rewrite IH.
    replace (S (S n) - 1)%nat with (S (S n - 1)) by lia. done.
  - assert (n = 0)%nat as -> by lia. done.
Qed.

(** C7. The sleeps an executor takes are, in order, [base^0], [base^1], ...:
    the sleep after the failed attempt [k], before attempt [k + 1], lasts
    [base^k]; for [base > 1] each is strictly longer than the one before; and
    when every attempt fails with an upstream error there is one sleep after
    each attempt but the last. *)
Theorem backoff_schedule
    (base : Z) (env : request_executor.Env) (request : BatchRequest.t) (job : BatchJob.t) :
  (∀ k s,
     sleeps (request_executor.execute_request base env request job) !! k = Some s →
     s = base ^ Z.of_nat k)
  ∧ (1 < base →
     ∀ k, request_executor.backoff base k < request_executor.backoff base (S k))
  ∧ ((∀ k, request_executor.job_exists_at_start env k = true
           ∧ is_upstream_error (request_executor.upstream env k) = true
           ∧ request_executor.job_exists_before_retry env k = true) →
     sleeps (request_executor.execute_request base env request job)
     = (λ k, base ^ Z.of_nat k)
       <$> seq 0 (Z.to_nat (request_executor.max_attempts_of job) - 1)).
Proof.
  split; [|split].
  - intros k s Hs. unfold request_executor.execute_request in Hs.
    by apply attempts_sleeps in Hs.
  - intros Hbase k. by apply backoff_strictly_increasing.
  - intros Henv. unfold request_executor.execute_request.
    set (n := Z.to_nat (request_executor.max_attempts_of job)).
    replace (request_executor.max_attempts_of job) with (Z.of_nat (0 + n)).
    + by rewrite attempts_all_errors_sleeps.
    + subst n. unfold request_executor.max_attempts_of. lia.
Qed.

Lemma backoff_schedule_witness :
  sleeps (request_executor.execute_request 2 sample.rate_limited (sample.request 1 1)
            sample.job) = [1; 2]
  ∧ request_executor.backoff 2 0 < request_executor.backoff 2 1.
Proof.
  destruct (backoff_schedule 2 sample.rate_limited (sample.request 1 1) sample.job)
    as (_ & Hmono & Hall).
  split.
  - rewrite Hall; [reflexivity|]. intros k. repeat split.
  - apply Hmono. lia.
Defined.

(** ** The executor: unexpected exceptions *)

Lemma calls_app (l1 l2 : list Effect) : calls (l1 ++ l2) = calls l1 ++ calls l2.
Proof. apply omap_app. Qed.

(** When the attempts before [k] all end in a retry, the loop gets to attempt
    [k], having made exactly the calls before it. *)
Lemma attempts_reach base env job request_id (n a k : nat) :
  (a ≤ k < a + n)%nat →
  (∀ j, (a ≤ j < k)%nat →
     request_executor.job_exists_at_start env j = true
     ∧ is_upstream_error (request_executor.upstream env j) = true
     ∧ request_executor.job_exists_before_retry env j = true) →
  ∃ before,
    request_executor.attempts base env job request_id (Z.of_nat (a + n)) (seq a n)
    = before
      ++ request_executor.attempts base env job request_id (Z.of_nat (a + n))
           (seq k (a + n - k))
    ∧ calls before = seq a (k - a).
Proof.
  revert a. induction n as [|n IH]; intros a Hk Henv; [lia|].
  destruct (decide (a = k)) as [->|Hne].
  - exists []. split; [|by rewrite Nat.sub_diag].
    by replace (k + S n - k)%nat with (S n) by lia.
  - destruct (Henv a) as (Hex & Herr & Hex'); [lia|].
    destruct (IH (S a)) as (before & Hbefore & Hcalls); [lia|intros; apply Henv; lia|].
    cbn [seq request_executor.attempts]. rewrite Hex, Hex'. cbn [negb].
    destruct (request_executor.upstream env a); try done.
    destruct (Z.ltb_spec (Z.of_nat a) (Z.of_nat (a + S n) - 1)); [|lia].
    replace (a + S n)%nat with (S a + n)%nat by lia. rewrite Hbefore.
    eexists (_ :: _ :: _ :: _ :: _ :: before). split; [reflexivity|].
    rewrite !calls_cons, Hcalls. cbn [app].
    by replace (k - a)%nat with (S (k - S a)) by lia.
Qed.

Lemma flush_updates_requests raises force current_time c db :
  RequestCache.requests (RequestCache.flush_updates raises force current_time c db).1
  = RequestCache.requests c.
Proof.
  unfold RequestCache.flush_updates.
  case_bool_decide; [done|]. destruct (RequestCache.flush_due _ _ _); [|done].
  destruct (RequestCache.sync_to_store _ _ _) as [db' []]; done.
Qed.

(** No effect removes a request from the cache. *)
Lemma perform_present (w : World) (e : Effect) (request_id : Z) :
  is_Some (RequestCache.requests w.1 !! request_id) →
  is_Some (RequestCache.requests (perform w e).1 !! request_id).
Proof.
  intros Hin. destruct e as [i ? ?|i ? ? ? ?|i ? ? ?| | | |]; cbn [perform fst]; try done.
  - unfold RequestCache.update_request_status.
    destruct (RequestCache.requests w.1 !! i) eqn:Hi; [|done].
    cbn. rewrite lookup_insert. by case_decide.
  - unfold RequestCache.update_request_as_success.
    destruct (RequestCache.requests w.1 !! i) eqn:Hi; [|done].
    cbn. rewrite lookup_insert. by case_decide.
  - unfold RequestCache.update_request_as_failed.
    destruct (RequestCache.requests w.1 !! i) eqn:Hi; [|done].
    cbn. rewrite lookup_insert. by case_decide.
  - by rewrite flush_updates_requests.
Qed.

Lemma run_present (effects : list Effect) (w : World) (request_id : Z) :
  is_Some (RequestCache.requests w.1 !! request_id) →
  is_Some (RequestCache.requests (run effects w).1 !! request_id).
Proof.
  revert w. induction effects as [|e effects IH]; intros w Hin; [done|].
  apply IH. by apply perform_present.
Qed.

Lemma run_app (l1 l2 : list Effect) (w : World) : run (l1 ++ l2) w = run l2 (run l1 w).
Proof. apply foldl_app. Qed.

Lemma sleeps_app (l1 l2 : list Effect) : sleeps (l1 ++ l2) = sleeps l1 ++ sleeps l2.
Proof. apply omap_app. Qed.

Lemma mark_status_lookup (w : World) (k : Z) (s : RequestStatus.t) (st : option string)
    (r : BatchRequest.t) :
  RequestCache.requests w.1 !! k = Some r →
  RequestCache.requests (perform w (Mark_status k s st)).1 !! k
  = Some (batch_requests_curd.set_status_times s
            (if truthy st then st else BatchRequest.start_time r) (BatchRequest.end_time r) r).
Proof.
  intros Hr. cbn [perform fst]. unfold RequestCache.update_request_status. rewrite Hr.
  cbn [RequestCache.with_entry RequestCache.requests]. by rewrite lookup_insert_eq.
Qed.

Lemma mark_failed_lookup (w : World) (k : Z) (en : string) (n : Z) (s : RequestStatus.t)
    (r : BatchRequest.t) :
  RequestCache.requests w.1 !! k = Some r →
  RequestCache.requests (perform w (Mark_failed k en n s)).1 !! k
  = Some (BatchRequest.mk (BatchRequest.id r) (BatchRequest.batch_job_id r)
            (BatchRequest.request_index r) s n (BatchRequest.response_body r)
            (BatchRequest.prompt_tokens r) (BatchRequest.completion_tokens r)
            (BatchRequest.total_tokens r) (BatchRequest.start_time r) (Some en)).
Proof.
  intros Hr. cbn [perform fst]. unfold RequestCache.update_request_as_failed. rewrite Hr.
  cbn [RequestCache.with_entry RequestCache.requests]. by rewrite lookup_insert_eq.
Qed.

Lemma mark_success_lookup (w : World) (k : Z) (body : string) (p c : Z) (en : string)
    (r : BatchRequest.t) :
  RequestCache.requests w.1 !! k = Some r →
  RequestCache.requests (perform w (Mark_success k body p c en)).1 !! k
  = Some (BatchRequest.mk (BatchRequest.id r) (BatchRequest.batch_job_id r)
            (BatchRequest.request_index r) RequestStatus.SUCCESS (BatchRequest.retry_count r)
            (Some body) p c (p + c) (BatchRequest.start_time r) (Some en)).
Proof.
  intros Hr. cbn [perform fst]. unfold RequestCache.update_request_as_success. rewrite Hr.
  cbn [RequestCache.with_entry RequestCache.requests]. by rewrite lookup_insert_eq.
Qed.

(** The effects of the attempts before attempt [k], when each of them ends in
    an upstream error and finds the job: one call and one sleep per attempt,
    and the cached record left in [retrying] with [k] failed attempts. *)
Lemma attempts_retries base env job request_id (n a k : nat) :
  (a ≤ k < a + n)%nat →
  (∀ j, (a ≤ j < k)%nat →
     request_executor.job_exists_at_start env j = true
     ∧ is_upstream_error (request_executor.upstream env j) = true
     ∧ request_executor.job_exists_before_retry env j = true) →
  ∃ before,
    request_executor.attempts base env job request_id (Z.of_nat (a + n)) (seq a n)
    = before
      ++ request_executor.attempts base env job request_id (Z.of_nat (a + n))
           (seq k (a + n - k))
    ∧ calls before = seq a (k - a)
    ∧ sleeps before = request_executor.backoff base <$> seq a (k - a)
    ∧ ∀ (w : World) (r : BatchRequest.t),
        RequestCache.requests w.1 !! request_id = Some r →
        ∃ r',
          RequestCache.requests (run before w).1 !! request_id = Some r'
          ∧ r' = if decide (k = a) then r
                 else BatchRequest.mk (BatchRequest.id r) (BatchRequest.batch_job_id r)
                        (BatchRequest.request_index r) RequestStatus.RETRYING (Z.of_nat k)
                        (BatchRequest.response_body r) (BatchRequest.prompt_tokens r)
                        (BatchRequest.completion_tokens r) (BatchRequest.total_tokens r)
                        (BatchRequest.start_time r') (BatchRequest.end_time r').
Proof.
  revert a. induction n as [|n IH]; intros a Hk Henv; [lia|].
  destruct (decide (a = k)) as [->|Hne].
  - exists []. split; [by replace (k + S n - k)%nat with (S n) by lia|].
    rewrite Nat.sub_diag. split; [done|]. split; [done|].
    intros w r Hr. exists r. split; [done|]. by rewrite decide_True.
  - destruct (Henv a) as (Hex & Herr & Hex'); [lia|].
    destruct (IH (S a)) as (before & Hbefore & Hcalls & Hsleeps & Hrun);
      [lia|intros; apply Henv; lia|].
    cbn [seq request_executor.attempts]. rewrite Hex, Hex'. cbn [negb].
    destruct (request_executor.upstream env a); try done.
    destruct (Z.ltb_spec (Z.of_nat a) (Z.of_nat (a + S n) - 1)); [|lia].
    replace (a + S n)%nat with (S a + n)%nat by lia. rewrite Hbefore.
    eexists (_ :: _ :: _ :: _ :: _ :: before). split; [reflexivity|].
    split; [|split].
    + rewrite !calls_cons, Hcalls. cbn [app].
      by replace (k - a)%nat with (S (k - S a)) by lia.
    + rewrite !sleeps_cons, Hsleeps. cbn [app].
      by replace (k - a)%nat with (S (k - S a)) by lia.
    + intros w r Hr. cbn [run foldl].
      pose proof (mark_status_lookup w request_id
                    (if (a =? 0)%nat then RequestStatus.PROCESSING else RequestStatus.RETRYING)
                    (Some (request_executor.start_clock env a)) r Hr) as H1.
      set (w1 := perform w _) in *.
      set (w2 := perform (perform w1 _) _).
      assert (H2 : RequestCache.requests w2.1 !! request_id
                   = RequestCache.requests w1.1 !! request_id) by done.
      rewrite H1 in H2.
      pose proof (mark_failed_lookup w2 request_id (request_executor.end_clock env a)
                    (Z.of_nat a + 1) RequestStatus.RETRYING _ H2) as H3.
      set (w3 := perform w2 _) in *.
      set (w4 := perform w3 _).
      assert (H4 : RequestCache.requests w4.1 !! request_id
                   = RequestCache.requests w3.1 !! request_id) by done.
      rewrite H3 in H4.
      destruct (Hrun w4 _ H4) as (r' & Hr' & Heq).
      exists r'. split; [exact Hr'|].
      rewrite decide_False by lia.
      destruct (decide (k = S a)) as [->|Hk'].
      * rewrite Heq. cbn. f_equal. lia.
      * rewrite Heq at 1. by cbn.
Qed.

(** The executor up to the [try] of attempt [k], which is reached after [k]
    attempts that ended in upstream errors: the effects before it, and the
    two effects that open it. *)
Lemma execute_request_reaches base env (request : BatchRequest.t) (job : BatchJob.t) (k : nat) :
  Z.of_nat k < request_executor.max_attempts_of job →
  retried_until env k →
  request_executor.job_exists_at_start env k = true →
  let request_id := BatchRequest.id request in
  let M := request_executor.max_attempts_of job in
  ∃ before,
    request_executor.execute_request base env request job
    = before
      ++ request_executor.attempts base env job request_id M (seq k (Z.to_nat M - k))
    ∧ (∃ m, (Z.to_nat M - k)%nat = S m)
    ∧ calls before = seq 0 k
    ∧ sleeps before = request_executor.backoff base <$> seq 0 k
    ∧ ∀ (w : World) (r : BatchRequest.t),
        RequestCache.requests w.1 !! request_id = Some r →
        ∃ r',
          RequestCache.requests (run before w).1 !! request_id = Some r'
          ∧ r' = if decide (k = 0%nat) then r
                 else BatchRequest.mk (BatchRequest.id r) (BatchRequest.batch_job_id r)
                        (BatchRequest.request_index r) RequestStatus.RETRYING (Z.of_nat k)
                        (BatchRequest.response_body r) (BatchRequest.prompt_tokens r)
                        (BatchRequest.completion_tokens r) (BatchRequest.total_tokens r)
                        (BatchRequest.start_time r') (BatchRequest.end_time r').
Proof.
  intros Hk Hret Hex request_id M. unfold request_executor.execute_request.
  fold request_id M.
  assert (HM : M = Z.of_nat (0 + Z.to_nat M) ∧ (k < Z.to_nat M)%nat) by lia.
  destruct HM as [HM Hkn].
  destruct (attempts_retries base env job request_id (Z.to_nat M) 0 k)
    as (before & Heq & Hcalls & Hsleeps & Hrun); [lia|intros; apply Hret; lia|].
  rewrite <- HM in Heq. rewrite Nat.sub_0_r, Nat.add_0_l in *.
  exists before. split; [exact Heq|]. split; [exists (Z.to_nat M - S k)%nat; lia|].
  done.
Qed.

(** C9, as stated, fails when the handler of the exception cannot write its
    entry in the error log.  The first attempt of the sample request raises
    an exception that is not an upstream error, and [log_error_to_db], which
    the handler awaits before it marks the request, raises in its turn (the
    job row has been deleted during the call, and the foreign key refuses the
    entry): the executor ends there.  It has not marked the request failed;
    the cached record is left in [processing] with retry count 0. *)
Lemma unlogged_exception_leaves_request_unmarked :
  let effects :=
    request_executor.execute_request 2 sample.log_refused (sample.request 1 1) sample.job in
  effects = [Mark_status 1 RequestStatus.PROCESSING (Some "t0"%string); Call_upstream 1 0]
  ∧ ∃ r,
      RequestCache.requests (run effects (sample.cache, sample.db)).1 !! 1 = Some r
      ∧ BatchRequest.status r = RequestStatus.PROCESSING
      ∧ BatchRequest.status r ≠ RequestStatus.FAILED
      ∧ BatchRequest.retry_count r = 0.
Proof.
  cbn zeta. split; [by vm_compute|].
  exists (BatchRequest.mk 1 7 1 RequestStatus.PROCESSING 0 None 0 0 0 (Some "t0"%string) None).
  split; [by vm_compute|]. done.
Qed.

(** C9, amended.  When attempt [k] is reached and the body of its [try]
    raises an exception that is neither an upstream API error nor a timeout,
    the handler first writes the error log.  Once that write has returned,
    the executor marks the request failed with retry count [k + 1] and
    returns: these are its last effects, whatever the number of attempts
    left, the calls it made are those of the attempts [0..k], and a request
    that is in the cache ends failed with that retry count.  When the write
    of the error log does not return (it raises, or the task is cancelled in
    it), the executor ends in the handler: it makes no further call either,
    but it does not mark the request, whose cached record stays as attempt
    [k] found it but for the status and start time set at the start of the
    attempt. *)
Theorem unexpected_exception_fails_once_logged
    (base : Z) (env : request_executor.Env) (request : BatchRequest.t) (job : BatchJob.t)
    (k : nat) :
  Z.of_nat k < request_executor.max_attempts_of job →
  retried_until env k →
  request_executor.job_exists_at_start env k = true →
  let request_id := BatchRequest.id request in
  let effects := request_executor.execute_request base env request job in
  let opening :=
    [Mark_status request_id
       (if (k =? 0)%nat then RequestStatus.PROCESSING else RequestStatus.RETRYING)
       (Some (request_executor.start_clock env k));
     Call_upstream request_id k] in
  (∀ error_type error_message,
     request_executor.upstream env k = Other_exception error_type error_message →
     (∃ before,
        effects
        = before ++ opening
          ++ [Log_error request_id
                (ErrorLog.mk (BatchJob.id job) (Some request_id) error_type error_message);
              Mark_failed request_id (request_executor.end_clock env k) (Z.of_nat k + 1)
                RequestStatus.FAILED])
     ∧ calls effects = seq 0 (S k)
     ∧ (∀ w, is_Some (RequestCache.requests w.1 !! request_id) →
             ∃ r, RequestCache.requests (run effects w).1 !! request_id = Some r
                  ∧ BatchRequest.status r = RequestStatus.FAILED
                  ∧ BatchRequest.retry_count r = Z.of_nat k + 1))
  ∧ (request_executor.upstream env k = Log_raised
     ∨ (∃ error_type error_message,
          request_executor.upstream env k = Log_cancelled error_type error_message) →
     (∃ before logged,
        effects = before ++ opening ++ logged
        ∧ Forall (λ e, ∃ entry, e = Log_error request_id entry) logged)
     ∧ calls effects = seq 0 (S k)
     ∧ (∀ w r0, RequestCache.requests w.1 !! request_id = Some r0 →
                ∃ r, RequestCache.requests (run effects w).1 !! request_id = Some r
                     ∧ BatchRequest.status r
                       = (if (k =? 0)%nat then RequestStatus.PROCESSING
                          else RequestStatus.RETRYING)
                     ∧ BatchRequest.retry_count r
                       = (if (k =? 0)%nat then BatchRequest.retry_count r0
                          else Z.of_nat k))).
Proof.
  intros Hk Hreach Hex request_id effects opening.
  destruct (execute_request_reaches base env request job k Hk Hreach Hex)
    as (before & Heff & (m & Hm) & Hcalls & _ & Hrun).
  fold request_id effects in Heff, Hrun. rewrite Hm in Heff.
  cbn [seq request_executor.attempts] in Heff. rewrite Hex in Heff. cbn [negb] in Heff.
  assert (Hopen : ∀ w r0,
    RequestCache.requests w.1 !! request_id = Some r0 →
    ∃ r, RequestCache.requests (run (before ++ opening) w).1 !! request_id = Some r
         ∧ BatchRequest.status r
           = (if (k =? 0)%nat then RequestStatus.PROCESSING else RequestStatus.RETRYING)
         ∧ BatchRequest.retry_count r
           = (if (k =? 0)%nat then BatchRequest.retry_count r0 else Z.of_nat k)).
  { intros w r0 Hr0. destruct (Hrun w r0 Hr0) as (r1 & Hr1 & Heq1).
    rewrite run_app. subst opening. cbn [run foldl].
    pose proof (mark_status_lookup (run before w) request_id
                  (if (k =? 0)%nat then RequestStatus.PROCESSING else RequestStatus.RETRYING)
                  (Some (request_executor.start_clock env k)) r1 Hr1) as H1.
    set (w1 := perform (run before w) _) in *.
    change (perform w1 (Call_upstream request_id k)) with w1.
    eexists. split; [exact H1|]. split; [done|].
    cbn [BatchRequest.retry_count batch_requests_curd.set_status_times].
    destruct (decide (k = 0%nat)) as [->|Hk0].
    - by subst r1.
    - rewrite Heq1. cbn [BatchRequest.retry_count].
      destruct (Nat.eqb_spec k 0); [done|done]. }
  split.
  - intros error_type error_message Hout. rewrite Hout in Heff.
    split; [exists before; by rewrite Heff|]. split.
    + rewrite Heff, calls_app, Hcalls, !calls_cons. cbn [app calls omap list_omap].
      by rewrite seq_S.
    + intros w [r0 Hr0]. destruct (Hopen w r0 Hr0) as (r & Hr & _).
      rewrite Heff.
      change (before ++ Mark_status request_id _ _ :: Call_upstream request_id k :: ?l)
        with (before ++ opening ++ l).
      rewrite app_assoc, (run_app (before ++ opening)). cbn [run foldl].
      set (w1 := run (before ++ opening) w) in *.
      change (perform w1 (Log_error request_id _)).1 with w1.1.
      erewrite mark_failed_lookup by exact Hr. by eexists.
  - intros Hout.
    assert (Hlogged : ∃ logged,
      effects = before ++ opening ++ logged
      ∧ Forall (λ e, ∃ entry, e = Log_error request_id entry) logged
      ∧ calls logged = []).
    { destruct Hout as [Hout|(t & m' & Hout)]; rewrite Hout in Heff.
      - exists []. by rewrite Heff.
      - eexists [_]. rewrite Heff. split; [done|]. split; [|done].
        constructor; [by eexists|constructor]. }
    destruct Hlogged as (logged & Heff' & Hlog & Hcl).
    split; [by exists before, logged|]. split.
    + rewrite Heff', !calls_app, Hcalls, Hcl. subst opening.
      rewrite !calls_cons. cbn [app calls omap list_omap].
      rewrite ?app_nil_r. by rewrite seq_S.
    + intros w r0 Hr0. destruct (Hopen w r0 Hr0) as (r & Hr & Hst & Hrc).
      exists r. split; [|done].
      rewrite Heff', app_assoc, (run_app (before ++ opening)).
      revert Hr. generalize (run (before ++ opening) w). clear -Hlog.
      induction Hlog as [|e logged [entry ->] _ IH]; intros w1 Hr.
      * done.
      * cbn [run foldl]. apply IH. done.
Qed.

Lemma unexpected_exception_fails_once_logged_witness :
  calls (request_executor.execute_request 2 sample.broken (sample.request 1 1) sample.job)
  = [0%nat; 1%nat].
Proof.
  destruct (unexpected_exception_fails_once_logged 2 sample.broken (sample.request 1 1)
              sample.job 1) as [Hlogged _].
  - reflexivity.
  - intros j Hj. assert (j = 0%nat) as -> by lia. repeat split.
  - reflexivity.
  - destruct (Hlogged "ValueError"%string "bad"%string) as (_ & Hcalls & _).
    + reflexivity.
    + exact Hcalls.
Defined.

(** ** Bulk writes, row by row *)

Section bulk_write.
Context {U : Type} (key : U → Z) (set : U → BatchRequest.t → BatchRequest.t).
Context (set_id : ∀ u r, BatchRequest.id (set u r) = BatchRequest.id r).
Context (set_idem : ∀ u r, set u (set u r) = set u r).

Lemma executemany_lookup (us : list U) (tbl : list BatchRequest.t) (i : nat) :
  foldl (λ tbl u, sql_update (λ r, bool_decide (BatchRequest.id r = key u)) (set u) tbl)
        tbl us !! i
  = row_fold key set us <$> (tbl !! i).
Proof.
  revert tbl. induction us as [|u us IH]; intros tbl; cbn [foldl].
  - by destruct (tbl !! i).
  - rewrite IH, sql_update_lookup. by destruct (tbl !! i).
Qed.

Lemma row_fold_miss (us : list U) (row : BatchRequest.t) :
  (∀ u, u ∈ us → key u ≠ BatchRequest.id row) → row_fold key set us row = row.
Proof.
  induction us as [|u us IH]; intros Hmiss; [done|]. unfold row_fold. cbn [foldl].
  rewrite bool_decide_eq_false_2.
  - apply IH. intros u' Hu'. apply Hmiss. by right.
  - intros Heq. by apply (Hmiss u); [left|].
Qed.

Lemma row_fold_again (us : list U) (row : BatchRequest.t) (u : U) :
  (∀ u', u' ∈ us → key u' = BatchRequest.id row → u' = u) →
  row_fold key set us (set u row) = set u row.
Proof.
  induction us as [|u0 us IH]; intros Hsame; [done|]. unfold row_fold. cbn [foldl].
  case_bool_decide as Hk.
  - rewrite set_id in Hk. rewrite (Hsame u0), set_idem by (done || by left).
    apply IH. intros u' Hu'. apply Hsame. by right.
  - apply IH. intros u' Hu'. apply Hsame. by right.
Qed.

Lemma row_fold_hit (us : list U) (row : BatchRequest.t) (u : U) :
  (∀ u', u' ∈ us → key u' = BatchRequest.id row → u' = u) →
  u ∈ us → key u = BatchRequest.id row →
  row_fold key set us row = set u row.
Proof.
  induction us as [|u0 us IH]; intros Hsame Hin Hkey; [by apply elem_of_nil in Hin|].
  unfold row_fold. cbn [foldl]. case_bool_decide as Hk.
  - rewrite (Hsame u0) by (done || by left).
    apply row_fold_again. intros u' Hu'. apply Hsame. by right.
  - apply elem_of_cons in Hin as [->|Hin]; [by destruct Hk|].
    apply IH; [|done|done]. intros u' Hu'. apply Hsame. by right.
Qed.

End bulk_write.

(** ** The flush, row by row *)

Lemma requests_to_sync_elem (c : RequestCache.t) (r : BatchRequest.t) :
  keyed_by_id c →
  r ∈ RequestCache.requests_to_sync c ↔ dirty_record c (BatchRequest.id r) = Some r.
Proof.
  intros Hwf. unfold RequestCache.requests_to_sync, dirty_record.
  rewrite list_elem_of_omap. split.
  - intros (k & Hk & Hr). apply elem_of_elements in Hk.
    rewrite (Hwf k r Hr). by rewrite bool_decide_eq_true_2.
  - case_bool_decide as Hk; [|done]. intros Hr.
    exists (BatchRequest.id r). by rewrite elem_of_elements.
Qed.

Lemma dirty_record_id (c : RequestCache.t) (k : Z) (r : BatchRequest.t) :
  keyed_by_id c → dirty_record c k = Some r → BatchRequest.id r = k.
Proof. unfold dirty_record. intros Hwf. case_bool_decide; [apply Hwf|done]. Qed.

Section batch.
Context {U : Type} (key : U → Z) (set : U → BatchRequest.t → BatchRequest.t).
Context (record : BatchRequest.t → U) (sel : RequestStatus.t → bool).
Context (set_id : ∀ u r, BatchRequest.id (set u r) = BatchRequest.id r).
Context (set_idem : ∀ u r, set u (set u r) = set u r).
Context (key_record : ∀ r, key (record r) = BatchRequest.id r).
Context (set_written :
  ∀ r row, sel (BatchRequest.status r) = true → set (record r) row = written r row).

(** The rows after the bulk write of the batch selected by [sel]. *)
Lemma batch_write_lookup (c : RequestCache.t) (tbl : list BatchRequest.t) (i : nat) :
  keyed_by_id c →
  foldl (λ tbl u, sql_update (λ r, bool_decide (BatchRequest.id r = key u)) (set u) tbl) tbl
    (record <$> filter (λ r, sel (BatchRequest.status r) = true)
                       (RequestCache.requests_to_sync c)) !! i
  = flushed_row sel c <$> (tbl !! i).
Proof.
  intros Hwf. rewrite executemany_lookup.
  destruct (tbl !! i) as [row|]; [|done]. cbn [fmap option_fmap option_map]. f_equal.
  assert (Hbatch : ∀ u,
    u ∈ record <$> filter (λ r, sel (BatchRequest.status r) = true)
                          (RequestCache.requests_to_sync c) →
    key u = BatchRequest.id row →
    ∃ r, u = record r ∧ sel (BatchRequest.status r) = true
         ∧ dirty_record c (BatchRequest.id row) = Some r).
  { intros u Hu Hk. apply list_elem_of_fmap in Hu as (r & -> & Hr).
    apply list_elem_of_filter in Hr as [Hsel Hr].
    apply requests_to_sync_elem in Hr; [|done].
    rewrite key_record in Hk. rewrite Hk in Hr. eauto. }
  unfold flushed_row. destruct (dirty_record c (BatchRequest.id row)) as [r|] eqn:Hd.
  - destruct (sel (BatchRequest.status r)) eqn:Hsel.
    + rewrite <- set_written by done. apply row_fold_hit; [done|done| | |].
      * intros u Hu Hk. destruct (Hbatch u Hu Hk) as (r' & -> & _ & [= ->]). done.
      * apply list_elem_of_fmap_2, list_elem_of_filter. split; [done|].
        apply requests_to_sync_elem; [done|].
        by rewrite (dirty_record_id c _ r Hwf Hd).
      * rewrite key_record. by apply (dirty_record_id c).
    + apply row_fold_miss. intros u Hu Hk.
      destruct (Hbatch u Hu Hk) as (r' & _ & Hsel' & [= ->]). congruence.
  - apply row_fold_miss. intros u Hu Hk.
    by destruct (Hbatch u Hu Hk) as (r' & _ & _ & ?).
Qed.

End batch.

Lemma success_write_lookup (c : RequestCache.t) (db : DB) (i : nat) :
  keyed_by_id c →
  batch_requests
    (RequestCache._batch_update_success_requests
       (RequestCache.success_requests (RequestCache.requests_to_sync c)) db) !! i
  = flushed_row is_success c <$> (batch_requests db !! i).
Proof.
  intros Hwf.
  unfold RequestCache._batch_update_success_requests, RequestCache.success_requests,
    batch_requests_curd.bulk_update_request_success, with_requests. cbn [batch_requests].
  rewrite (list_filter_iff _ (λ r, is_success (BatchRequest.status r) = true)).
  - apply (batch_write_lookup batch_requests_curd.ok_request_id
            (λ u r, BatchRequest.mk (BatchRequest.id r) (BatchRequest.batch_job_id r)
               (BatchRequest.request_index r) RequestStatus.SUCCESS
               (BatchRequest.retry_count r)
               (batch_requests_curd.ok_response_body u)
               (batch_requests_curd.ok_prompt_tokens u)
               (batch_requests_curd.ok_completion_tokens u)
               (batch_requests_curd.ok_prompt_tokens u
                + batch_requests_curd.ok_completion_tokens u)
               (batch_requests_curd.ok_start_time u) (batch_requests_curd.ok_end_time u))
            RequestCache.success_record is_success); try done.
    intros r row Hsel. apply bool_decide_eq_true_1 in Hsel. unfold written. by rewrite Hsel.
  - intros r. unfold is_success. by rewrite bool_decide_eq_true.
Qed.

Lemma failed_write_lookup (c : RequestCache.t) (db : DB) (i : nat) :
  keyed_by_id c →
  batch_requests
    (RequestCache._batch_update_failed_requests
       (RequestCache.failed_requests (RequestCache.requests_to_sync c)) db) !! i
  = flushed_row is_failed c <$> (batch_requests db !! i).
Proof.
  intros Hwf.
  unfold RequestCache._batch_update_failed_requests, RequestCache.failed_requests,
    batch_requests_curd.bulk_update_request_failure, with_requests. cbn [batch_requests].
  rewrite (list_filter_iff _ (λ r, is_failed (BatchRequest.status r) = true)).
  - apply (batch_write_lookup batch_requests_curd.ko_request_id
            (λ u r, BatchRequest.mk (BatchRequest.id r) (BatchRequest.batch_job_id r)
               (BatchRequest.request_index r) (batch_requests_curd.ko_status u)
               (batch_requests_curd.ko_retry_count u)
               (BatchRequest.response_body r) (BatchRequest.prompt_tokens r)
               (BatchRequest.completion_tokens r) (BatchRequest.total_tokens r)
               (BatchRequest.start_time r) (batch_requests_curd.ko_end_time u))
            RequestCache.failed_record is_failed); try done.
    intros r row Hsel. apply bool_decide_eq_true_1 in Hsel. unfold written.
    rewrite Hsel. cbn. by rewrite Hsel.
  - intros r. unfold is_failed. by rewrite bool_decide_eq_true.
Qed.

Lemma processing_write_lookup (c : RequestCache.t) (db : DB) (i : nat) :
  keyed_by_id c →
  batch_requests
    (RequestCache._batch_update_processing_requests
       (RequestCache.processing_requests (RequestCache.requests_to_sync c)) db) !! i
  = flushed_row in_flight c <$> (batch_requests db !! i).
Proof.
  intros Hwf.
  unfold RequestCache._batch_update_processing_requests, RequestCache.processing_requests,
    batch_requests_curd.bulk_update_request_status, with_requests. cbn [batch_requests].
  apply (batch_write_lookup batch_requests_curd.su_request_id
           (λ u r, batch_requests_curd.set_status_times (batch_requests_curd.su_status u)
                     (batch_requests_curd.su_start_time u) (BatchRequest.end_time r) r)
           RequestCache.processing_record in_flight); try done.
  intros r row Hsel. unfold written, batch_requests_curd.set_status_times. cbn.
  by destruct (BatchRequest.status r).
Qed.

Lemma written_id (r row : BatchRequest.t) :
  BatchRequest.id (written r row) = BatchRequest.id row.
Proof. unfold written. by destruct (BatchRequest.status r). Qed.

Lemma written_idem (r row : BatchRequest.t) : written r (written r row) = written r row.
Proof. unfold written. by destruct (BatchRequest.status r). Qed.

Lemma flushed_row_id sel c row :
  BatchRequest.id (flushed_row sel c row) = BatchRequest.id row.
Proof.
  unfold flushed_row. destruct (dirty_record _ _); [|done].
  destruct (sel _); [apply written_id|done].
Qed.

Lemma flushed_row_compose sel1 sel2 c row :
  flushed_row sel2 c (flushed_row sel1 c row) = flushed_row (λ s, sel1 s || sel2 s) c row.
Proof.
  unfold flushed_row at 1. rewrite flushed_row_id. unfold flushed_row.
  destruct (dirty_record c (BatchRequest.id row)) as [r|]; [|done].
  destruct (sel1 _), (sel2 _); cbn [orb]; try done. apply written_idem.
Qed.

Lemma flushed_row_ext sel1 sel2 c row :
  (∀ s, s ≠ RequestStatus.PENDING → sel1 s = sel2 s) →
  flushed_row sel1 c row = flushed_row sel2 c row.
Proof.
  intros Hext. unfold flushed_row.
  destruct (dirty_record c (BatchRequest.id row)) as [r|]; [|done].
  destruct (decide (BatchRequest.status r = RequestStatus.PENDING)) as [Hp|Hp].
  - unfold written. rewrite Hp. by destruct (sel1 _), (sel2 _).
  - by rewrite (Hext _ Hp).
Qed.

(** A batch without records selects no row. *)
Lemma flushed_row_empty_batch sel c row :
  keyed_by_id c →
  filter (λ r, sel (BatchRequest.status r) = true) (RequestCache.requests_to_sync c) = [] →
  flushed_row sel c row = row.
Proof.
  intros Hwf Hnil. unfold flushed_row.
  destruct (dirty_record c (BatchRequest.id row)) as [r|] eqn:Hd; [|done].
  destruct (sel (BatchRequest.status r)) eqn:Hsel; [|done].
  assert (Hin : r ∈ filter (λ r, sel (BatchRequest.status r) = true)
                      (RequestCache.requests_to_sync c)).
  { apply list_elem_of_filter. split; [done|]. apply requests_to_sync_elem; [done|].
    by rewrite (dirty_record_id c _ r Hwf Hd). }
  rewrite Hnil in Hin. by apply elem_of_nil in Hin.
Qed.

(** One guarded write of the [try]: the rows stay those of a flush of some
    selection of batches, and without a raise the selection grows by the
    batch of this write. *)
Lemma guarded_write_rows
    (raised : bool) (write : list BatchRequest.t → DB → DB) (rs : list BatchRequest.t)
    (selw sel0 : RequestStatus.t → bool) (c : RequestCache.t) (db : DB) (acc : DB * bool) :
  (∀ db' i, batch_requests (write rs db') !! i = flushed_row selw c <$> (batch_requests db' !! i)) →
  (∀ db', same_frame (write rs db') db') →
  (rs = [] → ∀ row, flushed_row selw c row = row) →
  same_frame acc.1 db →
  (∀ i, batch_requests acc.1 !! i = flushed_row sel0 c <$> (batch_requests db !! i)) →
  let acc' := RequestCache.guarded_write raised write rs acc in
  same_frame acc'.1 db
  ∧ ∃ sel',
      (∀ i, batch_requests acc'.1 !! i = flushed_row sel' c <$> (batch_requests db !! i))
      ∧ (acc'.2 = false → acc.2 = false ∧ ∀ s, sel' s = sel0 s || selw s).
Proof.
  intros Hwrite Hframe Hempty Hacc Hrows. cbn zeta. unfold RequestCache.guarded_write.
  destruct acc as [db0 flag]; cbn [fst snd] in *.
  destruct flag; cbn [fst snd].
  { split; [done|]. exists sel0. split; [done|]. done. }
  destruct rs as [|r rs'] eqn:Hrs.
  { split; [done|]. exists (λ s, sel0 s || selw s). split; [|done].
    intros i. rewrite Hrows. destruct (batch_requests db !! i) as [row|]; [|done].
    cbn. f_equal. rewrite <- flushed_row_compose. by rewrite Hempty. }
  destruct raised; cbn [fst snd].
  { split; [done|]. exists sel0. split; [done|]. done. }
  split.
  - destruct (Hframe db0) as [Hj Hl]. destruct Hacc as [Hj' Hl']. split; congruence.
  - exists (λ s, sel0 s || selw s). split; [|done].
    intros i. rewrite Hwrite, Hrows. destruct (batch_requests db !! i) as [row|]; [|done].
    cbn. f_equal. apply flushed_row_compose.
Qed.

Lemma flushed_row_none c row : flushed_row (λ _, false) c row = row.
Proof. unfold flushed_row. by destruct (dirty_record _ _). Qed.

Lemma success_requests_filter rs :
  RequestCache.success_requests rs
  = filter (λ r, is_success (BatchRequest.status r) = true) rs.
Proof.
  apply list_filter_iff. intros r. unfold is_success. by rewrite bool_decide_eq_true.
Qed.

Lemma failed_requests_filter rs :
  RequestCache.failed_requests rs
  = filter (λ r, is_failed (BatchRequest.status r) = true) rs.
Proof.
  apply list_filter_iff. intros r. unfold is_failed. by rewrite bool_decide_eq_true.
Qed.

(** The store when the [try] of a flush is left: the rows are those of a flush
    of some of the batches, of all of them when nothing raised. *)
Lemma sync_to_store_rows (raises : Batch → bool) (c : RequestCache.t) (db : DB) :
  keyed_by_id c →
  let res := RequestCache.sync_to_store raises (RequestCache.requests_to_sync c) db in
  same_frame res.1 db
  ∧ ∃ sel,
      (∀ i, batch_requests res.1 !! i = flushed_row sel c <$> (batch_requests db !! i))
      ∧ (res.2 = false → ∀ s, s ≠ RequestStatus.PENDING → sel s = true).
Proof.
  intros Hwf. cbn zeta. unfold RequestCache.sync_to_store.
  set (rs := RequestCache.requests_to_sync c).
  destruct (guarded_write_rows (raises SuccessBatch)
              RequestCache._batch_update_success_requests (RequestCache.success_requests rs)
              is_success (λ _, false) c db (db, false))
    as (Hf1 & sel1 & Hrows1 & Hflag1).
  { intros. by apply success_write_lookup. }
  { done. }
  { intros Hnil row. apply flushed_row_empty_batch; [done|].
    by rewrite <- success_requests_filter. }
  { done. }
  { intros i. cbn [fst]. destruct (batch_requests db !! i); [|done].
    cbn [fmap option_fmap option_map]. by rewrite flushed_row_none. }
  set (acc1 := RequestCache.guarded_write (raises SuccessBatch) _ _ _) in *.
  destruct (guarded_write_rows (raises FailedBatch)
              RequestCache._batch_update_failed_requests (RequestCache.failed_requests rs)
              is_failed sel1 c db acc1)
    as (Hf2 & sel2 & Hrows2 & Hflag2).
  { intros. by apply failed_write_lookup. }
  { done. }
  { intros Hnil row. apply flushed_row_empty_batch; [done|].
    by rewrite <- failed_requests_filter. }
  { done. }
  { done. }
  set (acc2 := RequestCache.guarded_write (raises FailedBatch) _ _ _) in *.
  destruct (guarded_write_rows (raises ProcessingBatch)
              RequestCache._batch_update_processing_requests
              (RequestCache.processing_requests rs)
              in_flight sel2 c db acc2)
    as (Hf3 & sel3 & Hrows3 & Hflag3).
  { intros. by apply processing_write_lookup. }
  { done. }
  { intros Hnil row. by apply flushed_row_empty_batch. }
  { done. }
  { done. }
  split; [done|]. exists sel3. split; [done|].
  intros Hok s Hs. destruct (Hflag3 Hok) as [Hok2 ->].
  destruct (Hflag2 Hok2) as [Hok1 ->]. destruct (Hflag1 Hok1) as [_ ->].
  unfold is_success, is_failed. by destruct s.
Qed.

Lemma sync_to_store_no_raise (rs : list BatchRequest.t) (db : DB) :
  (RequestCache.sync_to_store no_raise rs db).2 = false.
Proof.
  unfold RequestCache.sync_to_store, RequestCache.guarded_write, no_raise. cbn [snd].
  by destruct (RequestCache.success_requests rs), (RequestCache.failed_requests rs),
    (RequestCache.processing_requests rs).
Qed.

Lemma flushed_row_clean sel c row :
  RequestCache.dirty_request_ids c = ∅ → flushed_row sel c row = row.
Proof.
  intros Hd. unfold flushed_row, dirty_record. rewrite Hd.
  by rewrite bool_decide_eq_false_2 by apply not_elem_of_empty.
Qed.

(** The request rows after a flush that is due and in which nothing raises. *)
Lemma flush_no_raise_rows force current_time (c : RequestCache.t) (db : DB) (i : nat) :
  keyed_by_id c →
  RequestCache.flush_due force current_time c = true →
  batch_requests (RequestCache.flush_updates no_raise force current_time c db).2 !! i
  = flushed_row (λ _, true) c <$> (batch_requests db !! i).
Proof.
  intros Hwf Hdue. unfold RequestCache.flush_updates. case_bool_decide as Hd.
  - cbn [snd]. destruct (batch_requests db !! i); [|done].
    cbn [fmap option_fmap option_map]. by rewrite flushed_row_clean.
  - rewrite Hdue.
    destruct (sync_to_store_rows no_raise c db Hwf) as (_ & sel & Hrows & Hsel).
    pose proof (sync_to_store_no_raise (RequestCache.requests_to_sync c) db) as Hok.
    destruct (RequestCache.sync_to_store no_raise (RequestCache.requests_to_sync c) db)
      as [db' flag]. cbn [fst snd] in *. subst flag. cbn [snd].
    rewrite Hrows. destruct (batch_requests db !! i); [|done].
    cbn [fmap option_fmap option_map]. f_equal.
    apply flushed_row_ext. intros s Hs. by rewrite Hsel.
Qed.

Lemma flush_frame raises force current_time (c : RequestCache.t) (db : DB) :
  keyed_by_id c →
  same_frame (RequestCache.flush_updates raises force current_time c db).2 db.
Proof.
  intros Hwf. unfold RequestCache.flush_updates. case_bool_decide; [done|].
  destruct (RequestCache.flush_due _ _ _); [|done].
  destruct (sync_to_store_rows raises c db Hwf) as (Hf & _).
  destruct (RequestCache.sync_to_store raises (RequestCache.requests_to_sync c) db)
    as [db' []]; done.
Qed.

(** ** A flush that fails *)

Lemma db_eq (db1 db2 : DB) :
  same_frame db1 db2 → batch_requests db1 = batch_requests db2 → db1 = db2.
Proof. destruct db1, db2. intros [Hj Hl] Hr. cbn in *. by subst. Qed.


Lemma mutator_keyed request_id (r r' : BatchRequest.t) (c : RequestCache.t) :
  keyed_by_id c →
  RequestCache.requests c !! request_id = Some r →
  BatchRequest.id r' = BatchRequest.id r →
  keyed_by_id (RequestCache.with_entry request_id r' c).
Proof.
  intros Hwf Hr Hid. unfold keyed_by_id, RequestCache.with_entry. cbn [RequestCache.requests].
  apply map_Forall_insert_2; [|done]. rewrite Hid. by apply (Hwf request_id).
Qed.




(** ** Round trip through the store *)

(** C6, as stated, fails: after loading the sample job, marking its first
    request as retrying with retry count 1 and end time [t1], and a forced
    flush in which nothing raises, the record read back from the store has
    retry count 0 and no end time: the processing batch writes the status and
    the start time only. *)
Lemma roundtrip_loses_retry_count :
  let w := RequestCache.flush_updates no_raise true 10 sample.cache_retrying sample.db in
  RequestCache.dirty_request_ids w.1 = ∅
  ∧ ∃ r r',
      RequestCache.requests w.1 !! 1 = Some r
      ∧ reload 7 w.2 1 = Some r'
      ∧ BatchRequest.retry_count r = 1 ∧ BatchRequest.retry_count r' = 0
      ∧ BatchRequest.end_time r = Some "t1"%string ∧ BatchRequest.end_time r' = None
      ∧ ¬ agree_on_mutated_fields r r'.
Proof.
  cbn zeta. split; [by vm_compute|].
  exists (BatchRequest.mk 1 7 1 RequestStatus.RETRYING 1 None 0 0 0 None (Some "t1"%string)),
         (BatchRequest.mk 1 7 1 RequestStatus.RETRYING 0 None 0 0 0 None None).
  split; [by vm_compute|]. split; [by vm_compute|].
  repeat split. intros (_ & _ & Hend & _). discriminate Hend.
Qed.

Lemma load_fold_other (l : list BatchRequest.t) (m : gmap Z BatchRequest.t) (k : Z) :
  (∀ r, r ∈ l → BatchRequest.id r ≠ k) →
  foldl (λ m r, <[BatchRequest.id r := r]> m) m l !! k = m !! k.
Proof.
  revert m. induction l as [|r l IH]; intros m Hne; [done|]. cbn [foldl].
  rewrite IH by (intros r' Hr'; apply Hne; by right).
  apply lookup_insert_ne. apply Hne. by left.
Qed.

Lemma load_fold_same (l : list BatchRequest.t) (m : gmap Z BatchRequest.t) (k : Z)
    (row : BatchRequest.t) :
  (∀ r, r ∈ l → BatchRequest.id r = k → r = row) →
  m !! k = Some row →
  foldl (λ m r, <[BatchRequest.id r := r]> m) m l !! k = Some row.
Proof.
  revert m. induction l as [|r l IH]; intros m Hsame Hm; [done|]. cbn [foldl].
  apply IH; [intros r' Hr'; apply Hsame; by right|].
  destruct (decide (BatchRequest.id r = k)) as [Hk|Hk].
  - rewrite <- (Hsame r) by (done || by left). rewrite <- Hk. apply lookup_insert_eq.
  - by rewrite lookup_insert_ne.
Qed.

Lemma load_fold_hit (l : list BatchRequest.t) (m : gmap Z BatchRequest.t) (k : Z)
    (row : BatchRequest.t) :
  (∀ r, r ∈ l → BatchRequest.id r = k → r = row) →
  row ∈ l → BatchRequest.id row = k →
  foldl (λ m r, <[BatchRequest.id r := r]> m) m l !! k = Some row.
Proof.
  revert m. induction l as [|r l IH]; intros m Hsame Hin Hk; [by apply elem_of_nil in Hin|].
  cbn [foldl]. destruct (decide (BatchRequest.id r = k)) as [Hrk|Hrk].
  - apply load_fold_same; [intros r' Hr'; apply Hsame; by right|].
    rewrite <- (Hsame r) by (done || by left). rewrite <- Hrk. apply lookup_insert_eq.
  - apply elem_of_cons in Hin as [->|Hin]; [done|].
    apply IH; [intros r' Hr'; apply Hsame; by right|done|done].
Qed.

(** Rows with pairwise distinct ids: a row is determined by its id. *)
Lemma NoDup_id_unique (tbl : list BatchRequest.t) (r1 r2 : BatchRequest.t) :
  NoDup (BatchRequest.id <$> tbl) →
  r1 ∈ tbl → r2 ∈ tbl → BatchRequest.id r1 = BatchRequest.id r2 → r1 = r2.
Proof.
  induction tbl as [|r tbl IH]; [by intros _ ?%elem_of_nil|].
  rewrite fmap_cons, NoDup_cons. intros [Hnotin Hnd] H1 H2 Hid.
  apply elem_of_cons in H1 as [->|H1], H2 as [->|H2]; try done.
  - destruct Hnotin. rewrite Hid. by apply list_elem_of_fmap_2.
  - destruct Hnotin. rewrite <- Hid. by apply list_elem_of_fmap_2.
  - by apply IH.
Qed.

(** What a fresh cache holds for a row of the job, in a table with a primary
    key. *)
Lemma reload_row (job_id : Z) (db : DB) (row : BatchRequest.t) :
  NoDup (BatchRequest.id <$> batch_requests db) →
  row ∈ batch_requests db →
  BatchRequest.batch_job_id row = job_id →
  reload job_id db (BatchRequest.id row) = Some row.
Proof.
  intros Hnd Hin Hjob. unfold reload, RequestCache.load_requests_for_job.
  cbn [RequestCache.requests]. unfold batch_requests_curd.get_requests_for_job.
  apply load_fold_hit; [|by apply list_elem_of_filter|done].
  intros r Hr Hid. apply list_elem_of_filter in Hr as [_ Hr].
  by apply (NoDup_id_unique (batch_requests db)).
Qed.

Lemma load_keyed (job_id : Z) (db : DB) (c : RequestCache.t) :
  keyed_by_id (RequestCache.load_requests_for_job job_id db c).
Proof.
  unfold keyed_by_id, RequestCache.load_requests_for_job. cbn [RequestCache.requests].
  generalize (batch_requests_curd.get_requests_for_job job_id db).
  assert (Hgen : ∀ (l : list BatchRequest.t) (m : gmap Z BatchRequest.t),
    map_Forall (λ k r, BatchRequest.id r = k) m →
    map_Forall (λ k r, BatchRequest.id r = k)
      (foldl (λ m r, <[BatchRequest.id r := r]> m) m l)).
  { induction l as [|r l IH]; intros m Hm; [done|]. cbn [foldl].
    apply IH. by apply map_Forall_insert_2. }
  intros l. apply Hgen. apply map_Forall_empty.
Qed.

Lemma flush_preserves_ids raises force current_time (c : RequestCache.t) (db : DB) :
  keyed_by_id c →
  BatchRequest.id <$> batch_requests (RequestCache.flush_updates raises force current_time c db).2
  = BatchRequest.id <$> batch_requests db.
Proof.
  intros Hwf. unfold RequestCache.flush_updates. case_bool_decide; [done|].
  destruct (RequestCache.flush_due _ _ _); [|done].
  destruct (sync_to_store_rows raises c db Hwf) as (_ & sel & Hrows & _).
  assert (Heq : BatchRequest.id
            <$> batch_requests
                  (RequestCache.sync_to_store raises (RequestCache.requests_to_sync c) db).1
          = BatchRequest.id <$> batch_requests db).
  { apply list_eq. intros i. rewrite !list_lookup_fmap, Hrows.
    destruct (batch_requests db !! i); [|done]. cbn. by rewrite flushed_row_id. }
  by destruct (RequestCache.sync_to_store raises (RequestCache.requests_to_sync c) db)
    as [db' []].
Qed.

(** C6, amended. After a flush that is due and in which no write raises, the
    record read back from the store for a dirty request carries the fields
    that the batch of its in-memory status writes, and keeps the stored
    values of the others: for a success record the status, the response body,
    the prompt and completion token counts with their sum as total, and the
    start and end time (the retry count is not written); for a failed record
    the status, the retry count and the end time (the start time, the response
    body and the token counts are not written); for a processing or retrying
    record the status and the start time (the retry count and the end time are
    not written); a pending record is not written. *)
Theorem flush_writes_batch_fields
    (force : bool) (current_time : Z) (c : RequestCache.t) (db : DB)
    (job_id : Z) (r row : BatchRequest.t) :
  keyed_by_id c →
  NoDup (BatchRequest.id <$> batch_requests db) →
  RequestCache.flush_due force current_time c = true →
  row ∈ batch_requests db →
  BatchRequest.batch_job_id row = job_id →
  BatchRequest.id row ∈ RequestCache.dirty_request_ids c →
  RequestCache.requests c !! BatchRequest.id row = Some r →
  let w := RequestCache.flush_updates no_raise force current_time c db in
  ∃ row',
    reload job_id w.2 (BatchRequest.id row) = Some row'
    ∧ match BatchRequest.status r with
      | RequestStatus.SUCCESS =>
          BatchRequest.status row' = RequestStatus.SUCCESS
          ∧ BatchRequest.response_body row' = BatchRequest.response_body r
          ∧ BatchRequest.prompt_tokens row' = BatchRequest.prompt_tokens r
          ∧ BatchRequest.completion_tokens row' = BatchRequest.completion_tokens r
          ∧ BatchRequest.total_tokens row'
            = BatchRequest.prompt_tokens r + BatchRequest.completion_tokens r
          ∧ BatchRequest.start_time row' = BatchRequest.start_time r
          ∧ BatchRequest.end_time row' = BatchRequest.end_time r
          ∧ BatchRequest.retry_count row' = BatchRequest.retry_count row
      | RequestStatus.FAILED =>
          BatchRequest.status row' = RequestStatus.FAILED
          ∧ BatchRequest.retry_count row' = BatchRequest.retry_count r
          ∧ BatchRequest.end_time row' = BatchRequest.end_time r
          ∧ BatchRequest.start_time row' = BatchRequest.start_time row
          ∧ BatchRequest.response_body row' = BatchRequest.response_body row
          ∧ BatchRequest.prompt_tokens row' = BatchRequest.prompt_tokens row
          ∧ BatchRequest.completion_tokens row' = BatchRequest.completion_tokens row
          ∧ BatchRequest.total_tokens row' = BatchRequest.total_tokens row
      | RequestStatus.PENDING => row' = row
      | s =>
          BatchRequest.status row' = s
          ∧ BatchRequest.start_time row' = BatchRequest.start_time r
          ∧ BatchRequest.retry_count row' = BatchRequest.retry_count row
          ∧ BatchRequest.end_time row' = BatchRequest.end_time row
          ∧ BatchRequest.response_body row' = BatchRequest.response_body row
          ∧ BatchRequest.prompt_tokens row' = BatchRequest.prompt_tokens row
          ∧ BatchRequest.completion_tokens row' = BatchRequest.completion_tokens row
          ∧ BatchRequest.total_tokens row' = BatchRequest.total_tokens row
      end.
Proof.
  intros Hwf Hnd Hdue Hin Hjob Hdirty Hr w.
  apply list_elem_of_lookup in Hin as [i Hi].
  assert (Hrow' : batch_requests w.2 !! i = Some (written r row)).
  { subst w. rewrite flush_no_raise_rows, Hi by done. cbn [fmap option_fmap option_map].
    unfold flushed_row, dirty_record. by rewrite bool_decide_eq_true_2, Hr. }
  exists (written r row). split.
  - rewrite <- (written_id r row). apply reload_row.
    + subst w. by rewrite flush_preserves_ids.
    + by eapply list_elem_of_lookup_2.
    + rewrite <- Hjob. unfold written. by destruct (BatchRequest.status r).
  - unfold written. by destruct (BatchRequest.status r).
Qed.

Lemma flush_writes_batch_fields_witness :
  ∃ row',
    reload 7 (RequestCache.flush_updates no_raise true 10 sample.cache_failed sample.db).2 1
    = Some row'
    ∧ BatchRequest.status row' = RequestStatus.FAILED
    ∧ BatchRequest.retry_count row' = 3.
Proof.
  destruct (flush_writes_batch_fields true 10 sample.cache_failed sample.db 7
              (BatchRequest.mk 1 7 1 RequestStatus.FAILED 3 None 0 0 0 None (Some "t1"%string))
              (sample.request 1 1))
    as (row' & Hrow' & Hst & Hrc & _).
  - apply (bool_decide_unpack _). vm_compute. exact I.
  - apply (bool_decide_unpack _). vm_compute. exact I.
  - reflexivity.
  - apply list_elem_of_In. left. reflexivity.
  - reflexivity.
  - apply (bool_decide_unpack _). vm_compute. exact I.
  - vm_compute. reflexivity.
  - exists row'. repeat split; assumption.
Defined.

(** ** The bound on the retry count *)

Lemma attempts_within base env job request_id max_attempts bound (todo : list nat) :
  (∀ a, a ∈ todo → Z.of_nat a + 1 ≤ bound) →
  Forall (effect_within bound)
         (request_executor.attempts base env job request_id max_attempts todo).
Proof.
  induction todo as [|a todo IH]; intros Hlt; [by constructor|].
  assert (Ha : Z.of_nat a + 1 ≤ bound) by (apply Hlt; by left).
  assert (IH' : Forall (effect_within bound)
    (request_executor.attempts base env job request_id max_attempts todo)).
  { apply IH. intros a' Ha'. apply Hlt. by right. }
  cbn [request_executor.attempts].
  destruct (request_executor.job_exists_at_start env a); cbn [negb]; [|by constructor].
  do 2 (constructor; [done|]).
  destruct (request_executor.upstream env a); repeat (constructor; try done).
  destruct (_ <? _); [|by repeat constructor].
  destruct (request_executor.job_exists_before_retry env a); cbn [negb]; [|by constructor].
  by repeat (constructor; try done).
Qed.

(** The executor only writes retry counts within the attempts of the job. *)
Lemma execute_request_within base env request job :
  Forall (effect_within (request_executor.max_attempts_of job))
         (request_executor.execute_request base env request job).
Proof.
  unfold request_executor.execute_request. apply attempts_within.
  intros a Ha. apply elem_of_seq in Ha. lia.
Qed.

Lemma mutator_within bound request_id (r' : BatchRequest.t) (c : RequestCache.t) :
  cache_within bound c →
  BatchRequest.retry_count r' ≤ bound →
  cache_within bound (RequestCache.with_entry request_id r' c).
Proof.
  intros Hc Hr'. unfold cache_within, RequestCache.with_entry. cbn [RequestCache.requests].
  by apply map_Forall_insert_2.
Qed.

Lemma flush_rows_within raises force current_time job_id bound (c : RequestCache.t) (db : DB) :
  keyed_by_id c → cache_within bound c → rows_within job_id bound db →
  rows_within job_id bound (RequestCache.flush_updates raises force current_time c db).2.
Proof.
  intros Hwf Hc Hdb. unfold RequestCache.flush_updates. case_bool_decide; [done|].
  destruct (RequestCache.flush_due _ _ _); [|done].
  destruct (sync_to_store_rows raises c db Hwf) as (_ & sel & Hrows & _).
  assert (Hgoal : rows_within job_id bound
            (RequestCache.sync_to_store raises (RequestCache.requests_to_sync c) db).1).
  { unfold rows_within in *. rewrite Forall_lookup in Hdb. apply Forall_lookup.
    intros i row' Hi. rewrite Hrows in Hi.
    destruct (batch_requests db !! i) as [row|] eqn:Hrow; [|done].
    injection Hi as <-. specialize (Hdb i row Hrow).
    unfold flushed_row, dirty_record. case_bool_decide; [|done].
    destruct (RequestCache.requests c !! BatchRequest.id row) as [r|] eqn:Hr; [|done].
    destruct (sel _); [|done]. specialize (Hc _ _ Hr). cbn in Hc.
    unfold written. by destruct (BatchRequest.status r). }
  by destruct (RequestCache.sync_to_store raises (RequestCache.requests_to_sync c) db)
    as [db' []].
Qed.

(** Every effect within the bound keeps the cache keyed by id and the retry
    counts of the cache and of the store within the bound. *)
Lemma perform_within job_id bound (e : Effect) (w : World) :
  effect_within bound e →
  keyed_by_id w.1 → cache_within bound w.1 → rows_within job_id bound w.2 →
  keyed_by_id (perform w e).1
  ∧ cache_within bound (perform w e).1
  ∧ rows_within job_id bound (perform w e).2.
Proof.
  intros He Hwf Hc Hdb.
  destruct e as [i s st|i body p ct en|i en n s|i entry|i a|i secs|now raises];
    cbn [perform fst snd effect_within] in *; try done.
  - unfold RequestCache.update_request_status.
    destruct (RequestCache.requests w.1 !! i) as [r|] eqn:Hr; [|done].
    split; [by eapply mutator_keyed|]. split; [|done].
    apply mutator_within; [done|]. apply (Hc _ _ Hr).
  - unfold RequestCache.update_request_as_success.
    destruct (RequestCache.requests w.1 !! i) as [r|] eqn:Hr; [|done].
    split; [by eapply mutator_keyed|]. split; [|done].
    apply mutator_within; [done|]. apply (Hc _ _ Hr).
  - unfold RequestCache.update_request_as_failed.
    destruct (RequestCache.requests w.1 !! i) as [r|] eqn:Hr; [|done].
    split; [by eapply mutator_keyed|]. split; [|done].
    by apply mutator_within.
  - split; [|split].
    + unfold keyed_by_id. by rewrite flush_updates_requests.
    + unfold cache_within. by rewrite flush_updates_requests.
    + by apply flush_rows_within.
Qed.

Lemma run_within job_id bound (effects : list Effect) (w : World) :
  Forall (effect_within bound) effects →
  keyed_by_id w.1 → cache_within bound w.1 → rows_within job_id bound w.2 →
  keyed_by_id (run effects w).1
  ∧ cache_within bound (run effects w).1
  ∧ rows_within job_id bound (run effects w).2.
Proof.
  revert w. induction effects as [|e effects IH]; intros w Heff Hwf Hc Hdb; [done|].
  apply Forall_cons in Heff as [He Heff].
  destruct (perform_within job_id bound e w He Hwf Hc Hdb) as (Hwf' & Hc' & Hdb').
  by apply IH.
Qed.

Lemma sql_update_rows_within job_id bound cond set (db : DB) :
  (∀ r, BatchRequest.batch_job_id (set r) = BatchRequest.batch_job_id r) →
  (∀ r, BatchRequest.retry_count (set r) = BatchRequest.retry_count r
        ∨ BatchRequest.retry_count (set r) ≤ bound) →
  rows_within job_id bound db →
  rows_within job_id bound (with_requests (sql_update cond set) db).
Proof.
  intros Hjob Hrc Hdb. unfold rows_within, with_requests, sql_update in *.
  cbn [batch_requests]. apply Forall_fmap. eapply Forall_impl; [exact Hdb|].
  intros r Hr. cbn. destruct (cond r); [|done]. rewrite Hjob. intros Hj.
  destruct (Hrc r) as [->|?]; auto.
Qed.

Lemma recover_rows_within job_id bound (db : DB) :
  rows_within job_id bound db →
  rows_within job_id bound (scheduler.recover_incomplete_jobs db).
Proof.
  intros Hdb. unfold scheduler.recover_incomplete_jobs.
  unfold rows_within. rewrite reset_stats_loop_requests.
  generalize (batch_job_curd.get_jobs_by_status JobStatus.PROCESSING db
              ++ batch_job_curd.get_incomplete_completed_jobs db).
  intros jobs. revert db Hdb. induction jobs as [|j jobs IH]; intros db Hdb; [done|].
  cbn [foldl]. apply IH. unfold scheduler.recover_one.
  change (rows_within job_id bound
            (batch_requests_curd.reset_processing_requests_for_job (BatchJob.id j) db)).
  apply sql_update_rows_within; [done| |done]. intros r. by left.
Qed.

(** C4. For a job with an attempt budget of at least 1, the retry count of
    its requests stays at most the budget: the executor only writes retry
    counts within it; in every state a run of such writes and of flushes goes
    through, the cached records and the stored rows are within it; and the
    reset operations, the recovery sweep and the two finalize operations keep
    the stored rows within it. *)
Theorem retry_count_within_budget (job : BatchJob.t) :
  1 ≤ BatchJob.max_retries job →
  let bound := BatchJob.max_retries job in
  let job_id := BatchJob.id job in
  (∀ base env request,
     Forall (effect_within bound) (request_executor.execute_request base env request job))
  ∧ (∀ effects w n,
       Forall (effect_within bound) effects →
       keyed_by_id w.1 → cache_within bound w.1 → rows_within job_id bound w.2 →
       cache_within bound (run (take n effects) w).1
       ∧ rows_within job_id bound (run (take n effects) w).2)
  ∧ (∀ db,
       rows_within job_id bound db →
       rows_within job_id bound
         (batch_requests_curd.reset_processing_requests_for_job job_id db)
       ∧ rows_within job_id bound (batch_requests_curd.reset_failed_requests_for_job job_id db)
       ∧ rows_within job_id bound (batch_requests_curd.reset_all_requests_for_job job_id db)
       ∧ (∀ request_id,
            rows_within job_id bound (batch_requests_curd.reset_single_request request_id db))
       ∧ rows_within job_id bound (scheduler.recover_incomplete_jobs db)
       ∧ (∀ max_retries now,
            rows_within job_id bound
              (batch_requests_curd.finalize_incomplete_requests_for_job job_id max_retries
                 now db))
       ∧ (∀ now,
            rows_within job_id bound
              (batch_requests_curd.finalize_all_incomplete_requests_for_job job_id now db))).
Proof.
  intros Hbudget bound job_id. split; [|split].
  - intros base env request.
    replace bound with (request_executor.max_attempts_of job)
      by (unfold request_executor.max_attempts_of; lia).
    apply execute_request_within.
  - intros effects w n Heff Hwf Hc Hdb.
    destruct (run_within job_id bound (take n effects) w) as (_ & ? & ?); try done.
    by apply Forall_take.
  - intros db Hdb.
    assert (Hkeep : ∀ cond s st en,
      rows_within job_id bound
        (with_requests (sql_update cond (batch_requests_curd.set_status_times s st en)) db)).
    { intros. apply sql_update_rows_within; [done| |done]. intros r. by left. }
    assert (Hreset : ∀ cond,
      rows_within job_id bound
        (with_requests (sql_update cond batch_requests_curd.set_reset) db)).
    { intros. apply sql_update_rows_within; [done| |done]. intros r. right. cbn. lia. }
    split; [apply Hkeep|]. split; [apply Hreset|]. split; [apply Hreset|].
    split; [intros; apply Hreset|]. split; [by apply recover_rows_within|]. split.
    + intros max_retries now.
      unfold batch_requests_curd.finalize_incomplete_requests_for_job.
      apply sql_update_rows_within; [done|by left|].
      apply sql_update_rows_within; [done|by left|done].
    + intros now. unfold batch_requests_curd.finalize_all_incomplete_requests_for_job.
      apply sql_update_rows_within; [done|by left|].
      apply sql_update_rows_within; [done|by left|done].
Qed.

Lemma retry_count_within_budget_witness :
  Forall (effect_within 3)
    (request_executor.execute_request 2 sample.rate_limited (sample.request 1 1) sample.job).
Proof.
  destruct (retry_count_within_budget sample.job) as (Hexec & _).
  - simpl. lia.
  - apply Hexec.
Defined.

(** ** A job whose upstream calls are all rate limited *)

(** C2, as stated, fails on the sample job (two requests, three attempts):
    with a rate-limit error at every attempt both requests end failed with
    retry count 3, but the job ends [completed], not [failed], since the
    failed requests are terminal and make up the total. *)
Lemma rate_limited_job_ends_completed :
  ∃ db',
    job_processor.process_job settings.RETRY_BACKOFF_BASE sample.all_rate_limited
      sample.job sample.db = job_processor.Returns db'
    ∧ Forall (λ r, BatchRequest.status r = RequestStatus.FAILED
                   ∧ BatchRequest.retry_count r = request_executor.max_attempts_of sample.job)
             (batch_requests db')
    ∧ ∃ j, batch_jobs db' = [j]
           ∧ BatchJob.status j = JobStatus.COMPLETED
           ∧ BatchJob.status j ≠ JobStatus.FAILED.
Proof.
  eexists. split; [vm_compute; reflexivity|]. split.
  - repeat constructor.
  - eexists. split; [reflexivity|]. by split.
Qed.

(** *** The effects about one request *)

Lemma attempts_target base env job request_id max_attempts (todo : list nat) :
  Forall (λ e, target e = Some request_id)
         (request_executor.attempts base env job request_id max_attempts todo).
Proof.
  induction todo as [|a todo IH]; [by constructor|]. cbn [request_executor.attempts].
  destruct (request_executor.job_exists_at_start env a); cbn [negb]; [|by constructor].
  do 2 (constructor; [done|]).
  destruct (request_executor.upstream env a); repeat (constructor; try done).
  destruct (_ <? _); [|by repeat constructor].
  destruct (request_executor.job_exists_before_retry env a); cbn [negb]; [|by constructor].
  by repeat (constructor; try done).
Qed.

Lemma about_all (k : Z) (effects : list Effect) :
  Forall (λ e, target e = Some k) effects → about k effects = effects.
Proof.
  unfold about. induction 1 as [|e effects He _ IH]; [done|].
  by rewrite filter_cons_True, IH.
Qed.

Lemma about_none (k : Z) (effects : list Effect) :
  Forall (λ e, target e ≠ Some k) effects → about k effects = [].
Proof.
  unfold about. induction 1 as [|e effects He _ IH]; [done|].
  by rewrite filter_cons_False.
Qed.

Lemma about_concat_none (k : Z) (tasks : list (list Effect)) :
  Forall (Forall (λ e, target e ≠ Some k)) tasks → about k (concat tasks) = [].
Proof.
  induction 1 as [|t tasks Ht _ IH]; [done|]. cbn [concat]. unfold about in *.
  rewrite filter_app, IH, app_nil_r. by apply about_none.
Qed.

(** The effects about one request in the tasks of which at most the task
    [i0] is about the request: those of that task. *)
Lemma about_concat_one (k : Z) (i0 : nat) (tasks : list (list Effect)) :
  (∀ i t, tasks !! i = Some t → i ≠ i0 → Forall (λ e, target e ≠ Some k) t) →
  about k (concat tasks) = about k (default [] (tasks !! i0)).
Proof.
  revert i0. induction tasks as [|t tasks IH]; intros i0 Hothers; [done|].
  cbn [concat]. unfold about. rewrite filter_app. fold (about k t) (about k (concat tasks)).
  destruct i0 as [|i0]; cbn [lookup list_lookup default].
  - rewrite about_concat_none, app_nil_r; [done|].
    apply Forall_lookup. intros i t' Ht'. by apply (Hothers (S i)).
  - rewrite (about_none k t) by (by apply (Hothers 0%nat)).
    apply IH. intros i t' Ht' Hi. apply (Hothers (S i)); [done|lia].
Qed.

Lemma perform_lookup_other (w : World) (e : Effect) (k : Z) :
  target e ≠ Some k →
  RequestCache.requests (perform w e).1 !! k = RequestCache.requests w.1 !! k.
Proof.
  intros Hk.
  destruct e as [i s st|i body p ct en|i en n s|i entry|i a|i secs|now raises];
    cbn [perform fst target] in *; try done.
  - unfold RequestCache.update_request_status.
    destruct (RequestCache.requests w.1 !! i); [|done].
    cbn. apply lookup_insert_ne. congruence.
  - unfold RequestCache.update_request_as_success.
    destruct (RequestCache.requests w.1 !! i); [|done].
    cbn. apply lookup_insert_ne. congruence.
  - unfold RequestCache.update_request_as_failed.
    destruct (RequestCache.requests w.1 !! i); [|done].
    cbn. apply lookup_insert_ne. congruence.
  - by rewrite flush_updates_requests.
Qed.

Lemma perform_lookup_congr (w w' : World) (e : Effect) (k : Z) :
  target e = Some k →
  RequestCache.requests w.1 !! k = RequestCache.requests w'.1 !! k →
  RequestCache.requests (perform w e).1 !! k = RequestCache.requests (perform w' e).1 !! k.
Proof.
  intros Hk Heq.
  destruct e as [i s st|i body p ct en|i en n s|i entry|i a|i secs|now raises];
    cbn [perform fst target] in *; try done; injection Hk as ->.
  - unfold RequestCache.update_request_status. rewrite <- Heq.
    destruct (RequestCache.requests w.1 !! k) eqn:Hw; [|congruence].
    cbn. by rewrite !lookup_insert_eq.
  - unfold RequestCache.update_request_as_success. rewrite <- Heq.
    destruct (RequestCache.requests w.1 !! k) eqn:Hw; [|congruence].
    cbn. by rewrite !lookup_insert_eq.
  - unfold RequestCache.update_request_as_failed. rewrite <- Heq.
    destruct (RequestCache.requests w.1 !! k) eqn:Hw; [|congruence].
    cbn. by rewrite !lookup_insert_eq.
Qed.

(** The cached record of a request after a run is the one the effects about
    the request produce. *)
Lemma run_about (effects : list Effect) (w w' : World) (k : Z) :
  RequestCache.requests w.1 !! k = RequestCache.requests w'.1 !! k →
  RequestCache.requests (run effects w).1 !! k
  = RequestCache.requests (run (about k effects) w').1 !! k.
Proof.
  revert w w'. induction effects as [|e effects IH]; intros w w' Heq; [done|].
  unfold about. rewrite filter_cons. fold (about k effects).
  destruct (decide (target e = Some k)) as [Hk|Hk].
  - cbn [run foldl]. apply IH. by apply perform_lookup_congr.
  - cbn [run foldl]. apply IH. by rewrite perform_lookup_other.
Qed.

(** With an upstream error at every attempt and the job in place, the last
    effect of the loop marks the request failed with the number of attempts
    as retry count. *)
Lemma attempts_all_errors_last base env job request_id (n a : nat) :
  (∀ k, request_executor.job_exists_at_start env k = true
        ∧ is_upstream_error (request_executor.upstream env k) = true
        ∧ request_executor.job_exists_before_retry env k = true) →
  ∃ before end_time,
    request_executor.attempts base env job request_id (Z.of_nat (a + S n)) (seq a (S n))
    = before
      ++ [Mark_failed request_id end_time (Z.of_nat (a + n) + 1) RequestStatus.FAILED].
Proof.
  intros Henv. revert a. induction n as [|n IH]; intros a.
  - cbn [seq request_executor.attempts].
    destruct (Henv a) as (-> & Herr & ->). cbn [negb].
    destruct (request_executor.upstream env a); try done.
    destruct (Z.ltb_spec (Z.of_nat a) (Z.of_nat (a + 1) - 1)); [lia|].
    rewrite Nat.add_0_r. by eexists [_; _; _], _.
  - destruct (IH (S a)) as (before & end_time & Hrest).
    cbn [seq request_executor.attempts] in *.
    destruct (Henv a) as (-> & Herr & ->). cbn [negb].
    destruct (request_executor.upstream env a); try done.
    destruct (Z.ltb_spec (Z.of_nat a) (Z.of_nat (a + S (S n)) - 1)); [|lia].
    replace (a + S (S n))%nat with (S a + S n)%nat by lia. rewrite Hrest.
    replace (S a + n)%nat with (a + S n)%nat by lia.
    by eexists (_ :: _ :: _ :: _ :: _ :: before), _.
Qed.

(** The record of a request in the cache after the run of its executor, with
    an upstream error at every attempt. *)
Lemma execute_request_all_errors_record base env request job (w : World) :
  (∀ k, request_executor.job_exists_at_start env k = true
        ∧ is_upstream_error (request_executor.upstream env k) = true
        ∧ request_executor.job_exists_before_retry env k = true) →
  is_Some (RequestCache.requests w.1 !! BatchRequest.id request) →
  ∃ r,
    RequestCache.requests
      (run (request_executor.execute_request base env request job) w).1
      !! BatchRequest.id request = Some r
    ∧ BatchRequest.status r = RequestStatus.FAILED
    ∧ BatchRequest.retry_count r = request_executor.max_attempts_of job.
Proof.
  intros Henv Hin. unfold request_executor.execute_request.
  set (M := request_executor.max_attempts_of job).
  assert (HM : ∃ n, Z.to_nat M = S n ∧ M = Z.of_nat (0 + S n)).
  { exists (Z.to_nat M - 1)%nat. subst M. unfold request_executor.max_attempts_of. lia. }
  destruct HM as (n & -> & HM). rewrite HM.
  destruct (attempts_all_errors_last base env job (BatchRequest.id request) n 0 Henv)
    as (before & end_time & ->).
  rewrite run_app. apply (run_present before) in Hin. destruct Hin as [r0 Hr0].
  cbn [run foldl perform fst]. unfold RequestCache.update_request_as_failed.
  rewrite Hr0. cbn. rewrite lookup_insert_eq. eexists. split; [done|]. cbn. split; [done|lia].
Qed.

(** *** The flush, write by write *)

Lemma flush_begin_requests force current_time (c : RequestCache.t) :
  RequestCache.requests (RequestCache.flush_begin force current_time c).1
  = RequestCache.requests c.
Proof.
  unfold RequestCache.flush_begin. case_bool_decide; [done|].
  destruct (RequestCache.flush_due _ _ _); [|done].
  by destruct (RequestCache.batches _) as [|[b batch] rest].
Qed.

Lemma flush_write_requests raises f (c : RequestCache.t) (db : DB) :
  RequestCache.requests (RequestCache.flush_write raises f c db).1.1
  = RequestCache.requests c.
Proof.
  unfold RequestCache.flush_write. destruct raises; [done|].
  by destruct (RequestCache.to_come f) as [|[b keys] rest].
Qed.

(** The cached record of a request after the tasks have run, whatever the
    scheduling and the flushes: the one its own task produces. *)
Lemma run_tasks_about (k : Z) (i0 : nat) (choices : list Choice)
    (tasks : list (list Effect)) (w w' : World) (flushing : option RequestCache.Flushing) :
  (∀ i t, tasks !! i = Some t → i ≠ i0 → Forall (λ e, target e ≠ Some k) t) →
  RequestCache.requests w.1 !! k = RequestCache.requests w'.1 !! k →
  RequestCache.requests (run_tasks choices tasks w flushing).1.1 !! k
  = RequestCache.requests (run (about k (default [] (tasks !! i0))) w').1 !! k.
Proof.
  revert tasks w w' flushing.
  induction choices as [|[i|now|raises] choices IH]; intros tasks w w' flushing Hothers Heq.
  - cbn [run_tasks fst]. rewrite <- (about_concat_one k i0 tasks Hothers). by apply run_about.
  - cbn [run_tasks]. destruct (tasks !! i) as [[|e rest]|] eqn:Hi; try by apply IH.
    assert (Hothers' : ∀ i' t, <[i:=rest]> tasks !! i' = Some t → i' ≠ i0 →
                               Forall (λ e, target e ≠ Some k) t).
    { intros i' t Ht Hi'. destruct (decide (i = i')) as [<-|Hne].
      - rewrite list_lookup_insert_eq in Ht by (by eapply lookup_lt_Some).
        injection Ht as <-. apply (Hothers i _ Hi) in Hi'. by apply Forall_cons in Hi' as [_ ?].
      - rewrite list_lookup_insert_ne in Ht by done. by apply (Hothers i'). }
    destruct (decide (i = i0)) as [->|Hne].
    + rewrite Hi. cbn [default from_option id]. unfold about. rewrite filter_cons. fold (about k rest).
      destruct (decide (target e = Some k)) as [Hk|Hk].
      * rewrite (IH _ (perform w e) (perform w' e) flushing Hothers').
        -- by rewrite list_lookup_insert_eq by (by eapply lookup_lt_Some).
        -- by apply perform_lookup_congr.
      * rewrite (IH _ (perform w e) w' flushing Hothers').
        -- by rewrite list_lookup_insert_eq by (by eapply lookup_lt_Some).
        -- by rewrite perform_lookup_other.
    + rewrite (IH _ (perform w e) w' flushing Hothers').
      * by rewrite list_lookup_insert_ne.
      * rewrite perform_lookup_other; [done|].
        apply (Hothers i _ Hi) in Hne. by apply Forall_cons in Hne as [? _].
  - cbn [run_tasks]. destruct flushing as [f|]; [by apply IH|].
    pose proof (flush_begin_requests false now w.1) as Hreq.
    destruct (RequestCache.flush_begin false now w.1) as [c flushing].
    apply IH; [done|]. cbn [fst] in *. by rewrite Hreq.
  - cbn [run_tasks]. destruct flushing as [f|]; [|by apply IH].
    pose proof (flush_write_requests raises f w.1 w.2) as Hreq.
    destruct (RequestCache.flush_write raises f w.1 w.2) as [[c db] flushing].
    apply IH; [done|]. cbn [fst] in *. by rewrite Hreq.
Qed.

(** *** One bulk write, row by row *)

Lemma row_fold_id {U} (key : U → Z) (set : U → BatchRequest.t → BatchRequest.t)
    (us : list U) (row : BatchRequest.t) :
  (∀ u r, BatchRequest.id (set u r) = BatchRequest.id r) →
  BatchRequest.id (row_fold key set us row) = BatchRequest.id row.
Proof.
  intros Hid. revert row. induction us as [|u us IH]; intros row; [done|].
  change (BatchRequest.id
            (row_fold key set us
               (if bool_decide (BatchRequest.id row = key u) then set u row else row))
          = BatchRequest.id row).
  rewrite IH. by case_bool_decide.
Qed.

(** The rows after the bulk write of a batch: every row keeps its id; a row
    of which the batch has no record is left as it is; and the write of the
    failed batch gives a row the status and the retry count of its record. *)
Lemma write_batch_rows (b : Batch) (rs : list BatchRequest.t) (db : DB) :
  ∃ g : BatchRequest.t → BatchRequest.t,
    (∀ i, batch_requests (RequestCache.write_batch b rs db) !! i
          = g <$> (batch_requests db !! i))
    ∧ (∀ row, BatchRequest.id (g row) = BatchRequest.id row)
    ∧ (∀ row, (∀ r, r ∈ rs → BatchRequest.id r ≠ BatchRequest.id row) → g row = row)
    ∧ (∀ row r,
         b = FailedBatch → r ∈ rs → BatchRequest.id r = BatchRequest.id row →
         (∀ r', r' ∈ rs → BatchRequest.id r' = BatchRequest.id row → r' = r) →
         BatchRequest.status (g row) = BatchRequest.status r
         ∧ BatchRequest.retry_count (g row) = BatchRequest.retry_count r).
Proof.
  destruct b; cbn [RequestCache.write_batch].
  - exists (row_fold batch_requests_curd.ok_request_id
              (λ u r, BatchRequest.mk (BatchRequest.id r) (BatchRequest.batch_job_id r)
                 (BatchRequest.request_index r) RequestStatus.SUCCESS
                 (BatchRequest.retry_count r)
                 (batch_requests_curd.ok_response_body u)
                 (batch_requests_curd.ok_prompt_tokens u)
                 (batch_requests_curd.ok_completion_tokens u)
                 (batch_requests_curd.ok_prompt_tokens u
                  + batch_requests_curd.ok_completion_tokens u)
                 (batch_requests_curd.ok_start_time u) (batch_requests_curd.ok_end_time u))
              (RequestCache.success_record <$> rs)).
    split; [|split; [|split]].
    + intros i. apply executemany_lookup.
    + intros row. by apply row_fold_id.
    + intros row Hmiss. apply row_fold_miss. intros u Hu.
      apply list_elem_of_fmap in Hu as (r & -> & Hr). by apply Hmiss.
    + done.
  - exists (row_fold batch_requests_curd.ko_request_id
              (λ u r, BatchRequest.mk (BatchRequest.id r) (BatchRequest.batch_job_id r)
                 (BatchRequest.request_index r) (batch_requests_curd.ko_status u)
                 (batch_requests_curd.ko_retry_count u)
                 (BatchRequest.response_body r) (BatchRequest.prompt_tokens r)
                 (BatchRequest.completion_tokens r) (BatchRequest.total_tokens r)
                 (BatchRequest.start_time r) (batch_requests_curd.ko_end_time u))
              (RequestCache.failed_record <$> rs)).
    split; [|split; [|split]].
    + intros i. apply executemany_lookup.
    + intros row. by apply row_fold_id.
    + intros row Hmiss. apply row_fold_miss. intros u Hu.
      apply list_elem_of_fmap in Hu as (r & -> & Hr). by apply Hmiss.
    + intros row r _ Hr Hid Hsame.
      rewrite row_fold_hit with (u := RequestCache.failed_record r);
        [done|done|done| |by apply list_elem_of_fmap_2|done].
      intros u Hu Hk. apply list_elem_of_fmap in Hu as (r' & -> & Hr').
      by rewrite (Hsame r' Hr' Hk).
  - exists (row_fold batch_requests_curd.su_request_id
              (λ u r, batch_requests_curd.set_status_times (batch_requests_curd.su_status u)
                        (batch_requests_curd.su_start_time u) (BatchRequest.end_time r) r)
              (RequestCache.processing_record <$> rs)).
    split; [|split; [|split]].
    + intros i. apply executemany_lookup.
    + intros row. by apply row_fold_id.
    + intros row Hmiss. apply row_fold_miss. intros u Hu.
      apply list_elem_of_fmap in Hu as (r & -> & Hr). by apply Hmiss.
    + done.
Qed.

Lemma write_batch_jobs (b : Batch) (rs : list BatchRequest.t) (db : DB) :
  batch_jobs (RequestCache.write_batch b rs db) = batch_jobs db.
Proof. by destruct b. Qed.

Lemma write_batch_ids (b : Batch) (rs : list BatchRequest.t) (db : DB) :
  BatchRequest.id <$> batch_requests (RequestCache.write_batch b rs db)
  = BatchRequest.id <$> batch_requests db.
Proof.
  destruct (write_batch_rows b rs db) as (g & Hrows & Hid & _).
  apply list_eq. intros i. rewrite !list_lookup_fmap, Hrows.
  destruct (batch_requests db !! i) as [row|]; [|done]. cbn. by rewrite Hid.
Qed.

(** *** The batches of a flush *)

Lemma entries_to_sync_elem (c : RequestCache.t) (k : Z) (r : BatchRequest.t) :
  (k, r) ∈ RequestCache.entries_to_sync c
  ↔ k ∈ RequestCache.dirty_request_ids c ∧ RequestCache.requests c !! k = Some r.
Proof.
  unfold RequestCache.entries_to_sync. rewrite list_elem_of_omap. split.
  - intros (k' & Hk' & Hr). apply elem_of_elements in Hk'.
    destruct (RequestCache.requests c !! k') as [r'|] eqn:Hr'; [|done].
    injection Hr as <- <-. done.
  - intros [Hk Hr]. exists k. rewrite elem_of_elements. split; [done|]. by rewrite Hr.
Qed.

Lemma batch_of_elem (b b' : Batch) (P : RequestStatus.t → Prop) `{!∀ s, Decision (P s)}
    (entries batch : list (Z * BatchRequest.t)) :
  (b', batch) ∈ RequestCache.batch_of b P entries →
  b' = b ∧ ∀ e, e ∈ batch → e ∈ entries ∧ P (BatchRequest.status e.2).
Proof.
  unfold RequestCache.batch_of.
  destruct (filter _ entries) as [|e0 l] eqn:Hf; [by intros ?%elem_of_nil|].
  intros [= -> ->]%list_elem_of_singleton. split; [done|].
  intros e He. rewrite <- Hf in He. apply list_elem_of_filter in He as [? ?]. done.
Qed.

Lemma batch_of_complete (b : Batch) (P : RequestStatus.t → Prop) `{!∀ s, Decision (P s)}
    (entries : list (Z * BatchRequest.t)) (e : Z * BatchRequest.t) :
  e ∈ entries → P (BatchRequest.status e.2) →
  ∃ batch, (b, batch) ∈ RequestCache.batch_of b P entries ∧ e ∈ batch.
Proof.
  intros He HP. unfold RequestCache.batch_of.
  assert (Hin : e ∈ filter (λ e, P (BatchRequest.status e.2)) entries)
    by (by apply list_elem_of_filter).
  destruct (filter _ entries) as [|e0 l]; [by apply elem_of_nil in Hin|].
  eexists. split; [by apply list_elem_of_singleton|done].
Qed.

(** Every entry of a batch is a dirty entry with a status of the batch. *)
Lemma batches_sound (entries batch : list (Z * BatchRequest.t)) (b : Batch) :
  (b, batch) ∈ RequestCache.batches entries →
  ∀ e, e ∈ batch → e ∈ entries ∧ batch_class b (BatchRequest.status e.2).
Proof.
  unfold RequestCache.batches. rewrite !elem_of_app.
  intros [H|[H|H]]; apply batch_of_elem in H as [-> H]; done.
Qed.

(** Every failed dirty entry is in the failed batch. *)
Lemma batches_failed (entries : list (Z * BatchRequest.t)) (e : Z * BatchRequest.t) :
  e ∈ entries → BatchRequest.status e.2 = RequestStatus.FAILED →
  ∃ batch, (FailedBatch, batch) ∈ RequestCache.batches entries ∧ e ∈ batch.
Proof.
  intros He Hst.
  destruct (batch_of_complete FailedBatch (λ s, s = RequestStatus.FAILED) entries e He Hst)
    as (batch & Hb & Hin).
  exists batch. split; [|done]. unfold RequestCache.batches. rewrite !elem_of_app. auto.
Qed.

(** *** What the steps of the scheduler keep *)

(** An effect of an executor marks what it changes dirty and leaves the rows
    of the requests and of the jobs alone. *)
Lemma perform_frame (w : World) (e : Effect) :
  target e ≠ None →
  RequestCache.dirty_request_ids w.1 ⊆ RequestCache.dirty_request_ids (perform w e).1
  ∧ (∀ k, k ∉ RequestCache.dirty_request_ids (perform w e).1 →
          RequestCache.requests (perform w e).1 !! k = RequestCache.requests w.1 !! k)
  ∧ batch_requests (perform w e).2 = batch_requests w.2
  ∧ batch_jobs (perform w e).2 = batch_jobs w.2.
Proof.
  intros Ht.
  assert (Hentry : ∀ i r',
    RequestCache.dirty_request_ids w.1
    ⊆ RequestCache.dirty_request_ids (RequestCache.with_entry i r' w.1)
    ∧ ∀ k, k ∉ RequestCache.dirty_request_ids (RequestCache.with_entry i r' w.1) →
           RequestCache.requests (RequestCache.with_entry i r' w.1) !! k
           = RequestCache.requests w.1 !! k).
  { intros i r'. cbn. split; [apply union_subseteq_r|].
    intros k Hk. apply not_elem_of_union in Hk as [Hk _].
    apply not_elem_of_singleton in Hk. by rewrite lookup_insert_ne. }
  destruct e as [i s st|i body p ct en|i en n s|i entry|i a|i secs|now raises];
    cbn [perform fst snd]; try done.
  - unfold RequestCache.update_request_status.
    destruct (RequestCache.requests w.1 !! i); [|done]. split; [|split]; try done; apply Hentry.
  - unfold RequestCache.update_request_as_success.
    destruct (RequestCache.requests w.1 !! i); [|done]. split; [|split]; try done; apply Hentry.
  - unfold RequestCache.update_request_as_failed.
    destruct (RequestCache.requests w.1 !! i); [|done]. split; [|split]; try done; apply Hentry.
Qed.
Lemma perform_keyed (w : World) (e : Effect) :
  keyed_by_id w.1 → keyed_by_id (perform w e).1.
Proof.
  intros Hwf.
  destruct e as [i s st|i body p ct en|i en n s|i entry|i a|i secs|now raises];
    cbn [perform fst]; try done.
  - unfold RequestCache.update_request_status.
    destruct (RequestCache.requests w.1 !! i) as [r|] eqn:Hr; [|done].
    by eapply mutator_keyed.
  - unfold RequestCache.update_request_as_success.
    destruct (RequestCache.requests w.1 !! i) as [r|] eqn:Hr; [|done].
    by eapply mutator_keyed.
  - unfold RequestCache.update_request_as_failed.
    destruct (RequestCache.requests w.1 !! i) as [r|] eqn:Hr; [|done].
    by eapply mutator_keyed.
  - unfold keyed_by_id. by rewrite flush_updates_requests.
Qed.

Lemma perform_in_step (w : World) (e : Effect) (flushing : option RequestCache.Flushing) :
  target e ≠ None → flush_in_step w flushing → flush_in_step (perform w e) flushing.
Proof.
  intros Ht [Hwf H]. destruct (perform_frame w e Ht) as (Hd & Hclean & Hrows & _).
  assert (Hnd : ∀ k, k ∉ RequestCache.dirty_request_ids (perform w e).1 →
                     k ∉ RequestCache.dirty_request_ids w.1)
    by (intros k Hk Hin; by apply Hk, Hd).
  split; [by apply perform_keyed|]. destruct flushing as [f|].
  - destruct H as (HA & HB & HC). split; [|split].
    + intros r Hr Hk. rewrite Hclean by done. by apply HA, Hnd.
    + intros b k Haw. destruct (HB b k Haw) as [Hin Hcl]. split; [done|].
      intros Hk. rewrite Hclean by done. by apply Hcl, Hnd.
    + intros k r row Hr Hk Hrow Hid Hst. rewrite Hclean in Hr by done.
      rewrite Hrows in Hrow. apply (HC k r row); auto.
  - intros k r row Hr Hk Hrow Hid Hst. rewrite Hclean in Hr by done.
    rewrite Hrows in Hrow. apply (H k r row); auto.
Qed.

Lemma run_in_step (effects : list Effect) (w : World)
    (flushing : option RequestCache.Flushing) :
  Forall (λ e, target e ≠ None) effects →
  flush_in_step w flushing → flush_in_step (run effects w) flushing.
Proof.
  intros Ht. revert w. induction Ht as [|e effects He _ IH]; intros w Hw; [done|].
  change (run (e :: effects) w) with (run effects (perform w e)).
  by apply IH, perform_in_step.
Qed.

(** The start of a flush. *)
Lemma flush_begin_in_step force current_time (w : World) :
  flush_in_step w None →
  flush_in_step ((RequestCache.flush_begin force current_time w.1).1, w.2)
                (RequestCache.flush_begin force current_time w.1).2.
Proof.
  intros [Hwf Hs].
  assert (Hsame : flush_in_step (w.1, w.2) None) by (by split).
  unfold RequestCache.flush_begin. case_bool_decide as Hne; [done|].
  destruct (RequestCache.flush_due _ _ _); [|done].
  assert (Hfailed : ∀ k r,
    RequestCache.requests w.1 !! k = Some r →
    BatchRequest.status r = RequestStatus.FAILED →
    k ∈ RequestCache.dirty_request_ids w.1 →
    ∃ batch, (FailedBatch, batch) ∈ RequestCache.batches (RequestCache.entries_to_sync w.1)
             ∧ (k, r) ∈ batch).
  { intros k r Hr Hst Hk. apply batches_failed; [|done]. by apply entries_to_sync_elem. }
  assert (Hbatch : ∀ b batch k r,
    (b, batch) ∈ RequestCache.batches (RequestCache.entries_to_sync w.1) →
    (k, r) ∈ batch →
    k ∈ elements (RequestCache.dirty_request_ids w.1)
    ∧ RequestCache.requests w.1 !! k = Some r
    ∧ BatchRequest.id r = k
    ∧ batch_class b (BatchRequest.status r)).
  { intros b batch k r Hb Hin.
    destruct (batches_sound _ _ _ Hb _ Hin) as [He Hcl].
    apply entries_to_sync_elem in He as [Hk Hr].
    rewrite elem_of_elements. repeat split; try done. by apply (Hwf k r). }
  destruct (RequestCache.batches _) as [|[b0 batch0] rest] eqn:Hb; cbn [fst snd].
  - split; [done|]. intros k r row Hr _ Hrow Hid Hst. cbn [fst snd] in *.
    destruct (decide (k ∈ RequestCache.dirty_request_ids w.1)) as [Hk|Hk].
    + destruct (Hfailed k r Hr Hst Hk) as (batch & Hin & _). by apply elem_of_nil in Hin.
    + by apply (Hs k r row).
  - split; [done|]. cbn [fst snd RequestCache.under_way RequestCache.to_come
      RequestCache.flushing_dirty_ids RequestCache.with_dirty RequestCache.requests
      RequestCache.dirty_request_ids].
    split; [|split].
    + intros r Hr _. apply list_elem_of_fmap in Hr as ([k r'] & -> & Hin). cbn [snd].
      destruct (Hbatch b0 batch0 k r') as (_ & Hr' & Hid & _); [by left|done|].
      by rewrite Hid.
    + intros b k Haw. unfold awaits_write in Haw.
      cbn [fst snd RequestCache.under_way RequestCache.to_come] in Haw.
      assert (Hin : ∃ batch r, (b, batch) ∈ (b0, batch0) :: rest ∧ (k, r) ∈ batch).
      { destruct Haw as [[<- Hk]|(keys & Hkeys & Hk)].
        - apply list_elem_of_fmap in Hk as (r & -> & Hr).
          apply list_elem_of_fmap in Hr as ([k' r'] & -> & Hin). cbn [snd].
          destruct (Hbatch b0 batch0 k' r') as (_ & _ & -> & _); [by left|done|].
          exists batch0, r'. split; [by left|done].
        - apply list_elem_of_fmap in Hkeys as ([b' batch] & [= -> ->] & Hin).
          apply list_elem_of_fmap in Hk as ([k' r'] & -> & Hin').
          exists batch, r'. split; [by right|done]. }
      destruct Hin as (batch & r & Hin & Hkr).
      destruct (Hbatch b batch k r Hin Hkr) as (Hk & Hr & _ & Hcl).
      split; [done|]. intros _. by exists r.
    + intros k r row Hr _ Hrow Hid Hst.
      destruct (decide (k ∈ RequestCache.dirty_request_ids w.1)) as [Hk|Hk].
      * right. destruct (Hfailed k r Hr Hst Hk) as (batch & Hin & Hkr).
        unfold awaits_write. cbn [fst snd RequestCache.under_way RequestCache.to_come].
        apply elem_of_cons in Hin as [[= <- <-]|Hin].
        -- left. split; [done|].
           destruct (Hbatch FailedBatch batch k r) as (_ & _ & Hidr & _); [by left|done|].
           rewrite <- Hidr. apply list_elem_of_fmap_2.
           by apply (list_elem_of_fmap_2 snd _ (k, r)).
        -- right. exists (batch.*1). split.
           ++ by apply (list_elem_of_fmap_2 (λ b, (b.1, b.2.*1)) _ (FailedBatch, batch)).
           ++ by apply (list_elem_of_fmap_2 fst _ (k, r)).
      * left. by apply (Hs k r row).
Qed.
(** The return of the write under way. *)
Lemma flush_write_in_step raises (f : RequestCache.Flushing) (w : World) :
  flush_in_step w (Some f) →
  flush_in_step ((RequestCache.flush_write raises f w.1 w.2).1.1,
                 (RequestCache.flush_write raises f w.1 w.2).1.2)
                (RequestCache.flush_write raises f w.1 w.2).2.
Proof.
  intros (Hwf & HA & HB & HC). unfold RequestCache.flush_write. destruct raises.
  - cbn [fst snd]. split; [done|]. intros k r row Hr Hk Hrow Hid Hst.
    cbn [fst snd RequestCache.with_dirty RequestCache.requests
         RequestCache.dirty_request_ids] in *.
    apply not_elem_of_union in Hk as [Hk Hids].
    destruct (HC k r row Hr Hk Hrow Hid Hst) as [?|Haw]; [done|].
    destruct (HB FailedBatch k Haw) as [Hin _].
    destruct Hids. by apply elem_of_list_to_set.
  - destruct (RequestCache.under_way f) as [b0 rs0] eqn:Hunder. cbn [fst snd].
    destruct (write_batch_rows b0 rs0 w.2) as (g & Hrows & Hgid & Hmiss & Hhit).
    set (db' := RequestCache.write_batch b0 rs0 w.2) in *.
    assert (HC' : ∀ k r row',
      RequestCache.requests w.1 !! k = Some r →
      k ∉ RequestCache.dirty_request_ids w.1 →
      row' ∈ batch_requests db' →
      BatchRequest.id row' = k →
      BatchRequest.status r = RequestStatus.FAILED →
      (BatchRequest.status row' = RequestStatus.FAILED
       ∧ BatchRequest.retry_count row' = BatchRequest.retry_count r)
      ∨ ∃ keys, (FailedBatch, keys) ∈ RequestCache.to_come f ∧ k ∈ keys).
    { intros k r row' Hr Hk Hrow' Hid Hst.
      apply list_elem_of_lookup in Hrow' as [i Hi]. rewrite Hrows in Hi.
      destruct (batch_requests w.2 !! i) as [row|] eqn:Hrow; [|done].
      injection Hi as <-. rewrite Hgid in Hid.
      assert (Hin : row ∈ batch_requests w.2) by (by eapply list_elem_of_lookup_2).
      assert (Hrecords : ∀ r', r' ∈ rs0 → BatchRequest.id r' = BatchRequest.id row →
                               r' = r ∧ b0 = FailedBatch).
      { intros r' Hr' Hid'. rewrite Hid in Hid'.
        assert (Hsame : r' = r).
        { assert (Hcur : RequestCache.requests w.1 !! BatchRequest.id r' = Some r').
          { apply HA; [by rewrite ?Hunder|by rewrite Hid']. }
          rewrite Hid' in Hcur. congruence. }
        split; [done|]. subst r'.
        destruct (HB b0 k) as [_ Hcl].
        { left. rewrite ?Hunder. split; [done|]. rewrite <- Hid'.
          by apply list_elem_of_fmap_2. }
        destruct (Hcl Hk) as (r2 & Hr2 & Hclass).
        assert (r2 = r) as -> by congruence.
        rewrite Hst in Hclass. by destruct b0. }
      destruct (decide (BatchRequest.id row ∈ BatchRequest.id <$> rs0)) as [Hhas|Hhas].
      - left. apply list_elem_of_fmap in Hhas as (r' & Hid' & Hr').
        destruct (Hrecords r' Hr' (eq_sym Hid')) as [-> ->].
        destruct (Hhit row r eq_refl Hr' (eq_sym Hid')) as [Hs1 Hs2].
        { intros r2 Hr2 Hid2. by destruct (Hrecords r2 Hr2 Hid2). }
        by rewrite Hs1, Hs2.
      - rewrite Hmiss.
        + destruct (HC k r row Hr Hk Hin Hid Hst) as [?|[[_ Hunder']|?]]; [by left| |by right].
          rewrite ?Hunder, <- Hid in Hunder'. done.
        + intros r' Hr' Hid'. apply Hhas. rewrite <- Hid'. by apply list_elem_of_fmap_2. }
    destruct (RequestCache.to_come f) as [|[b1 keys1] rest] eqn:Hcome; cbn [fst snd].
    + split; [done|]. intros k r row' Hr Hk Hrow' Hid Hst.
      cbn [fst snd RequestCache.with_last_flush_time RequestCache.requests
           RequestCache.dirty_request_ids] in *.
      destruct (HC' k r row' Hr Hk Hrow' Hid Hst) as [?|(keys & Hin & _)]; [done|].
      by apply elem_of_nil in Hin.
    + assert (Hnext : ∀ k r, k ∈ keys1 → RequestCache.requests w.1 !! k = Some r →
                             k ∈ BatchRequest.id <$> omap (λ k, RequestCache.requests w.1 !! k) keys1).
      { intros k r Hk Hr. rewrite <- (Hwf k r Hr) at 1. apply list_elem_of_fmap_2.
        apply list_elem_of_omap. by exists k. }
      assert (Hunder' : ∀ r, r ∈ omap (λ k, RequestCache.requests w.1 !! k) keys1 →
                             BatchRequest.id r ∈ keys1
                             ∧ RequestCache.requests w.1 !! BatchRequest.id r = Some r).
      { intros r Hr. apply list_elem_of_omap in Hr as (k & Hk & Hr).
        by rewrite (Hwf k r Hr). }
      split; [done|].
      cbn [fst snd RequestCache.under_way RequestCache.to_come RequestCache.flushing_dirty_ids].
      split; [|split].
      * intros r Hr _. by apply Hunder'.
      * intros b k Haw. apply (HB b k). right. rewrite Hcome. unfold awaits_write in Haw.
        cbn [fst snd RequestCache.under_way RequestCache.to_come] in Haw.
        destruct Haw as [[<- Hk]|(keys & Hkeys & Hk)].
        -- exists keys1. split; [by left|].
           apply list_elem_of_fmap in Hk as (r & -> & Hr). by apply Hunder'.
        -- exists keys. split; [by right|done].
      * intros k r row' Hr Hk Hrow' Hid Hst.
        destruct (HC' k r row' Hr Hk Hrow' Hid Hst) as [?|(keys & Hin & Hkeys)]; [by left|].
        right. unfold awaits_write. cbn [fst snd RequestCache.under_way RequestCache.to_come].
        apply elem_of_cons in Hin as [[= <- <-]|Hin].
        -- left. split; [done|]. by apply (Hnext k r).
        -- right. by exists keys.
Qed.

(** The tasks of a job and its periodic flush keep the cache and the store
    in step, whatever the scheduling. *)
Lemma run_tasks_in_step (choices : list Choice) (tasks : list (list Effect)) (w : World)
    (flushing : option RequestCache.Flushing) :
  Forall (Forall (λ e, target e ≠ None)) tasks →
  flush_in_step w flushing →
  flush_in_step (run_tasks choices tasks w flushing).1 (run_tasks choices tasks w flushing).2.
Proof.
  revert tasks w flushing.
  induction choices as [|[i|now|raises] choices IH]; intros tasks w flushing Htasks Hw.
  - cbn [run_tasks fst snd]. apply run_in_step; [|done]. by apply Forall_concat.
  - cbn [run_tasks]. destruct (tasks !! i) as [[|e rest]|] eqn:Hi; try by apply IH.
    pose proof (Forall_lookup_1 _ _ _ _ Htasks Hi) as Ht.
    apply Forall_cons in Ht as [He Hrest].
    apply IH; [by apply Forall_insert|by apply perform_in_step].
  - cbn [run_tasks]. destruct flushing as [f|]; [by apply IH|].
    pose proof (flush_begin_in_step false now w Hw) as Hb.
    destruct (RequestCache.flush_begin false now w.1) as [c flushing]. by apply IH.
  - cbn [run_tasks]. destruct flushing as [f|]; [|by apply IH].
    pose proof (flush_write_in_step raises f w Hw) as Hb.
    destruct (RequestCache.flush_write raises f w.1 w.2) as [[c db] flushing]. by apply IH.
Qed.

(** The ids of the rows and the jobs are as before. *)
Lemma run_tasks_frame (choices : list Choice) (tasks : list (list Effect)) (w : World)
    (flushing : option RequestCache.Flushing) :
  Forall (Forall (λ e, target e ≠ None)) tasks →
  BatchRequest.id <$> batch_requests (run_tasks choices tasks w flushing).1.2
  = BatchRequest.id <$> batch_requests w.2
  ∧ batch_jobs (run_tasks choices tasks w flushing).1.2 = batch_jobs w.2.
Proof.
  assert (Hrun : ∀ effects w, Forall (λ e, target e ≠ None) effects →
                 batch_requests (run effects w).2 = batch_requests w.2
                 ∧ batch_jobs (run effects w).2 = batch_jobs w.2).
  { intros effects w0 Ht. revert w0. induction Ht as [|e effects He _ IH]; intros w0; [done|].
    change (run (e :: effects) w0) with (run effects (perform w0 e)).
    destruct (IH (perform w0 e)) as [-> ->].
    by destruct (perform_frame w0 e He) as (_ & _ & -> & ->). }
  revert tasks w flushing.
  induction choices as [|[i|now|raises] choices IH]; intros tasks w flushing Htasks.
  - cbn [run_tasks fst snd]. destruct (Hrun (concat tasks) w) as [-> ->]; [|done].
    by apply Forall_concat.
  - cbn [run_tasks]. destruct (tasks !! i) as [[|e rest]|] eqn:Hi; try by apply IH.
    pose proof (Forall_lookup_1 _ _ _ _ Htasks Hi) as Ht.
    apply Forall_cons in Ht as [He Hrest].
    destruct (IH (<[i:=rest]> tasks) (perform w e) flushing) as [-> ->];
      [by apply Forall_insert|].
    by destruct (perform_frame w e He) as (_ & _ & -> & ->).
  - cbn [run_tasks]. destruct flushing as [f|]; [by apply IH|].
    destruct (RequestCache.flush_begin false now w.1) as [c flushing].
    by destruct (IH tasks (c, w.2) flushing Htasks) as [-> ->].
  - cbn [run_tasks]. destruct flushing as [f|]; [|by apply IH].
    assert (Hw : BatchRequest.id
                   <$> batch_requests (RequestCache.flush_write raises f w.1 w.2).1.2
                 = BatchRequest.id <$> batch_requests w.2
                 ∧ batch_jobs (RequestCache.flush_write raises f w.1 w.2).1.2 = batch_jobs w.2).
    { unfold RequestCache.flush_write. destruct raises; [done|].
      destruct (RequestCache.to_come f) as [|[b keys] rest]; cbn [fst snd];
        by rewrite write_batch_ids, write_batch_jobs. }
    destruct (RequestCache.flush_write raises f w.1 w.2) as [[c db] flushing].
    destruct (IH tasks (c, db) flushing Htasks) as [-> ->]. done.
Qed.
(** *** What a freshly loaded cache holds *)

Lemma load_fold_elem (P : BatchRequest.t → Prop) (l : list BatchRequest.t)
    (m : gmap Z BatchRequest.t) :
  map_Forall (λ _ r, P r) m → Forall P l →
  map_Forall (λ _ r, P r) (foldl (λ m r, <[BatchRequest.id r := r]> m) m l).
Proof.
  revert m. induction l as [|r l IH]; intros m Hm Hl; [done|].
  apply Forall_cons in Hl as [Hr Hl]. cbn [foldl]. apply IH; [|done].
  by apply map_Forall_insert_2.
Qed.

Lemma load_lookup_elem (job_id : Z) (db : DB) (c : RequestCache.t) (k : Z)
    (r : BatchRequest.t) :
  RequestCache.requests (RequestCache.load_requests_for_job job_id db c) !! k = Some r →
  r ∈ batch_requests db ∧ BatchRequest.batch_job_id r = job_id.
Proof.
  intros Hr. unfold RequestCache.load_requests_for_job in Hr. cbn [RequestCache.requests] in Hr.
  revert k r Hr.
  apply (load_fold_elem (λ r, r ∈ batch_requests db ∧ BatchRequest.batch_job_id r = job_id)).
  - apply map_Forall_empty.
  - apply Forall_forall. intros r Hr.
    unfold batch_requests_curd.get_requests_for_job in Hr.
    apply list_elem_of_filter in Hr as [? ?]. done.
Qed.

Lemma load_synced (job_id : Z) (db : DB) (c : RequestCache.t) :
  NoDup (BatchRequest.id <$> batch_requests db) →
  failed_synced (RequestCache.load_requests_for_job job_id db c, db).
Proof.
  intros Hnd k r row Hr _ Hrow Hid Hst. cbn [fst snd] in *.
  pose proof (load_keyed job_id db c k r Hr) as Hk. cbn in Hk.
  apply load_lookup_elem in Hr as [Hr _].
  assert (row = r) as -> by (apply (NoDup_id_unique (batch_requests db)); congruence).
  done.
Qed.

Lemma pending_elem (c : RequestCache.t) (r : BatchRequest.t) :
  r ∈ RequestCache.get_pending_requests c
  ↔ BatchRequest.status r = RequestStatus.PENDING
    ∧ ∃ k, RequestCache.requests c !! k = Some r.
Proof.
  unfold RequestCache.get_pending_requests.
  rewrite merge_sort_Permutation, list_elem_of_filter, list_elem_of_fmap.
  split.
  - intros [Hst ([k r'] & -> & Hin)]. split; [done|]. exists k.
    by apply elem_of_map_to_list.
  - intros [Hst [k Hk]]. split; [done|]. exists (k, r). split; [done|].
    by apply elem_of_map_to_list.
Qed.

Lemma NoDup_fmap_filter {A B} (f : A → B) (P : A → Prop) `{∀ x, Decision (P x)}
    (l : list A) :
  NoDup (f <$> l) → NoDup (f <$> filter P l).
Proof.
  induction l as [|x l IH]; [done|]. rewrite fmap_cons, NoDup_cons. intros [Hx Hl].
  rewrite filter_cons. destruct (decide (P x)); [|by apply IH].
  rewrite fmap_cons, NoDup_cons. split; [|by apply IH].
  intros Hin. apply Hx. apply list_elem_of_fmap in Hin as (y & -> & Hy).
  apply list_elem_of_filter in Hy as [_ Hy]. by apply list_elem_of_fmap_2.
Qed.

(** The pending requests of a cache keyed by id have pairwise distinct ids. *)
Lemma pending_NoDup (c : RequestCache.t) :
  keyed_by_id c → NoDup (BatchRequest.id <$> RequestCache.get_pending_requests c).
Proof.
  intros Hwf. unfold RequestCache.get_pending_requests.
  rewrite merge_sort_Permutation. apply NoDup_fmap_filter.
  assert (Heq : BatchRequest.id <$> (map_to_list (RequestCache.requests c)).*2
                = (map_to_list (RequestCache.requests c)).*1).
  { rewrite <- list_fmap_compose. apply list_fmap_ext. intros i [k r] Hkr.
    apply list_elem_of_lookup_2, elem_of_map_to_list in Hkr. cbn. by apply (Hwf k r). }
  rewrite Heq. apply NoDup_fst_map_to_list.
Qed.

(** *** The final flush and the two finalize passes *)

Lemma flush_updates_ext raises1 raises2 force current_time (c : RequestCache.t) (db : DB) :
  (∀ b, raises1 b = raises2 b) →
  RequestCache.flush_updates raises1 force current_time c db
  = RequestCache.flush_updates raises2 force current_time c db.
Proof.
  intros Hext. unfold RequestCache.flush_updates, RequestCache.sync_to_store.
  by rewrite !Hext.
Qed.

(** After a forced flush in which nothing raises, every failed record of the
    cache has its status and retry count in its row. *)
Lemma forced_flush_failed_rows current_time (w : World) (k : Z) (r row : BatchRequest.t) :
  keyed_by_id w.1 → failed_synced w →
  let w' := RequestCache.flush_updates no_raise true current_time w.1 w.2 in
  RequestCache.requests w.1 !! k = Some r →
  BatchRequest.status r = RequestStatus.FAILED →
  row ∈ batch_requests w'.2 →
  BatchRequest.id row = k →
  BatchRequest.status row = RequestStatus.FAILED
  ∧ BatchRequest.retry_count row = BatchRequest.retry_count r.
Proof.
  intros Hwf Hs w' Hr Hst Hrow Hid.
  apply list_elem_of_lookup in Hrow as [i Hi]. subst w'.
  rewrite flush_no_raise_rows in Hi by done.
  destruct (batch_requests w.2 !! i) as [row0|] eqn:Hrow0; [|done].
  injection Hi as <-. rewrite flushed_row_id in Hid.
  unfold flushed_row, dirty_record. rewrite Hid.
  case_bool_decide as Hd.
  - rewrite Hr. unfold written. by rewrite Hst.
  - apply (Hs k r row0); try done. by eapply list_elem_of_lookup_2.
Qed.

Lemma finalize_incomplete_terminal job_id max_retries now db (i : nat) (r : BatchRequest.t) :
  batch_requests db !! i = Some r →
  non_terminal (BatchRequest.status r) = false →
  batch_requests
    (batch_requests_curd.finalize_incomplete_requests_for_job job_id max_retries now db) !! i
  = Some r.
Proof.
  intros Hr Hnt. rewrite finalize_incomplete_lookup, Hr.
  cbn [fmap option_fmap option_map]. cbv zeta.
  rewrite Hnt, !andb_false_r. cbn [andb]. by rewrite Hnt, !andb_false_r.
Qed.

Lemma finalize_all_lookup (job_id : Z) (now : string) (db : DB) (i : nat) :
  batch_requests
    (batch_requests_curd.finalize_all_incomplete_requests_for_job job_id now db) !! i
  = (λ r,
       let r1 :=
         if bool_decide (BatchRequest.batch_job_id r = job_id)
            && non_terminal (BatchRequest.status r)
            && batch_requests_curd.has_usable_response r
         then batch_requests_curd.set_status_end RequestStatus.SUCCESS
                (coalesce (BatchRequest.end_time r) now) r
         else r in
       if bool_decide (BatchRequest.batch_job_id r1 = job_id)
          && non_terminal (BatchRequest.status r1)
       then batch_requests_curd.set_status_end RequestStatus.FAILED (Some now) r1
       else r1) <$> (batch_requests db !! i).
Proof.
  unfold batch_requests_curd.finalize_all_incomplete_requests_for_job, with_requests. simpl.
  rewrite !sql_update_lookup. by destruct (batch_requests db !! i).
Qed.

Lemma finalize_all_terminal job_id now db (i : nat) (r : BatchRequest.t) :
  batch_requests db !! i = Some r →
  non_terminal (BatchRequest.status r) = false →
  batch_requests
    (batch_requests_curd.finalize_all_incomplete_requests_for_job job_id now db) !! i
  = Some r.
Proof.
  intros Hr Hnt. rewrite finalize_all_lookup, Hr.
  cbn [fmap option_fmap option_map]. cbv zeta.
  rewrite Hnt, !andb_false_r. cbn [andb]. by rewrite Hnt, !andb_false_r.
Qed.

(** After the forced finalize every row of the job is terminal. *)
Lemma finalize_all_rows job_id now db :
  Forall (λ r, BatchRequest.batch_job_id r = job_id →
               BatchRequest.status r = RequestStatus.SUCCESS
               ∨ BatchRequest.status r = RequestStatus.FAILED)
         (batch_requests
            (batch_requests_curd.finalize_all_incomplete_requests_for_job job_id now db)).
Proof.
  apply Forall_lookup. intros i r' Hi. rewrite finalize_all_lookup in Hi.
  destruct (batch_requests db !! i) as [r|]; [|done]. injection Hi as <-.
  destruct r as [rid jid idx st rc body pt ct tt stt ent]. cbn.
  destruct (decide (jid = job_id)) as [Hj|Hj].
  - rewrite !(bool_decide_eq_true_2 (jid = job_id)) by done. cbn.
    destruct st; cbn; rewrite ?(bool_decide_eq_true_2 (jid = job_id)) by done; cbn; auto;
      try (match goal with
           | |- context [batch_requests_curd.has_usable_response ?x] =>
               destruct (batch_requests_curd.has_usable_response x)
           end; cbn;
           rewrite ?(bool_decide_eq_true_2 (jid = job_id)) by done; cbn; auto).
  - rewrite ?(bool_decide_eq_false_2 (jid = job_id)) by done. cbn.
    rewrite ?(bool_decide_eq_false_2 (jid = job_id)) by done. cbn. done.
Qed.

Lemma terminal_counts job_id (tbl : list BatchRequest.t) :
  Forall (λ r, BatchRequest.batch_job_id r = job_id →
               BatchRequest.status r = RequestStatus.SUCCESS
               ∨ BatchRequest.status r = RequestStatus.FAILED) tbl →
  sql_count (λ r, bool_decide (BatchRequest.batch_job_id r = job_id)
                  && bool_decide (BatchRequest.status r = RequestStatus.SUCCESS)) tbl
  + sql_count (λ r, bool_decide (BatchRequest.batch_job_id r = job_id)
                    && bool_decide (BatchRequest.status r = RequestStatus.FAILED)) tbl
  = sql_count (λ r, bool_decide (BatchRequest.batch_job_id r = job_id)) tbl.
Proof.
  unfold sql_count. induction 1 as [|r tbl Hr _ IH]; [done|].
  rewrite !filter_cons.
  destruct (bool_decide_reflect (BatchRequest.batch_job_id r = job_id)) as [Hj|Hj];
    cbn [andb].
  - destruct (Hr Hj) as [Hst|Hst]; rewrite Hst; cbn;
      repeat (case_decide; try done); cbn [length]; lia.
  - repeat (case_decide; try done).
Qed.

(** When nothing raises, the forced finalize leaves the counts equal to the
    total, and the job ends completed. *)
Lemma finalize_no_fault_completed raises job job_details end_time now db i row :
  (∀ op, raises op = false) →
  batch_jobs db !! i = Some row →
  BatchJob.id row = BatchJob.id job →
  ∃ row',
    batch_jobs (job_processor._finalize_job_processing raises job job_details end_time now db)
    !! i = Some row'
    ∧ BatchJob.status row' = JobStatus.COMPLETED.
Proof.
  intros Hnf Hrow Hid.
  destruct (finalize_try_job_row raises job job_details now db i row Hrow Hid)
    as (row1 & Hrow1 & Hid1).
  unfold job_processor._finalize_job_processing.
  rewrite (finalize_try_ext raises no_fault) in * by done.
  rewrite finalize_try_no_fault in *. cbn zeta in *.
  pose proof (terminal_counts (BatchJob.id job) _
                (finalize_all_rows (BatchJob.id job) now db)) as Hcount.
  set (db1 := batch_requests_curd.finalize_all_incomplete_requests_for_job _ _ _) in *.
  unfold batch_requests_curd.get_status_counts_for_job,
    batch_requests_curd.count_requests_for_job in *. cbn [fst snd] in *.
  set (succ := sql_count (λ r, _ && bool_decide (_ = RequestStatus.SUCCESS)) _) in *.
  set (fail := sql_count (λ r, _ && bool_decide (_ = RequestStatus.FAILED)) _) in *.
  set (actual := sql_count (λ r, bool_decide (BatchRequest.batch_job_id r = _)) _) in *.
  assert (Hpos : 0 ≤ actual) by (subst actual; unfold sql_count; lia).
  case_bool_decide as Hne; cbn [fst snd] in *.
  - assert (job_processor.all_terminal succ fail actual = true) as ->.
    { unfold job_processor.all_terminal. destruct (Z.eqb_spec actual 0); [by rewrite orb_true_r|].
      apply orb_true_iff. left. apply andb_true_iff. split; [apply Z.leb_le|apply Z.ltb_lt]; lia. }
    eexists. split; [by eapply update_job_status_hit|done].
  - assert (job_processor.all_terminal succ fail (BatchJob.total_requests job_details) = true)
      as ->.
    { unfold job_processor.all_terminal.
      destruct (Z.eqb_spec (BatchJob.total_requests job_details) 0) as [H0|H0];
        [by rewrite orb_true_r|].
      assert (Heq : BatchJob.total_requests job_details = actual).
      { unfold py_or in Hne.
        destruct (Z.eqb_spec (BatchJob.total_requests job_details) 0); done. }
      rewrite Heq in *. apply orb_true_iff. left. apply andb_true_iff.
      split; [apply Z.leb_le|apply Z.ltb_lt]; lia. }
    eexists. split; [by eapply update_job_status_hit|done].
Qed.

Lemma same_ids_lookup (tbl tbl' : list BatchRequest.t) (n : nat) (r : BatchRequest.t) :
  BatchRequest.id <$> tbl' = BatchRequest.id <$> tbl →
  tbl !! n = Some r →
  ∃ r', tbl' !! n = Some r' ∧ BatchRequest.id r' = BatchRequest.id r.
Proof.
  intros Hids Hr.
  assert (Hn : (BatchRequest.id <$> tbl') !! n = Some (BatchRequest.id r))
    by (by rewrite Hids, list_lookup_fmap, Hr).
  rewrite list_lookup_fmap in Hn. destruct (tbl' !! n) as [r'|]; [|done].
  injection Hn as Hn. eauto.
Qed.

Lemma get_job_details_some (job_id : Z) (db : DB) (i : nat) (row : BatchJob.t) :
  batch_jobs db !! i = Some row → BatchJob.id row = job_id →
  is_Some (batch_job_curd.get_job_details job_id db).
Proof.
  intros Hrow Hid. unfold batch_job_curd.get_job_details.
  assert (Hin : row ∈ filter (λ j, BatchJob.id j = job_id) (batch_jobs db)).
  { apply list_elem_of_filter. split; [done|]. by eapply list_elem_of_lookup_2. }
  destruct (filter _ _) as [|j js]; [by apply elem_of_nil in Hin|]. by eexists.
Qed.

Lemma flush_jobs raises force current_time (c : RequestCache.t) (db : DB) :
  batch_jobs (RequestCache.flush_updates raises force current_time c db).2 = batch_jobs db.
Proof.
  unfold RequestCache.flush_updates. case_bool_decide; [done|].
  destruct (RequestCache.flush_due _ _ _); [|done].
  assert (Hj : batch_jobs
                 (RequestCache.sync_to_store raises (RequestCache.requests_to_sync c) db).1
               = batch_jobs db).
  { unfold RequestCache.sync_to_store, RequestCache.guarded_write. cbn [fst snd].
    destruct (RequestCache.success_requests _), (RequestCache.failed_requests _),
      (RequestCache.processing_requests _), (raises SuccessBatch), (raises FailedBatch),
      (raises ProcessingBatch); done. }
  by destruct (RequestCache.sync_to_store raises (RequestCache.requests_to_sync c) db)
    as [db' []].
Qed.

(** The request rows when the [try] of the final processing is left: those of
    the store, or those the forced finalize made of them. *)
Lemma finalize_try_rows raises job job_details now db :
  batch_requests (job_processor.finalize_try raises job job_details now db).2
  = batch_requests db
  ∨ batch_requests (job_processor.finalize_try raises job job_details now db).2
    = batch_requests
        (batch_requests_curd.finalize_all_incomplete_requests_for_job (BatchJob.id job) now db).
Proof.
  unfold job_processor.finalize_try.
  repeat match goal with
         | |- context [if raises ?op then _ else _] => destruct (raises op)
         | |- context [bool_decide ?P] => destruct (bool_decide P)
         end; cbn [snd]; auto.
Qed.

Lemma finalize_job_processing_terminal raises job job_details end_time now db
    (n : nat) (r : BatchRequest.t) :
  batch_requests db !! n = Some r →
  non_terminal (BatchRequest.status r) = false →
  batch_requests
    (job_processor._finalize_job_processing raises job job_details end_time now db) !! n
  = Some r.
Proof.
  intros Hr Hnt. unfold job_processor._finalize_job_processing.
  pose proof (finalize_try_rows raises job job_details now db) as Hrows.
  destruct (job_processor.finalize_try raises job job_details now db)
    as [[[succ fail] total] db1]. cbn [snd] in Hrows.
  assert (Hgoal : batch_requests db1 !! n = Some r).
  { destruct Hrows as [->| ->]; [done|by apply finalize_all_terminal]. }
  by destruct (job_processor.all_terminal succ fail total).
Qed.

(** The cached record of a pending request after the tasks of the job have
    run, whatever the scheduling, when every upstream call fails. *)
Lemma tasks_all_errors_record base (executor_env : Z → request_executor.Env)
    (choices : list Choice) (job : BatchJob.t) (c : RequestCache.t) (db : DB)
    (r : BatchRequest.t) :
  keyed_by_id c →
  (∀ request_id k,
     request_executor.job_exists_at_start (executor_env request_id) k = true
     ∧ is_upstream_error (request_executor.upstream (executor_env request_id) k) = true
     ∧ request_executor.job_exists_before_retry (executor_env request_id) k = true) →
  r ∈ RequestCache.get_pending_requests c →
  let tasks :=
    (λ req, request_executor.execute_request base (executor_env (BatchRequest.id req)) req job)
    <$> RequestCache.get_pending_requests c in
  ∃ r',
    RequestCache.requests (run_tasks choices tasks (c, db) None).1.1 !! BatchRequest.id r
    = Some r'
    ∧ BatchRequest.status r' = RequestStatus.FAILED
    ∧ BatchRequest.retry_count r' = request_executor.max_attempts_of job.
Proof.
  intros Hwf Henv Hr tasks.
  pose proof (pending_NoDup c Hwf) as Hnd.
  destruct (list_elem_of_lookup_1 _ _ Hr) as [i0 Hi0].
  assert (Hin : is_Some (RequestCache.requests c !! BatchRequest.id r)).
  { apply pending_elem in Hr as [_ [k Hk]]. rewrite <- (Hwf k r Hk) in Hk. by eexists. }
  assert (Htask : tasks !! i0
                  = Some (request_executor.execute_request base
                            (executor_env (BatchRequest.id r)) r job)).
  { subst tasks. by rewrite list_lookup_fmap, Hi0. }
  rewrite (run_tasks_about (BatchRequest.id r) i0 choices tasks (c, db) (c, db) None).
  - rewrite Htask. cbn [default from_option id].
    rewrite about_all by apply attempts_target.
    by apply execute_request_all_errors_record.
  - intros i t Ht Hi. subst tasks. rewrite list_lookup_fmap in Ht.
    destruct (RequestCache.get_pending_requests c !! i) as [r2|] eqn:Hr2; [|done].
    injection Ht as <-.
    eapply Forall_impl; [apply attempts_target|]. cbn. intros e -> [= Heq].
    apply Hi. eapply (NoDup_lookup _ _ _ _ Hnd).
    + by rewrite list_lookup_fmap, Hr2.
    + by rewrite list_lookup_fmap, Hi0, Heq.
  - done.
Qed.

Lemma flush_cut_frame committed (f : RequestCache.Flushing) (db : DB) :
  BatchRequest.id <$> batch_requests (RequestCache.flush_cut committed f db)
  = BatchRequest.id <$> batch_requests db
  ∧ batch_jobs (RequestCache.flush_cut committed f db) = batch_jobs db.
Proof.
  unfold RequestCache.flush_cut. destruct committed; [|done].
  by rewrite write_batch_ids, write_batch_jobs.
Qed.

(** C2, amended. For a job with a concurrency of at least 1 whose endpoint is
    active, in a store where request ids are unique, when the job is left
    alone while it is processed (no deletion, reset or pause), every upstream
    call of every attempt fails with a rate-limit error (an upstream API
    error) that the executor enters in the error log, every existence check
    finds the job, and neither the final flush nor the final processing
    raises: whatever the scheduling of the executors and of the periodic
    flush (whose writes may raise), [process_job] returns and the job ends
    [completed]; and unless the periodic flush is cancelled inside one of its
    bulk writes, every request of the job that was pending ends failed with
    retry count equal to the number of attempts, [max(1, max_retries)]. *)
Theorem rate_limited_job_requests_fail_job_completes
    (base : Z) (env : job_processor.Env) (job : BatchJob.t) (db : DB)
    (i : nat) (row : BatchJob.t) :
  NoDup (BatchRequest.id <$> batch_requests db) →
  batch_jobs db !! i = Some row →
  BatchJob.id row = BatchJob.id job →
  job_processor.meanwhile env = job_processor.Left_alone →
  job_processor.api_config env = Some true →
  1 ≤ BatchJob.concurrency job →
  (∀ request_id k,
     request_executor.job_exists_at_start (job_processor.executor_env env request_id) k = true
     ∧ is_upstream_error
         (request_executor.upstream (job_processor.executor_env env request_id) k) = true
     ∧ request_executor.job_exists_before_retry
         (job_processor.executor_env env request_id) k = true) →
  (∀ b, job_processor.final_flush_raises env b = false) →
  (∀ op, job_processor.finalize_raises env op = false) →
  ∃ db',
    job_processor.process_job base env job db = job_processor.Returns db'
    ∧ (∃ row', batch_jobs db' !! i = Some row' ∧ BatchJob.status row' = JobStatus.COMPLETED)
    ∧ (flush_at_cleanup base env job db = None →
       ∀ n r,
         batch_requests db !! n = Some r →
         BatchRequest.batch_job_id r = BatchJob.id job →
         BatchRequest.status r = RequestStatus.PENDING →
         ∃ r',
           batch_requests db' !! n = Some r'
           ∧ BatchRequest.id r' = BatchRequest.id r
           ∧ BatchRequest.status r' = RequestStatus.FAILED
           ∧ BatchRequest.retry_count r' = request_executor.max_attempts_of job).
Proof.
  intros Hnd Hrow Hid Halone Hapi Hconc Henv Hflush Hfin.
  unfold job_processor.process_job, flush_at_cleanup. rewrite Halone, Hapi.
  set (db0 := batch_job_curd.update_job_status (BatchJob.id job) JobStatus.PROCESSING
                (Some (job_processor.start_time env)) None db).
  assert (Hrows0 : batch_requests db0 = batch_requests db) by done.
  assert (Hrow0 : ∃ row0, batch_jobs db0 !! i = Some row0
                          ∧ BatchJob.id row0 = BatchJob.id job).
  { eexists. split; [by apply update_job_status_hit|done]. }
  destruct Hrow0 as (row0 & Hrow0 & Hid0).
  set (c := RequestCache.load_requests_for_job (BatchJob.id job) db0
              (RequestCache.__init__ (job_processor.cache_clock env))).
  assert (Hwf : keyed_by_id c) by apply load_keyed.
  assert (Hsync : failed_synced (c, db0)) by (apply load_synced; by rewrite Hrows0).
  assert (Hpending : ∀ n r,
    batch_requests db !! n = Some r →
    BatchRequest.batch_job_id r = BatchJob.id job →
    BatchRequest.status r = RequestStatus.PENDING →
    r ∈ RequestCache.get_pending_requests c).
  { intros n r Hr Hjob Hst. apply pending_elem. split; [done|].
    exists (BatchRequest.id r). apply reload_row; [by rewrite Hrows0| |done].
    rewrite Hrows0. by eapply list_elem_of_lookup_2. }
  destruct (RequestCache.get_pending_requests c) as [|p ps] eqn:Hps.
  { eexists. split; [done|]. split.
    - eexists. split; [by eapply update_job_status_hit|done].
    - intros _ n r Hr Hjob Hst. by apply Hpending, elem_of_nil in Hr. }
  rewrite <- Hps in *. clear p ps Hps.
  destruct (Z.ltb_spec (BatchJob.concurrency job) 0) as [?|_]; [lia|].
  destruct (Z.eqb_spec (BatchJob.concurrency job) 0) as [?|_]; [lia|].
  set (tasks := (λ req, request_executor.execute_request base
                          (job_processor.executor_env env (BatchRequest.id req)) req job)
                <$> RequestCache.get_pending_requests c).
  assert (Htasks : Forall (Forall (λ e, target e ≠ None)) tasks).
  { subst tasks. apply Forall_fmap, Forall_forall. intros req _. cbn.
    eapply Forall_impl; [apply attempts_target|]. cbn. by intros e ->. }
  assert (Hstart : flush_in_step (c, db0) None) by (by split).
  pose proof (run_tasks_in_step (job_processor.schedule env) tasks (c, db0) None Htasks Hstart)
    as Hstep.
  destruct (run_tasks_frame (job_processor.schedule env) tasks (c, db0) None Htasks)
    as [Hids1 Hjobs1].
  assert (Hrecord : ∀ r, r ∈ RequestCache.get_pending_requests c →
    ∃ r',
      RequestCache.requests (run_tasks (job_processor.schedule env) tasks (c, db0) None).1.1
        !! BatchRequest.id r = Some r'
      ∧ BatchRequest.status r' = RequestStatus.FAILED
      ∧ BatchRequest.retry_count r' = request_executor.max_attempts_of job).
  { intros r Hr.
    by apply (tasks_all_errors_record base (job_processor.executor_env env)
                (job_processor.schedule env) job c db0 r Hwf Henv). }
  destruct (run_tasks (job_processor.schedule env) tasks (c, db0) None) as [w1 flushing].
  cbn [fst snd] in Hstep, Hids1, Hjobs1, Hrecord |- *.
  set (db1 := match flushing with
              | Some f => RequestCache.flush_cut (job_processor.flush_cut_committed env) f w1.2
              | None => w1.2
              end).
  assert (Hdb1 : BatchRequest.id <$> batch_requests db1 = BatchRequest.id <$> batch_requests db
                 ∧ batch_jobs db1 = batch_jobs db0).
  { subst db1. destruct flushing as [f|]; [|done].
    destruct (flush_cut_frame (job_processor.flush_cut_committed env) f w1.2) as [-> ->].
    done. }
  destruct Hdb1 as [Hidsc Hjobsc].
  assert (Hwf1 : keyed_by_id w1.1) by apply Hstep.
  rewrite (flush_updates_ext _ no_raise) by done.
  set (w2 := RequestCache.flush_updates no_raise true (job_processor.final_flush_clock env)
               w1.1 db1).
  assert (Hids2 : BatchRequest.id <$> batch_requests w2.2 = BatchRequest.id <$> batch_requests db).
  { subst w2. by rewrite flush_preserves_ids. }
  assert (Hjobs2 : batch_jobs w2.2 = batch_jobs db0).
  { subst w2. by rewrite flush_jobs. }
  set (db3 := if job_processor.conditional_finalize_raises env then w2.2
              else job_processor._finalize_incomplete_requests (BatchJob.id job)
                     (BatchJob.max_retries job) (job_processor.conditional_finalize_now env)
                     w2.2).
  assert (Hjobs3 : batch_jobs db3 = batch_jobs db0).
  { subst db3. by destruct (job_processor.conditional_finalize_raises env). }
  destruct (get_job_details_some (BatchJob.id job) db3 i row0) as [job_details ->];
    [by rewrite Hjobs3|done|].
  eexists. split; [done|]. split.
  - apply finalize_no_fault_completed with (row := row0); [done| |done].
    by rewrite Hjobs3.
  - intros -> n r Hr Hjob Hst. destruct Hstep as [_ Hsync1].
    destruct (Hrecord r (Hpending n r Hr Hjob Hst)) as (r1 & Hr1 & Hst1 & Hrc1).
    destruct (same_ids_lookup (batch_requests db) (batch_requests w2.2) n r Hids2 Hr)
      as (r2 & Hr2 & Hid2).
    destruct (forced_flush_failed_rows (job_processor.final_flush_clock env) w1
                (BatchRequest.id r) r1 r2 Hwf1 Hsync1 Hr1 Hst1) as [Hst2 Hrc2];
      [by eapply list_elem_of_lookup_2|done|].
    exists r2. split.
    + apply finalize_job_processing_terminal; [|by rewrite Hst2].
      subst db3. destruct (job_processor.conditional_finalize_raises env); [done|].
      apply finalize_incomplete_terminal; [done|by rewrite Hst2].
    + split; [done|]. split; [done|]. by rewrite Hrc2.
Qed.

Lemma rate_limited_job_requests_fail_job_completes_witness :
  ∃ db',
    job_processor.process_job settings.RETRY_BACKOFF_BASE sample.all_rate_limited
      sample.job sample.db = job_processor.Returns db'
    ∧ (∃ row', batch_jobs db' !! 0%nat = Some row'
               ∧ BatchJob.status row' = JobStatus.COMPLETED)
    ∧ ∃ r', batch_requests db' !! 1%nat = Some r'
            ∧ BatchRequest.id r' = 2
            ∧ BatchRequest.status r' = RequestStatus.FAILED
            ∧ BatchRequest.retry_count r' = 3.
Proof.
  destruct (rate_limited_job_requests_fail_job_completes settings.RETRY_BACKOFF_BASE
              sample.all_rate_limited sample.job sample.db 0 sample.job)
    as (db' & Hreturns & Hjob & Hrows).
  - apply (bool_decide_unpack _). vm_compute. exact I.
  - reflexivity.
  - reflexivity.
  - reflexivity.
  - reflexivity.
  - vm_compute. discriminate.
  - intros request_id k. repeat split.
  - intros b. reflexivity.
  - intros op. reflexivity.
  - exists db'. split; [exact Hreturns|]. split; [exact Hjob|].
    apply (Hrows eq_refl 1%nat (sample.request 2 2)); reflexivity.
Defined.

(** * Further properties *)

(** ** The finalize passes *)

(** X1. After the unconditional finalize every request of the job is success
    or failed.  A row changes only if it belongs to the job and was
    non-terminal; it is then success exactly when it has a non-empty response
    body and a positive token total, and failed otherwise.  Only the status
    and the end time are written. *)
Theorem finalize_all_terminalizes
    (job_id : Z) (now : string) (db : DB) (i : nat) (r : BatchRequest.t) :
  batch_requests db !! i = Some r →
  ∃ r',
    batch_requests
      (batch_requests_curd.finalize_all_incomplete_requests_for_job job_id now db) !! i
    = Some r'
    ∧ (BatchRequest.batch_job_id r' = job_id → non_terminal (BatchRequest.status r') = false)
    ∧ (BatchRequest.batch_job_id r ≠ job_id ∨ non_terminal (BatchRequest.status r) = false →
       r' = r)
    ∧ (BatchRequest.batch_job_id r = job_id →
       non_terminal (BatchRequest.status r) = true →
       BatchRequest.status r'
       = if batch_requests_curd.has_usable_response r
         then RequestStatus.SUCCESS else RequestStatus.FAILED)
    ∧ r' = batch_requests_curd.set_status_times (BatchRequest.status r')
             (BatchRequest.start_time r) (BatchRequest.end_time r') r.
Proof.
  intros Hr. rewrite finalize_all_lookup, Hr. cbn [fmap option_fmap option_map].
  eexists; split; [reflexivity|]. cbv zeta.
  destruct r as [rid jid idx st rc body pt ct tt stt ent].
  unfold batch_requests_curd.has_usable_response. cbn.
  destruct (decide (jid = job_id)) as [Hj|Hj].
  - rewrite !(bool_decide_eq_true_2 (jid = job_id)) by done.
    destruct st, (not_null_nor_empty body), (0 <? tt); cbn;
      rewrite ?(bool_decide_eq_true_2 (jid = job_id)) by done; cbn;
      repeat split; try done; intros [?|?]; done.
  - rewrite !(bool_decide_eq_false_2 (jid = job_id)) by done. cbn.
    rewrite ?(bool_decide_eq_false_2 (jid = job_id)) by done. cbn.
    repeat split; try done.
Qed.

Lemma finalize_all_terminalizes_witness :
  ∃ r',
    batch_requests
      (batch_requests_curd.finalize_all_incomplete_requests_for_job 7 "now" sample.db)
      !! 0%nat = Some r'
    ∧ BatchRequest.status r' = RequestStatus.FAILED.
Proof.
  destruct (finalize_all_terminalizes 7 "now" sample.db 0 (sample.request 1 1) eq_refl)
    as (r' & Hr' & _ & _ & Hst & _).
  exists r'. split; [exact Hr'|]. apply Hst; reflexivity.
Defined.

Lemma finalize_all_frame job_id now db :
  same_frame (batch_requests_curd.finalize_all_incomplete_requests_for_job job_id now db) db.
Proof. done. Qed.

Lemma finalize_incomplete_frame job_id max_retries now db :
  same_frame
    (batch_requests_curd.finalize_incomplete_requests_for_job job_id max_retries now db) db.
Proof. done. Qed.

(** X2. The unconditional finalize is idempotent: run again, at any later
    time, it changes nothing. *)
Theorem finalize_all_idempotent (job_id : Z) (now now' : string) (db : DB) :
  batch_requests_curd.finalize_all_incomplete_requests_for_job job_id now'
    (batch_requests_curd.finalize_all_incomplete_requests_for_job job_id now db)
  = batch_requests_curd.finalize_all_incomplete_requests_for_job job_id now db.
Proof.
  apply db_eq; [done|]. apply list_eq. intros i.
  destruct (batch_requests
              (batch_requests_curd.finalize_all_incomplete_requests_for_job job_id now db)
            !! i) as [r1|] eqn:Hr1.
  - pose proof (finalize_all_rows job_id now db) as Hall.
    rewrite Forall_lookup in Hall. specialize (Hall i r1 Hr1).
    rewrite finalize_all_lookup, Hr1. cbn [fmap option_fmap option_map]. cbv zeta. f_equal.
    destruct (decide (BatchRequest.batch_job_id r1 = job_id)) as [Hj|Hj].
    + assert (Hnt : non_terminal (BatchRequest.status r1) = false)
        by (destruct (Hall Hj) as [-> | ->]; done).
      rewrite Hnt, !andb_false_r. cbn [andb]. by rewrite Hnt, !andb_false_r.
    + rewrite !(bool_decide_eq_false_2 _ Hj). cbn [andb].
      by rewrite ?(bool_decide_eq_false_2 _ Hj).
  - rewrite finalize_all_lookup, Hr1. done.
Qed.

(** The two statements of each finalize pass, composed into one case
    distinction on the row as it was before the pass. *)
Lemma finalize_incomplete_row (job_id max_retries : Z) (now : string) (r : BatchRequest.t) :
  (let r1 :=
     if bool_decide (BatchRequest.batch_job_id r = job_id)
        && non_terminal (BatchRequest.status r)
        && batch_requests_curd.has_usable_response r
        && batch_requests_curd.exhausted_or_empty max_retries r
     then batch_requests_curd.set_status_end RequestStatus.SUCCESS
            (coalesce (BatchRequest.end_time r) now) r
     else r in
   if bool_decide (BatchRequest.batch_job_id r1 = job_id)
      && non_terminal (BatchRequest.status r1)
      && batch_requests_curd.exhausted_or_empty max_retries r1
   then batch_requests_curd.set_status_end RequestStatus.FAILED (Some now) r1
   else r1)
  = if bool_decide (BatchRequest.batch_job_id r = job_id)
       && non_terminal (BatchRequest.status r)
       && batch_requests_curd.exhausted_or_empty max_retries r
    then if batch_requests_curd.has_usable_response r
         then batch_requests_curd.set_status_end RequestStatus.SUCCESS
                (coalesce (BatchRequest.end_time r) now) r
         else batch_requests_curd.set_status_end RequestStatus.FAILED (Some now) r
    else r.
Proof.
  cbv zeta.
  destruct (bool_decide (BatchRequest.batch_job_id r = job_id)) eqn:Hj;
    cbn [andb]; [|by rewrite Hj].
  destruct (non_terminal (BatchRequest.status r)) eqn:Hnt;
    cbn [andb]; [|by rewrite Hj, Hnt].
  destruct (batch_requests_curd.exhausted_or_empty max_retries r) eqn:Hex;
    rewrite ?andb_false_r, ?andb_true_r; [|by rewrite Hj, Hnt, Hex].
  destruct (batch_requests_curd.has_usable_response r) eqn:Hus.
  - cbn [BatchRequest.status batch_requests_curd.set_status_end
         batch_requests_curd.set_status_times non_terminal].
    by rewrite andb_false_r.
  - by rewrite Hj, Hnt, Hex.
Qed.

Lemma finalize_all_row (job_id : Z) (now : string) (r : BatchRequest.t) :
  (let r1 :=
     if bool_decide (BatchRequest.batch_job_id r = job_id)
        && non_terminal (BatchRequest.status r)
        && batch_requests_curd.has_usable_response r
     then batch_requests_curd.set_status_end RequestStatus.SUCCESS
            (coalesce (BatchRequest.end_time r) now) r
     else r in
   if bool_decide (BatchRequest.batch_job_id r1 = job_id)
      && non_terminal (BatchRequest.status r1)
   then batch_requests_curd.set_status_end RequestStatus.FAILED (Some now) r1
   else r1)
  = if bool_decide (BatchRequest.batch_job_id r = job_id)
       && non_terminal (BatchRequest.status r)
    then if batch_requests_curd.has_usable_response r
         then batch_requests_curd.set_status_end RequestStatus.SUCCESS
                (coalesce (BatchRequest.end_time r) now) r
         else batch_requests_curd.set_status_end RequestStatus.FAILED (Some now) r
    else r.
Proof.
  cbv zeta.
  destruct (bool_decide (BatchRequest.batch_job_id r = job_id)) eqn:Hj;
    cbn [andb]; [|by rewrite Hj].
  destruct (non_terminal (BatchRequest.status r)) eqn:Hnt;
    cbn [andb]; [|by rewrite Hj, Hnt].
  destruct (batch_requests_curd.has_usable_response r) eqn:Hus.
  - cbn [BatchRequest.status batch_requests_curd.set_status_end
         batch_requests_curd.set_status_times non_terminal].
    by rewrite andb_false_r.
  - by rewrite Hj, Hnt.
Qed.

Lemma finalize_incomplete_lookup_row (job_id max_retries : Z) (now : string) (db : DB) (i : nat) :
  batch_requests
    (batch_requests_curd.finalize_incomplete_requests_for_job job_id max_retries now db) !! i
  = (λ r, if bool_decide (BatchRequest.batch_job_id r = job_id)
             && non_terminal (BatchRequest.status r)
             && batch_requests_curd.exhausted_or_empty max_retries r
          then if batch_requests_curd.has_usable_response r
               then batch_requests_curd.set_status_end RequestStatus.SUCCESS
                      (coalesce (BatchRequest.end_time r) now) r
               else batch_requests_curd.set_status_end RequestStatus.FAILED (Some now) r
          else r) <$> (batch_requests db !! i).
Proof.
  rewrite finalize_incomplete_lookup.
  destruct (batch_requests db !! i) as [r|]; [|done].
  cbn [fmap option_fmap option_map]. f_equal. apply finalize_incomplete_row.
Qed.

Lemma finalize_all_lookup_row (job_id : Z) (now : string) (db : DB) (i : nat) :
  batch_requests
    (batch_requests_curd.finalize_all_incomplete_requests_for_job job_id now db) !! i
  = (λ r, if bool_decide (BatchRequest.batch_job_id r = job_id)
             && non_terminal (BatchRequest.status r)
          then if batch_requests_curd.has_usable_response r
               then batch_requests_curd.set_status_end RequestStatus.SUCCESS
                      (coalesce (BatchRequest.end_time r) now) r
               else batch_requests_curd.set_status_end RequestStatus.FAILED (Some now) r
          else r) <$> (batch_requests db !! i).
Proof.
  rewrite finalize_all_lookup.
  destruct (batch_requests db !! i) as [r|]; [|done].
  cbn [fmap option_fmap option_map]. f_equal. apply finalize_all_row.
Qed.

(** X3. The conditional finalize is idempotent: run again with the same
    attempt bound, at any later time, it changes nothing. *)
Theorem finalize_incomplete_idempotent (job_id max_retries : Z) (now now' : string) (db : DB) :
  batch_requests_curd.finalize_incomplete_requests_for_job job_id max_retries now'
    (batch_requests_curd.finalize_incomplete_requests_for_job job_id max_retries now db)
  = batch_requests_curd.finalize_incomplete_requests_for_job job_id max_retries now db.
Proof.
  apply db_eq; [done|]. apply list_eq. intros i.
  rewrite !finalize_incomplete_lookup_row.
  destruct (batch_requests db !! i) as [r|]; [|done].
  cbn [fmap option_fmap option_map]. f_equal.
  destruct (bool_decide (BatchRequest.batch_job_id r = job_id)
            && non_terminal (BatchRequest.status r)
            && batch_requests_curd.exhausted_or_empty max_retries r) eqn:Hc.
  - destruct (batch_requests_curd.has_usable_response r);
      cbn [BatchRequest.status batch_requests_curd.set_status_end
           batch_requests_curd.set_status_times non_terminal];
      by rewrite andb_false_r.
  - by rewrite Hc.
Qed.

(** X4. The unconditional finalize subsumes the conditional one: running the
    conditional pass first, with any attempt bound, and then the unconditional
    pass at the same clock reading gives the store the unconditional pass
    alone gives. *)
Theorem finalize_all_after_incomplete (job_id max_retries : Z) (now : string) (db : DB) :
  batch_requests_curd.finalize_all_incomplete_requests_for_job job_id now
    (batch_requests_curd.finalize_incomplete_requests_for_job job_id max_retries now db)
  = batch_requests_curd.finalize_all_incomplete_requests_for_job job_id now db.
Proof.
  apply db_eq; [done|]. apply list_eq. intros i.
  rewrite !finalize_all_lookup_row, finalize_incomplete_lookup_row.
  destruct (batch_requests db !! i) as [r|]; [|done].
  cbn [fmap option_fmap option_map]. f_equal.
  destruct (bool_decide (BatchRequest.batch_job_id r = job_id)) eqn:Hj;
    cbn [andb]; [|by rewrite Hj].
  destruct (non_terminal (BatchRequest.status r)) eqn:Hnt;
    cbn [andb]; [|by rewrite Hj, Hnt].
  destruct (batch_requests_curd.exhausted_or_empty max_retries r) eqn:Hex.
  - destruct (batch_requests_curd.has_usable_response r);
      cbn [BatchRequest.status batch_requests_curd.set_status_end
           batch_requests_curd.set_status_times non_terminal];
      by rewrite andb_false_r.
  - by rewrite Hj, Hnt.
Qed.

(** ** The recovery sweep, again *)

Lemma reset_in_flight_non_terminal (r : BatchRequest.t) :
  non_terminal (BatchRequest.status (reset_in_flight r)) = non_terminal (BatchRequest.status r).
Proof. unfold reset_in_flight. by destruct r as [? ? ? [] ? ? ? ? ? ? ?]. Qed.

(** The rows of the two tables after the sweep. *)
Lemma recover_requests_lookup (db : DB) (k : nat) :
  batch_requests (scheduler.recover_incomplete_jobs db) !! k
  = (λ r, if bool_decide
               (BatchRequest.batch_job_id r
                ∈ BatchJob.id <$> (batch_job_curd.get_jobs_by_status JobStatus.PROCESSING db
                                   ++ batch_job_curd.get_incomplete_completed_jobs db))
          then reset_in_flight r else r) <$> (batch_requests db !! k).
Proof.
  unfold scheduler.recover_incomplete_jobs.
  by rewrite reset_stats_loop_requests, recover_loop_requests.
Qed.

Lemma recover_jobs_status (db : DB) (i : nat) (job' : BatchJob.t) :
  batch_jobs (scheduler.recover_incomplete_jobs db) !! i = Some job' →
  ∃ job,
    batch_jobs db !! i = Some job
    ∧ BatchJob.id job' = BatchJob.id job
    ∧ BatchJob.status job'
      = if bool_decide
             (BatchJob.id job
              ∈ BatchJob.id <$> (batch_job_curd.get_jobs_by_status JobStatus.PROCESSING db
                                 ++ batch_job_curd.get_incomplete_completed_jobs db))
        then JobStatus.PENDING else BatchJob.status job.
Proof.
  unfold scheduler.recover_incomplete_jobs.
  rewrite reset_stats_loop_jobs, recover_loop_jobs.
  destruct (batch_jobs db !! i) as [job|]; [|done].
  cbn [fmap option_fmap option_map]. intros [= <-]. exists job. split; [done|].
  repeat case_bool_decide; done.
Qed.

Lemma stuck_selected (db : DB) (job : BatchJob.t) :
  job ∈ batch_jobs db →
  BatchJob.status job = JobStatus.PROCESSING →
  BatchJob.id job
  ∈ BatchJob.id <$> (batch_job_curd.get_jobs_by_status JobStatus.PROCESSING db
                     ++ batch_job_curd.get_incomplete_completed_jobs db).
Proof.
  intros Hin Hst. apply list_elem_of_fmap_2, elem_of_app. left.
  by apply list_elem_of_filter.
Qed.

Lemma incomplete_selected (db : DB) (job : BatchJob.t) (r : BatchRequest.t) :
  job ∈ batch_jobs db →
  BatchJob.status job = JobStatus.COMPLETED →
  r ∈ batch_requests db →
  BatchRequest.batch_job_id r = BatchJob.id job →
  non_terminal (BatchRequest.status r) = true →
  BatchJob.id job
  ∈ BatchJob.id <$> (batch_job_curd.get_jobs_by_status JobStatus.PROCESSING db
                     ++ batch_job_curd.get_incomplete_completed_jobs db).
Proof.
  intros Hin Hst Hr Hj Hnt. apply list_elem_of_fmap_2, elem_of_app. right.
  apply list_elem_of_filter. split; [|done]. split; [done|].
  apply existsb_exists. exists r. split; [by apply list_elem_of_In|].
  by rewrite Hnt, bool_decide_eq_true_2.
Qed.

Lemma filter_none {A} (P : A → Prop) `{!∀ x, Decision (P x)} (l : list A) :
  (∀ x, x ∈ l → ¬ P x) → filter P l = [].
Proof.
  induction l as [|x l IH]; intros Hl; [done|].
  rewrite filter_cons_False; [|apply Hl; by left].
  apply IH. intros y Hy. apply Hl. by right.
Qed.

(** X5. After the recovery sweep no job is in status processing, and no job
    marked completed has a request in a non-terminal status: the sweep leaves
    nothing for a second sweep to find, and a second sweep changes nothing. *)
Theorem recovery_sweep_leaves_nothing (db : DB) :
  batch_job_curd.get_jobs_by_status JobStatus.PROCESSING (scheduler.recover_incomplete_jobs db)
  = []
  ∧ batch_job_curd.get_incomplete_completed_jobs (scheduler.recover_incomplete_jobs db) = []
  ∧ scheduler.recover_incomplete_jobs (scheduler.recover_incomplete_jobs db)
    = scheduler.recover_incomplete_jobs db.
Proof.
  assert (Hstuck : batch_job_curd.get_jobs_by_status JobStatus.PROCESSING
                     (scheduler.recover_incomplete_jobs db) = []).
  { unfold batch_job_curd.get_jobs_by_status.
    apply filter_none. intros job' Hin' Hst'.
    apply list_elem_of_lookup in Hin' as [i Hi].
    apply recover_jobs_status in Hi as (job & Hjob & _ & Hst).
    rewrite Hst' in Hst. case_bool_decide as Hsel; [done|].
    apply Hsel, stuck_selected; [by eapply list_elem_of_lookup_2|done]. }
  assert (Hinc : batch_job_curd.get_incomplete_completed_jobs
                   (scheduler.recover_incomplete_jobs db) = []).
  { unfold batch_job_curd.get_incomplete_completed_jobs.
    apply filter_none. intros job' Hin' [Hst' Hex].
    apply list_elem_of_lookup in Hin' as [i Hi].
    apply recover_jobs_status in Hi as (job & Hjob & Hid & Hst).
    rewrite Hst' in Hst. case_bool_decide as Hsel; [done|].
    apply existsb_exists in Hex as (r' & Hr' & Hcond).
    apply andb_true_iff in Hcond as [Hj' Hnt'].
    apply bool_decide_eq_true_1 in Hj'.
    apply list_elem_of_In, list_elem_of_lookup in Hr' as [k Hk].
    rewrite recover_requests_lookup in Hk.
    destruct (batch_requests db !! k) as [r|] eqn:Hr; [|done].
    cbn [fmap option_fmap option_map] in Hk. injection Hk as Hk.
    apply Hsel. apply (incomplete_selected db job r).
    - by eapply list_elem_of_lookup_2.
    - done.
    - by eapply list_elem_of_lookup_2.
    - rewrite <- Hid, <- Hj', <- Hk. case_bool_decide; [|done].
      by rewrite reset_in_flight_job.
    - rewrite <- Hnt', <- Hk. case_bool_decide; [|done].
      by rewrite reset_in_flight_non_terminal. }
  split; [done|]. split; [done|].
  unfold scheduler.recover_incomplete_jobs at 1. cbv zeta.
  by rewrite Hstuck, Hinc.
Qed.

(** X6. The recovery sweep writes only three things to a request row: the
    status and the two times.  A row that is pending, success or failed is
    left as it is, and a row is changed only when its job is one the sweep
    selects (in processing, or completed with a non-terminal request); the
    number of rows and the error log never change. *)
Theorem recovery_sweep_frame (db : DB) (k : nat) (r : BatchRequest.t) :
  batch_requests db !! k = Some r →
  ∃ r',
    batch_requests (scheduler.recover_incomplete_jobs db) !! k = Some r'
    ∧ r' = batch_requests_curd.set_status_times
             (BatchRequest.status r') (BatchRequest.start_time r') (BatchRequest.end_time r') r
    ∧ (in_flight (BatchRequest.status r) = false → r' = r)
    ∧ (r' ≠ r →
       ∃ job, job ∈ batch_jobs db
              ∧ BatchJob.id job = BatchRequest.batch_job_id r
              ∧ (BatchJob.status job = JobStatus.PROCESSING
                 ∨ BatchJob.status job = JobStatus.COMPLETED))
    ∧ length (batch_requests (scheduler.recover_incomplete_jobs db))
      = length (batch_requests db)
    ∧ error_logs (scheduler.recover_incomplete_jobs db) = error_logs db.
Proof.
  intros Hr.
  assert (Hlogs : ∀ jobs d, error_logs (foldl scheduler.recover_one d jobs) = error_logs d).
  { intros jobs. induction jobs as [|j jobs IH]; intros d; [done|]. cbn [foldl]. by rewrite IH. }
  assert (Hlogs' : ∀ jobs d,
             error_logs (foldl (λ db job, batch_job_curd.reset_job_stats (BatchJob.id job) db)
                               d jobs) = error_logs d).
  { intros jobs. induction jobs as [|j jobs IH]; intros d; [done|]. cbn [foldl]. by rewrite IH. }
  eexists. split; [by rewrite recover_requests_lookup, Hr|].
  split; [|split; [|split; [|split]]].
  - case_bool_decide; [|by destruct r]. unfold reset_in_flight.
    destruct (in_flight _); by destruct r.
  - intros Hfl. case_bool_decide; [|done]. unfold reset_in_flight. by rewrite Hfl.
  - intros Hne. case_bool_decide as Hsel; [|done].
    apply list_elem_of_fmap in Hsel as (job & Hid & Hjob).
    exists job. apply elem_of_app in Hjob as [Hjob|Hjob].
    + apply list_elem_of_filter in Hjob as [Hst Hin]. split; [done|]. split; [done|]. by left.
    + apply list_elem_of_filter in Hjob as [[Hst _] Hin]. split; [done|]. split; [done|].
      by right.
  - transitivity
      (length ((λ r, if bool_decide
                          (BatchRequest.batch_job_id r
                           ∈ BatchJob.id <$> (batch_job_curd.get_jobs_by_status
                                                JobStatus.PROCESSING db
                                              ++ batch_job_curd.get_incomplete_completed_jobs db))
                     then reset_in_flight r else r) <$> batch_requests db));
      [|by rewrite length_fmap].
    f_equal. apply list_eq. intros n. by rewrite list_lookup_fmap, recover_requests_lookup.
  - unfold scheduler.recover_incomplete_jobs. by rewrite Hlogs', Hlogs.
Qed.

Lemma recovery_sweep_frame_witness :
  ∃ r',
    batch_requests (scheduler.recover_incomplete_jobs sample.db_crashed) !! 1%nat = Some r'.
Proof.
  destruct (recovery_sweep_frame sample.db_crashed 1%nat (sample.request 2 2))
    as (r' & Hr' & _).
  - reflexivity.
  - by exists r'.
Defined.

(** ** One executor *)

(** X7. A request whose first [k] attempts end in upstream errors and whose
    attempt [k] returns, within the attempt budget and with the job in place:
    the executor makes exactly the calls [0 .. k], sleeps [base ^ j] after each
    failed attempt [j < k], and leaves the cached record in status success
    with the response body, the prompt and completion token counts of the
    response (zero when it carries no usage), their sum as total, the end time
    of attempt [k], and the number of failed attempts as retry count; the
    record is marked dirty. *)
Theorem executor_success_after_retries
    base env (request : BatchRequest.t) (job : BatchJob.t) (k : nat)
    (body : string) (usage : option (Z * Z)) (w : World) (r : BatchRequest.t) :
  retried_until env k →
  request_executor.job_exists_at_start env k = true →
  request_executor.upstream env k = Returned body usage →
  Z.of_nat k < request_executor.max_attempts_of job →
  RequestCache.requests w.1 !! BatchRequest.id request = Some r →
  let effects := request_executor.execute_request base env request job in
  let p := match usage with Some u => u.1 | None => 0 end in
  let c := match usage with Some u => u.2 | None => 0 end in
  calls effects = seq 0 (S k)
  ∧ sleeps effects = request_executor.backoff base <$> seq 0 k
  ∧ BatchRequest.id request ∈ RequestCache.dirty_request_ids (run effects w).1
  ∧ ∃ r',
      RequestCache.requests (run effects w).1 !! BatchRequest.id request = Some r'
      ∧ r' = BatchRequest.mk (BatchRequest.id r) (BatchRequest.batch_job_id r)
               (BatchRequest.request_index r) RequestStatus.SUCCESS
               (if decide (k = 0%nat) then BatchRequest.retry_count r else Z.of_nat k)
               (Some body) p c (p + c) (BatchRequest.start_time r')
               (Some (request_executor.end_clock env k)).
Proof.
  intros Hret Hex Hup Hk Hr effects p c. subst effects.
  unfold request_executor.execute_request.
  set (M := request_executor.max_attempts_of job) in *.
  assert (HM : ∃ n, Z.to_nat M = n ∧ M = Z.of_nat (0 + n) ∧ (k < n)%nat).
  { exists (Z.to_nat M). lia. }
  destruct HM as (n & -> & HM & Hkn). rewrite HM.
  destruct (attempts_retries base env job (BatchRequest.id request) n 0 k)
    as (before & -> & Hcalls & Hsleeps & Hrun); [lia|intros; apply Hret; lia|].
  replace (0 + n - k)%nat with (S (n - S k)) by lia.
  cbn [seq request_executor.attempts]. rewrite Hex, Hup. cbn [negb].
  rewrite Nat.sub_0_r in *.
  split; [|split; [|split]].
  - rewrite calls_app, Hcalls, !calls_cons. cbn [app calls omap].
    change (0%nat :: seq 1 k) with (seq 0 (S k)). by rewrite seq_S.
  - rewrite sleeps_app, Hsleeps, !sleeps_cons. cbn [app sleeps omap].
    by rewrite app_nil_r.
  - rewrite run_app. destruct (Hrun w r Hr) as (r1 & Hr1 & _).
    cbn [run foldl].
    pose proof (mark_status_lookup (run before w) (BatchRequest.id request)
                  (if (k =? 0)%nat then RequestStatus.PROCESSING else RequestStatus.RETRYING)
                  (Some (request_executor.start_clock env k)) r1 Hr1) as H1.
    set (w1 := perform (run before w) _) in *.
    cbn [perform fst]. unfold RequestCache.update_request_as_success.
    change (perform w1 (Call_upstream (BatchRequest.id request) k)) with w1.
    rewrite H1. cbn [RequestCache.with_entry RequestCache.dirty_request_ids].
    apply elem_of_union_l, elem_of_singleton. done.
  - rewrite run_app. destruct (Hrun w r Hr) as (r1 & Hr1 & Heq1).
    cbn [run foldl].
    pose proof (mark_status_lookup (run before w) (BatchRequest.id request)
                  (if (k =? 0)%nat then RequestStatus.PROCESSING else RequestStatus.RETRYING)
                  (Some (request_executor.start_clock env k)) r1 Hr1) as H1.
    set (w1 := perform (run before w) _) in *.
    change (perform w1 (Call_upstream (BatchRequest.id request) k)) with w1.
    rewrite (mark_success_lookup w1 _ _ _ _ _ _ H1).
    eexists. split; [reflexivity|]. cbn.
    destruct (decide (k = 0%nat)) as [Hk0|Hk0].
    + by subst r1.
    + rewrite Heq1. by cbn.
Qed.

Lemma executor_success_after_retries_witness :
  calls (request_executor.execute_request 2 sample.recovers (sample.request 1 1)
           sample.job)
  = [0%nat; 1%nat]
  ∧ ∃ r',
      RequestCache.requests
        (run (request_executor.execute_request 2 sample.recovers (sample.request 1 1)
                sample.job) (sample.cache, sample.db)).1 !! 1 = Some r'
      ∧ BatchRequest.status r' = RequestStatus.SUCCESS
      ∧ BatchRequest.retry_count r' = 1
      ∧ BatchRequest.total_tokens r' = 7.
Proof.
  destruct (executor_success_after_retries 2 sample.recovers (sample.request 1 1)
              sample.job 1 "{}" (Some (3, 4)) (sample.cache, sample.db) (sample.request 1 1))
    as (Hcalls & _ & _ & r' & Hr' & Heq).
  - intros j Hj. assert (j = 0%nat) as -> by lia. repeat split.
  - reflexivity.
  - reflexivity.
  - reflexivity.
  - reflexivity.
  - split; [exact Hcalls|]. exists r'. split; [exact Hr'|]. by rewrite Heq.
Defined.

(** The effects an executor is made of: marks, calls, sleeps and log entries
    for its own request and job, and no flush. *)
Lemma attempts_own_effects base env job request_id max_attempts (todo : list nat) :
  Forall (λ e, match e with
               | Log_error k entry =>
                   k = request_id
                   ∧ ErrorLog.batch_job_id entry = BatchJob.id job
                   ∧ ErrorLog.request_id entry = Some request_id
               | Flush _ _ => False
               | _ => target e = Some request_id
               end)
         (request_executor.attempts base env job request_id max_attempts todo).
Proof.
  induction todo as [|a todo IH]; [constructor|].
  cbn [request_executor.attempts].
  destruct (negb _); [constructor|].
  repeat (constructor; [done|]).
  destruct (request_executor.upstream env a); repeat (constructor; [done|]); try constructor.
  destruct (_ <? _); [|repeat constructor].
  destruct (negb _); [constructor|].
  repeat (constructor; [done|]). exact IH.
Qed.

(** What a mutator of the cache leaves alone. *)
Lemma with_entry_frame (c c' : RequestCache.t) (k : Z) :
  (c' = c ∨ ∃ r, is_Some (RequestCache.requests c !! k) ∧ c' = RequestCache.with_entry k r c) →
  dom (RequestCache.requests c') = dom (RequestCache.requests c)
  ∧ RequestCache.last_flush_time c' = RequestCache.last_flush_time c
  ∧ RequestCache.dirty_request_ids c ⊆ RequestCache.dirty_request_ids c'
  ∧ RequestCache.dirty_request_ids c' ⊆ RequestCache.dirty_request_ids c ∪ {[k]}.
Proof.
  intros [->|(r & Hin & ->)].
  - split; [done|]. split; [done|]. split; [done|]. apply union_subseteq_l.
  - cbn [RequestCache.with_entry RequestCache.requests RequestCache.dirty_request_ids
         RequestCache.last_flush_time].
    split; [|split; [done|split]].
    + rewrite dom_insert_L. apply elem_of_dom in Hin.
      apply set_eq. intros x. rewrite elem_of_union, elem_of_singleton.
      split; [intros [->|]; done|by right].
    + apply union_subseteq_r.
    + intros x. rewrite !elem_of_union. tauto.
Qed.

Lemma mutator_cases (w : World) (e : Effect) (k : Z) :
  target e = Some k →
  (perform w e).1 = w.1
  ∨ ∃ r, is_Some (RequestCache.requests w.1 !! k)
         ∧ (perform w e).1 = RequestCache.with_entry k r w.1.
Proof.
  destruct e as [k' s st|k' body p c en|k' en n s|k' entry|k' a|k' s|t raises];
    cbn [target perform fst]; intros [= ->]; try (by left).
  - unfold RequestCache.update_request_status.
    destruct (RequestCache.requests w.1 !! k) eqn:Hr; [right|by left].
    eexists. split; [by eexists|done].
  - unfold RequestCache.update_request_as_success.
    destruct (RequestCache.requests w.1 !! k) eqn:Hr; [right|by left].
    eexists. split; [by eexists|done].
  - unfold RequestCache.update_request_as_failed.
    destruct (RequestCache.requests w.1 !! k) eqn:Hr; [right|by left].
    eexists. split; [by eexists|done].
Qed.

Lemma own_effects_frame (request_id job_id : Z) (effects : list Effect) (w : World) :
  Forall (λ e, match e with
               | Log_error k entry =>
                   k = request_id
                   ∧ ErrorLog.batch_job_id entry = job_id
                   ∧ ErrorLog.request_id entry = Some request_id
               | Flush _ _ => False
               | _ => target e = Some request_id
               end) effects →
  batch_jobs (run effects w).2 = batch_jobs w.2
  ∧ batch_requests (run effects w).2 = batch_requests w.2
  ∧ (∃ new,
       error_logs (run effects w).2 = error_logs w.2 ++ new
       ∧ Forall (λ entry, ErrorLog.batch_job_id entry = job_id
                          ∧ ErrorLog.request_id entry = Some request_id) new)
  ∧ dom (RequestCache.requests (run effects w).1) = dom (RequestCache.requests w.1)
  ∧ (∀ k, k ≠ request_id →
          RequestCache.requests (run effects w).1 !! k = RequestCache.requests w.1 !! k)
  ∧ RequestCache.last_flush_time (run effects w).1 = RequestCache.last_flush_time w.1
  ∧ RequestCache.dirty_request_ids w.1 ⊆ RequestCache.dirty_request_ids (run effects w).1
  ∧ RequestCache.dirty_request_ids (run effects w).1
    ⊆ RequestCache.dirty_request_ids w.1 ∪ {[request_id]}.
Proof.
  intros Hall. revert w. induction Hall as [|e effects He _ IH]; intros w.
  - cbn [run foldl]. repeat split; try done.
    + exists []. by rewrite app_nil_r.
    + apply union_subseteq_l.
  - cbn [run foldl]. fold (run effects (perform w e)).
    destruct (IH (perform w e))
      as (Hj & Hr & (new & Hl & Hnew) & Hdom & Hother & Hlf & Hd1 & Hd2).
    assert (Htarget : target e = Some request_id).
    { destruct e; cbn [target] in *; try done. by destruct He as [-> _]. }
    destruct (with_entry_frame w.1 (perform w e).1 request_id (mutator_cases w e _ Htarget))
      as (Hdom0 & Hlf0 & Hd10 & Hd20).
    assert (Hstore :
      batch_jobs (perform w e).2 = batch_jobs w.2
      ∧ batch_requests (perform w e).2 = batch_requests w.2
      ∧ ∃ new0, error_logs (perform w e).2 = error_logs w.2 ++ new0
                ∧ Forall (λ entry, ErrorLog.batch_job_id entry = job_id
                                   ∧ ErrorLog.request_id entry = Some request_id) new0).
    { destruct e as [k s st|k body p c en|k en n s|k entry|k a|k s|t raises];
        cbn [perform snd]; try done;
        try (split; [done|]; split; [done|]; exists []; by rewrite app_nil_r).
      destruct He as (_ & Hjob & Hreq).
      split; [done|]. split; [done|]. exists [entry]. split; [done|]. by constructor. }
    destruct Hstore as (Hj0 & Hr0 & new0 & Hl0 & Hnew0).
    split; [congruence|]. split; [congruence|].
    split; [exists (new0 ++ new); split;
            [by rewrite Hl, Hl0, app_assoc|by apply Forall_app]|].
    split; [congruence|].
    split; [|split; [congruence|split]].
    + intros k Hk. rewrite Hother by done. apply perform_lookup_other. congruence.
    + by etrans.
    + etrans; [exact Hd2|]. intros x. rewrite !elem_of_union. intros [Hx|Hx]; [|by right].
      apply Hd20 in Hx. by rewrite elem_of_union in Hx.
Qed.

(** X8. Whatever the upstream, the clock and the existence checks do, an
    executor writes to the store only by appending entries to the error log,
    each carrying the id of its job and of its request; it changes no job row
    and no request row.  In the cache it adds and removes no key, changes no
    record other than its own, leaves the flush timestamp alone and can mark
    dirty at most its own id. *)
Theorem executor_frame base env (request : BatchRequest.t) (job : BatchJob.t) (w : World) :
  let w' := run (request_executor.execute_request base env request job) w in
  batch_jobs w'.2 = batch_jobs w.2
  ∧ batch_requests w'.2 = batch_requests w.2
  ∧ (∃ new,
       error_logs w'.2 = error_logs w.2 ++ new
       ∧ Forall (λ entry, ErrorLog.batch_job_id entry = BatchJob.id job
                          ∧ ErrorLog.request_id entry = Some (BatchRequest.id request)) new)
  ∧ dom (RequestCache.requests w'.1) = dom (RequestCache.requests w.1)
  ∧ (∀ k, k ≠ BatchRequest.id request →
          RequestCache.requests w'.1 !! k = RequestCache.requests w.1 !! k)
  ∧ RequestCache.last_flush_time w'.1 = RequestCache.last_flush_time w.1
  ∧ RequestCache.dirty_request_ids w.1 ⊆ RequestCache.dirty_request_ids w'.1
  ∧ RequestCache.dirty_request_ids w'.1
    ⊆ RequestCache.dirty_request_ids w.1 ∪ {[BatchRequest.id request]}.
Proof.
  apply own_effects_frame. apply attempts_own_effects.
Qed.

Lemma attempts_calls_sleeps base env job request_id (n a : nat) :
  ∃ made slept : nat,
    calls (request_executor.attempts base env job request_id (Z.of_nat (a + n)) (seq a n))
    = seq a made
    ∧ sleeps (request_executor.attempts base env job request_id (Z.of_nat (a + n)) (seq a n))
      = request_executor.backoff base <$> seq a slept
    ∧ (made ≤ n)%nat ∧ (slept ≤ made)%nat ∧ (made ≤ slept + 1)%nat ∧ (slept ≤ n - 1)%nat.
Proof.
  revert a. induction n as [|n IH]; intros a.
  - exists 0%nat, 0%nat. cbn. repeat split; lia.
  - cbn [seq request_executor.attempts].
    destruct (negb _); [exists 0%nat, 0%nat; cbn; repeat split; lia|].
    destruct (request_executor.upstream env a);
      try (exists 1%nat, 0%nat; cbn; repeat split; lia).
    destruct (Z.ltb_spec (Z.of_nat a) (Z.of_nat (a + S n) - 1));
      [|exists 1%nat, 0%nat; cbn; repeat split; lia].
    destruct (negb _); [exists 1%nat, 0%nat; cbn; repeat split; lia|].
    destruct (IH (S a)) as (made & slept & Hc & Hs & ?).
    replace (a + S n)%nat with (S a + n)%nat by lia.
    exists (S made), (S slept).
    rewrite !calls_cons, !sleeps_cons, Hc, Hs. cbn [app seq fmap list_fmap].
    repeat split; lia.
Qed.

(** X9. Whatever happens, an executor calls the upstream for the attempts
    [0, 1, 2, ...] in this order, at most [max(1, max_retries)] times, and its
    sleeps are [base ^ 0, base ^ 1, ...]: one after each call but the last,
    or one after each call when the run stops at the existence check that
    follows a sleep; it sleeps fewer times than its attempt budget. *)
Theorem executor_calls_in_order base env (request : BatchRequest.t) (job : BatchJob.t) :
  ∃ made slept : nat,
    calls (request_executor.execute_request base env request job) = seq 0 made
    ∧ sleeps (request_executor.execute_request base env request job)
      = request_executor.backoff base <$> seq 0 slept
    ∧ Z.of_nat made ≤ request_executor.max_attempts_of job
    ∧ Z.of_nat slept < request_executor.max_attempts_of job
    ∧ (slept ≤ made ≤ slept + 1)%nat.
Proof.
  unfold request_executor.execute_request.
  set (M := request_executor.max_attempts_of job).
  assert (HM : M = Z.of_nat (0 + Z.to_nat M) ∧ (1 ≤ Z.to_nat M)%nat).
  { subst M. unfold request_executor.max_attempts_of. lia. }
  destruct HM as [HM HM1].
  destruct (attempts_calls_sleeps base env job (BatchRequest.id request) (Z.to_nat M) 0)
    as (made & slept & Hc & Hs & ?).
  rewrite <- HM in Hc, Hs.
  exists made, slept. rewrite Hc, Hs. repeat split; lia.
Qed.

(** X10. When the job is gone at the existence check that opens attempt [k],
    after [k] attempts that ended in upstream errors, the executor stops
    there: it has made the calls [0 .. k-1] and no other, and it leaves the
    cached record as it found it when [k = 0], and otherwise in status
    retrying, which is not terminal, with [k] as retry count. *)
Theorem executor_stops_when_job_deleted
    base env (request : BatchRequest.t) (job : BatchJob.t) (k : nat)
    (w : World) (r : BatchRequest.t) :
  retried_until env k →
  request_executor.job_exists_at_start env k = false →
  Z.of_nat k < request_executor.max_attempts_of job →
  RequestCache.requests w.1 !! BatchRequest.id request = Some r →
  let effects := request_executor.execute_request base env request job in
  calls effects = seq 0 k
  ∧ (k = 0%nat → effects = [])
  ∧ ∃ r',
      RequestCache.requests (run effects w).1 !! BatchRequest.id request = Some r'
      ∧ r' = if decide (k = 0%nat) then r
             else BatchRequest.mk (BatchRequest.id r) (BatchRequest.batch_job_id r)
                    (BatchRequest.request_index r) RequestStatus.RETRYING (Z.of_nat k)
                    (BatchRequest.response_body r) (BatchRequest.prompt_tokens r)
                    (BatchRequest.completion_tokens r) (BatchRequest.total_tokens r)
                    (BatchRequest.start_time r') (BatchRequest.end_time r').
Proof.
  intros Hret Hex Hk Hr effects. subst effects.
  unfold request_executor.execute_request.
  set (M := request_executor.max_attempts_of job) in *.
  assert (HM : ∃ n, Z.to_nat M = n ∧ M = Z.of_nat (0 + n) ∧ (k < n)%nat).
  { exists (Z.to_nat M). lia. }
  destruct HM as (n & -> & HM & Hkn). rewrite HM.
  destruct (attempts_retries base env job (BatchRequest.id request) n 0 k)
    as (before & Heq & Hcalls & Hsleeps & Hrun); [lia|intros; apply Hret; lia|].
  assert (Hstop : request_executor.attempts base env job (BatchRequest.id request)
                    (Z.of_nat (0 + n)) (seq k (0 + n - k)) = []).
  { replace (0 + n - k)%nat with (S (n - S k)) by lia.
    cbn [seq request_executor.attempts]. by rewrite Hex. }
  rewrite Hstop, app_nil_r, Nat.sub_0_r in *.
  split; [by rewrite Heq|]. split.
  - intros ->. by rewrite Nat.add_0_l, Nat.sub_0_r in Hstop.
  - rewrite Heq. destruct (Hrun w r Hr) as (r' & Hr' & Heq'). by exists r'.
Qed.

Lemma executor_stops_when_job_deleted_witness :
  calls (request_executor.execute_request 2 sample.deleted_after_first
           (sample.request 1 1) sample.job) = [0%nat].
Proof.
  destruct (executor_stops_when_job_deleted 2 sample.deleted_after_first
              (sample.request 1 1) sample.job 1 (sample.cache, sample.db) (sample.request 1 1))
    as (Hcalls & _).
  - intros j Hj. assert (j = 0%nat) as -> by lia. repeat split.
  - reflexivity.
  - reflexivity.
  - reflexivity.
  - exact Hcalls.
Defined.

(** ** The cache and the store *)

(** What a flush does, in one statement: the records of the cache are kept;
    the rows are those of a flush of some batches; and either the dirty set
    is as before, or it is empty and every batch was written. *)
Lemma flush_updates_cases raises force current_time (c : RequestCache.t) (db : DB) :
  keyed_by_id c →
  let w' := RequestCache.flush_updates raises force current_time c db in
  ∃ sel,
    (∀ i, batch_requests w'.2 !! i = flushed_row sel c <$> (batch_requests db !! i))
    ∧ (RequestCache.dirty_request_ids w'.1 = RequestCache.dirty_request_ids c
       ∨ (RequestCache.dirty_request_ids w'.1 = ∅
          ∧ ∀ s, s ≠ RequestStatus.PENDING → sel s = true)).
Proof.
  intros Hwf. cbn zeta.
  assert (Hsame : ∃ sel : RequestStatus.t → bool,
    (∀ i, batch_requests db !! i = flushed_row sel c <$> (batch_requests db !! i))
    ∧ (RequestCache.dirty_request_ids c = RequestCache.dirty_request_ids c
       ∨ (RequestCache.dirty_request_ids c = ∅
          ∧ ∀ s, s ≠ RequestStatus.PENDING → sel s = true))).
  { exists (λ _, false). split; [|by left]. intros i.
    destruct (batch_requests db !! i); [|done]. cbn. by rewrite flushed_row_none. }
  unfold RequestCache.flush_updates. case_bool_decide; [done|].
  destruct (RequestCache.flush_due _ _ _); [|done].
  destruct (sync_to_store_rows raises c db Hwf) as (_ & sel & Hrows & Hsel).
  destruct (RequestCache.sync_to_store raises (RequestCache.requests_to_sync c) db)
    as [db' []]; cbn [fst snd] in *; exists sel; (split; [done|]).
  - left. cbn. by rewrite (left_id_L ∅ (∪)), list_to_set_elements_L.
  - right. split; [done|]. by apply Hsel.
Qed.

Lemma written_identity (r row : BatchRequest.t) :
  BatchRequest.batch_job_id (written r row) = BatchRequest.batch_job_id row
  ∧ BatchRequest.request_index (written r row) = BatchRequest.request_index row
  ∧ (BatchRequest.retry_count (written r row) = BatchRequest.retry_count row
     ∨ BatchRequest.status (written r row) = RequestStatus.FAILED).
Proof. unfold written. destruct (BatchRequest.status r); cbn; auto. Qed.

(** X11. A flush, forced or not, with or without a raising bulk write, leaves
    the job rows and the error log alone, keeps the cached records, and keeps
    every request row in place with its id, job id and request index.  A row
    whose id is not marked dirty is not changed, nor is a row whose cached
    record is pending; and the stored retry count changes only on a row that
    the flush leaves in status failed. *)
Theorem flush_touches_only_dirty_rows
    raises (force : bool) (current_time : Z) (c : RequestCache.t) (db : DB)
    (i : nat) (row : BatchRequest.t) :
  keyed_by_id c →
  batch_requests db !! i = Some row →
  let w' := RequestCache.flush_updates raises force current_time c db in
  same_frame w'.2 db
  ∧ RequestCache.requests w'.1 = RequestCache.requests c
  ∧ ∃ row',
      batch_requests w'.2 !! i = Some row'
      ∧ BatchRequest.id row' = BatchRequest.id row
      ∧ BatchRequest.batch_job_id row' = BatchRequest.batch_job_id row
      ∧ BatchRequest.request_index row' = BatchRequest.request_index row
      ∧ (BatchRequest.id row ∉ RequestCache.dirty_request_ids c → row' = row)
      ∧ (∀ r, RequestCache.requests c !! BatchRequest.id row = Some r →
              BatchRequest.status r = RequestStatus.PENDING → row' = row)
      ∧ (BatchRequest.retry_count row' = BatchRequest.retry_count row
         ∨ BatchRequest.status row' = RequestStatus.FAILED).
Proof.
  intros Hkeyed Hrow w'. subst w'.
  split; [by apply flush_frame|]. split; [apply flush_updates_requests|].
  destruct (flush_updates_cases raises force current_time c db Hkeyed) as (sel & Hrows & _).
  exists (flushed_row sel c row). split; [by rewrite Hrows, Hrow|].
  split; [apply flushed_row_id|].
  unfold flushed_row, dirty_record.
  case_bool_decide as Hd.
  - destruct (RequestCache.requests c !! BatchRequest.id row) as [r|] eqn:Hr;
      [|repeat split; auto; done].
    destruct (sel (BatchRequest.status r)); [|repeat split; auto; done].
    destruct (written_identity r row) as (Hj & Hi & Hrc).
    repeat split; auto; [done|].
    intros r0 [= <-] Hst. unfold written. by rewrite Hst.
  - repeat split; auto.
Qed.

Lemma flush_touches_only_dirty_rows_witness :
  batch_requests
    (RequestCache.flush_updates no_raise true 10 sample.cache_failed sample.db).2 !! 1%nat
  = Some (sample.request 2 2).
Proof.
  destruct (flush_touches_only_dirty_rows no_raise true 10 sample.cache_failed sample.db
              1%nat (sample.request 2 2)) as (_ & _ & row' & Hrow' & _ & _ & _ & Hclean & _).
  - apply (bool_decide_unpack _). vm_compute. exact I.
  - reflexivity.
  - rewrite Hrow'. f_equal. apply Hclean.
    apply (bool_decide_unpack _). vm_compute. exact I.
Defined.

(** X12. Loading a job into the cache and asking for the pending requests
    gives the job's pending rows of the store, each exactly once and in
    ascending order of the request index, when the ids of the request table
    are distinct (the primary key); and a cached record is exactly a row of
    the job, kept under its id. *)
Theorem loaded_pending_requests (job_id : Z) (db : DB) (c : RequestCache.t) :
  NoDup (BatchRequest.id <$> batch_requests db) →
  RequestCache.get_pending_requests (RequestCache.load_requests_for_job job_id db c)
  ≡ₚ filter (λ r, BatchRequest.batch_job_id r = job_id
                  ∧ BatchRequest.status r = RequestStatus.PENDING) (batch_requests db)
  ∧ Sorted batch_requests_curd.index_le
      (RequestCache.get_pending_requests (RequestCache.load_requests_for_job job_id db c))
  ∧ ∀ k r,
      RequestCache.requests (RequestCache.load_requests_for_job job_id db c) !! k = Some r
      ↔ r ∈ batch_requests db ∧ BatchRequest.batch_job_id r = job_id ∧ BatchRequest.id r = k.
Proof.
  intros Hnd.
  assert (Hlookup : ∀ k r,
    RequestCache.requests (RequestCache.load_requests_for_job job_id db c) !! k = Some r
    ↔ r ∈ batch_requests db ∧ BatchRequest.batch_job_id r = job_id ∧ BatchRequest.id r = k).
  { intros k r. split.
    - intros Hr. destruct (load_lookup_elem _ _ _ _ _ Hr) as [Hin Hj].
      split; [done|]. split; [done|]. by apply (load_keyed job_id db c).
    - intros (Hin & Hj & <-). by apply (reload_row job_id db r). }
  split; [|split; [|exact Hlookup]].
  2:{ assert (Htotal : Total batch_requests_curd.index_le).
      { intros r1 r2. unfold batch_requests_curd.index_le. lia. }
      apply Sorted_merge_sort, _. }
  apply NoDup_Permutation.
  - eapply NoDup_fmap_1, pending_NoDup, load_keyed.
  - apply NoDup_filter. by eapply NoDup_fmap_1.
  - intros r. rewrite pending_elem, list_elem_of_filter. split.
    + intros (Hst & k & Hk). apply Hlookup in Hk as (Hin & Hj & _). done.
    + intros ((Hj & Hst) & Hin). split; [done|]. exists (BatchRequest.id r).
      by apply Hlookup.
Qed.

Lemma loaded_pending_requests_witness :
  RequestCache.requests (RequestCache.load_requests_for_job 7 sample.db
                           (RequestCache.__init__ 0)) !! 2
  = Some (sample.request 2 2).
Proof.
  destruct (loaded_pending_requests 7 sample.db (RequestCache.__init__ 0)) as [_ Hlookup].
  - apply (bool_decide_unpack _). vm_compute. exact I.
  - apply Hlookup. split; [|split; reflexivity].
    apply list_elem_of_In. right. left. reflexivity.
Defined.

(** *** The flush, write by write, and the flush in one go *)

Lemma requests_to_sync_entries (c : RequestCache.t) :
  RequestCache.requests_to_sync c = (RequestCache.entries_to_sync c).*2.
Proof.
  unfold RequestCache.requests_to_sync, RequestCache.entries_to_sync.
  induction (elements (RequestCache.dirty_request_ids c)) as [|k l IH]; [done|].
  cbn [omap list_omap]. destruct (RequestCache.requests c !! k); cbn; by rewrite ?IH.
Qed.

Lemma filter_snd {A B} (P : B → Prop) `{!∀ r, Decision (P r)} (entries : list (A * B)) :
  filter P (entries.*2) = (filter (λ e, P e.2) entries).*2.
Proof.
  induction entries as [|e entries IH]; [done|].
  rewrite fmap_cons, !filter_cons. destruct (decide (P e.2)).
  - by rewrite fmap_cons, IH.
  - done.
Qed.

Lemma entries_lookup (c : RequestCache.t) (d : gset Z) (batch : list (Z * BatchRequest.t)) :
  Forall (λ e, e ∈ RequestCache.entries_to_sync c) batch →
  omap (λ k, RequestCache.requests (RequestCache.with_dirty d c) !! k) (batch.*1) = batch.*2.
Proof.
  induction 1 as [|[k r] batch He _ IH]; [done|].
  apply entries_to_sync_elem in He as [_ Hr]. cbn [fmap list_fmap omap list_omap fst snd].
  cbn [RequestCache.with_dirty RequestCache.requests] in *. by rewrite Hr, IH.
Qed.

(** X24. A periodic flush whose bulk writes come back one after the other,
    with no executor running in between and none of them raising, is the
    flush in one go: the same rows are written in the same order, the dirty
    set is emptied and the flush timestamp is set to the clock reading of the
    flush; when the flush is not due or nothing is dirty, nothing happens. *)
Theorem flush_steps_make_a_flush (current_time : Z) (c : RequestCache.t) (db : DB) :
  run_tasks [Flush_start current_time; Flush_next false; Flush_next false; Flush_next false]
            [] (c, db) None
  = (RequestCache.flush_updates no_raise false current_time c db, None).
Proof.
  cbn [run_tasks fst snd].
  unfold RequestCache.flush_begin, RequestCache.flush_updates.
  case_bool_decide as Hd; [done|].
  destruct (RequestCache.flush_due false current_time c); [|done].
  cbv zeta.
  unfold RequestCache.sync_to_store, RequestCache.success_requests,
    RequestCache.failed_requests, RequestCache.processing_requests, RequestCache.batches,
    RequestCache.batch_of.
  rewrite requests_to_sync_entries.
  set (entries := RequestCache.entries_to_sync c).
  assert (HfS : filter (λ r, BatchRequest.status r = RequestStatus.SUCCESS) (entries.*2)
                = (filter (λ e, BatchRequest.status e.2 = RequestStatus.SUCCESS) entries).*2)
    by exact (filter_snd (λ r, BatchRequest.status r = RequestStatus.SUCCESS) entries).
  assert (HfF : filter (λ r, BatchRequest.status r = RequestStatus.FAILED) (entries.*2)
                = (filter (λ e, BatchRequest.status e.2 = RequestStatus.FAILED) entries).*2)
    by exact (filter_snd (λ r, BatchRequest.status r = RequestStatus.FAILED) entries).
  assert (HfP : filter (λ r, in_flight (BatchRequest.status r) = true) (entries.*2)
                = (filter (λ e, in_flight (BatchRequest.status e.2) = true) entries).*2)
    by exact (filter_snd (λ r, in_flight (BatchRequest.status r) = true) entries).
  rewrite HfS, HfF, HfP. clear HfS HfF HfP.
  assert (HS : Forall (λ e, e ∈ entries)
                       (filter (λ e, BatchRequest.status e.2 = RequestStatus.SUCCESS) entries)).
  { apply Forall_forall. by intros e [_ ?]%list_elem_of_filter. }
  assert (HF : Forall (λ e, e ∈ entries)
                       (filter (λ e, BatchRequest.status e.2 = RequestStatus.FAILED) entries)).
  { apply Forall_forall. by intros e [_ ?]%list_elem_of_filter. }
  assert (HP : Forall (λ e, e ∈ entries)
                       (filter (λ e, in_flight (BatchRequest.status e.2) = true) entries)).
  { apply Forall_forall. by intros e [_ ?]%list_elem_of_filter. }
  destruct (filter (λ e, BatchRequest.status e.2 = RequestStatus.SUCCESS) _) as [|s0 S];
    destruct (filter (λ e, BatchRequest.status e.2 = RequestStatus.FAILED) _) as [|f0 F];
    destruct (filter (λ e, in_flight (BatchRequest.status e.2) = true) _) as [|p0 P];
    cbn [app fmap list_fmap fst snd RequestCache.guarded_write no_raise run_tasks
         RequestCache.flush_write RequestCache.under_way RequestCache.to_come
         RequestCache.flushing_time RequestCache.flushing_dirty_ids
         RequestCache.write_batch run concat foldl];
    rewrite ?(entries_lookup c ∅ _ HS), ?(entries_lookup c ∅ _ HF),
      ?(entries_lookup c ∅ _ HP);
    cbn [app fmap list_fmap fst snd RequestCache.guarded_write no_raise run_tasks
         RequestCache.flush_write RequestCache.under_way RequestCache.to_come
         RequestCache.flushing_time RequestCache.flushing_dirty_ids
         RequestCache.write_batch run concat foldl];
    rewrite ?(entries_lookup c ∅ _ HS), ?(entries_lookup c ∅ _ HF),
      ?(entries_lookup c ∅ _ HP);
    reflexivity.
Qed.

(** *** The retry budget under the scheduler *)

Lemma row_fold_keeps {U} (key : U → Z) (set : U → BatchRequest.t → BatchRequest.t)
    (Q : BatchRequest.t → Prop) (us : list U) (row : BatchRequest.t) :
  (∀ u row, u ∈ us → Q row → Q (set u row)) → Q row → Q (row_fold key set us row).
Proof.
  revert row. induction us as [|u us IH]; intros row Hset Hrow; [done|].
  change (Q (row_fold key set us
               (if bool_decide (BatchRequest.id row = key u) then set u row else row))).
  apply IH.
  - intros u' row' Hu'. apply Hset. by right.
  - case_bool_decide; [apply Hset; [by left|done]|done].
Qed.

(** A bulk write of records within the bound keeps the rows within it. *)
Lemma write_batch_within (job_id bound : Z) (b : Batch) (rs : list BatchRequest.t) (db : DB) :
  Forall (λ r, BatchRequest.retry_count r ≤ bound) rs →
  rows_within job_id bound db →
  rows_within job_id bound (RequestCache.write_batch b rs db).
Proof.
  intros Hrs Hdb. unfold rows_within in *. rewrite Forall_lookup in Hdb.
  rewrite Forall_forall in Hrs. apply Forall_lookup. intros i row' Hi.
  destruct b; cbn [RequestCache.write_batch] in Hi;
    unfold RequestCache._batch_update_success_requests,
      RequestCache._batch_update_failed_requests,
      RequestCache._batch_update_processing_requests,
      batch_requests_curd.bulk_update_request_success,
      batch_requests_curd.bulk_update_request_failure,
      batch_requests_curd.bulk_update_request_status,
      batch_requests_curd.apply_success_update, batch_requests_curd.apply_failure_update,
      batch_requests_curd.apply_status_update, with_requests in Hi;
    cbn [batch_requests] in Hi; rewrite executemany_lookup in Hi;
    destruct (batch_requests db !! i) as [row|] eqn:Hrow; try done;
    injection Hi as <-;
    apply (row_fold_keeps _ _
             (λ row, BatchRequest.batch_job_id row = job_id
                     → BatchRequest.retry_count row ≤ bound));
    try exact (Hdb i row Hrow).
  - intros u row0 _ Hq. exact Hq.
  - intros u row0 Hu Hq Hj. apply list_elem_of_fmap in Hu as (r & -> & Hr).
    cbn. by apply Hrs.
  - intros u row0 _ Hq. exact Hq.
Qed.

(** X27. The retry budget holds under the scheduler as well.  When the
    effects of the tasks write retry counts within a bound, and the cached
    records and the rows of a job start within it, they stay within it
    whatever the scheduling of the tasks and of the periodic flush, whether
    the writes of the flush raise or not, and whether the flush is cancelled
    inside a write that is committed or not. *)
Theorem retry_budget_under_scheduler
    (job_id bound : Z) (choices : list Choice) (tasks : list (list Effect)) (w : World)
    (committed : bool) :
  Forall (Forall (effect_within bound)) tasks →
  keyed_by_id w.1 → cache_within bound w.1 → rows_within job_id bound w.2 →
  let res := run_tasks choices tasks w None in
  cache_within bound res.1.1
  ∧ rows_within job_id bound res.1.2
  ∧ ∀ f, res.2 = Some f →
         rows_within job_id bound (RequestCache.flush_cut committed f res.1.2).
Proof.
  intros Htasks Hwf Hc Hdb res.
  set (inv := λ (w : World) (flushing : option RequestCache.Flushing),
         keyed_by_id w.1 ∧ cache_within bound w.1 ∧ rows_within job_id bound w.2
         ∧ ∀ f, flushing = Some f →
                Forall (λ r, BatchRequest.retry_count r ≤ bound)
                       (RequestCache.under_way f).2).
  assert (Hinv : inv res.1 res.2).
  { subst res. assert (Hstart : inv w None) by (by repeat split).
    clear Hwf Hc Hdb. revert Hstart. generalize (@None RequestCache.Flushing).
    revert tasks w Htasks.
    induction choices as [|[i|now|raises] choices IH]; intros tasks w Htasks flushing Hw.
    - cbn [run_tasks fst snd]. destruct Hw as (Hwf & Hc & Hdb & Hf).
      destruct (run_within job_id bound (concat tasks) w) as (? & ? & ?); try done.
      by apply Forall_concat.
    - cbn [run_tasks]. destruct (tasks !! i) as [[|e rest]|] eqn:Hi; try by apply IH.
      pose proof (Forall_lookup_1 _ _ _ _ Htasks Hi) as Ht.
      apply Forall_cons in Ht as [He Hrest]. destruct Hw as (Hwf & Hc & Hdb & Hf).
      apply IH; [by apply Forall_insert|].
      destruct (perform_within job_id bound e w He Hwf Hc Hdb) as (? & ? & ?). done.
    - cbn [run_tasks]. destruct flushing as [f|]; [by apply IH|].
      destruct Hw as (Hwf & Hc & Hdb & _).
      assert (Hb : inv ((RequestCache.flush_begin false now w.1).1, w.2)
                       (RequestCache.flush_begin false now w.1).2).
      { unfold RequestCache.flush_begin. case_bool_decide; [by repeat split|].
        destruct (RequestCache.flush_due _ _ _); [|by repeat split].
        destruct (RequestCache.batches _) as [|[b batch] rest] eqn:Hb;
          cbn [fst snd]; repeat split; try done.
        intros f [= <-]. cbn [RequestCache.under_way snd].
        apply Forall_forall. intros r Hr.
        apply list_elem_of_fmap in Hr as ([k r'] & -> & Hin).
        assert (Hin' : (b, batch)
                       ∈ RequestCache.batches (RequestCache.entries_to_sync w.1))
          by (rewrite Hb; by left).
        destruct (batches_sound _ _ _ Hin' _ Hin) as [He _].
        apply entries_to_sync_elem in He as [_ Hr]. apply (Hc _ _ Hr). }
      destruct (RequestCache.flush_begin false now w.1) as [c flushing]. by apply IH.
    - cbn [run_tasks]. destruct flushing as [f|]; [|by apply IH].
      destruct Hw as (Hwf & Hc & Hdb & Hf). specialize (Hf f eq_refl).
      assert (Hb : inv ((RequestCache.flush_write raises f w.1 w.2).1.1,
                        (RequestCache.flush_write raises f w.1 w.2).1.2)
                       (RequestCache.flush_write raises f w.1 w.2).2).
      { unfold RequestCache.flush_write. destruct raises; [by repeat split|].
        destruct (RequestCache.to_come f) as [|[b keys] rest];
          cbn [fst snd]; repeat split; try done; try (by apply write_batch_within).
        intros f' [= <-]. cbn [RequestCache.under_way snd].
        apply Forall_forall. intros r Hr.
        apply list_elem_of_omap in Hr as (k & _ & Hr). apply (Hc _ _ Hr). }
      destruct (RequestCache.flush_write raises f w.1 w.2) as [[c db] flushing].
      by apply IH. }
  destruct Hinv as (_ & Hc' & Hdb' & Hf'). split; [done|]. split; [done|].
  intros f Hf. unfold RequestCache.flush_cut. destruct committed; [|done].
  apply write_batch_within; [by apply Hf'|done].
Qed.

Lemma retry_budget_under_scheduler_witness :
  rows_within 7 3
    (run_tasks (job_processor.schedule sample.cut_in_write)
       ((λ req, request_executor.execute_request 2 sample.rate_limited req sample.job)
        <$> RequestCache.get_pending_requests sample.cache)
       (sample.cache, sample.db) None).1.2.
Proof.
  destruct (retry_budget_under_scheduler 7 3 (job_processor.schedule sample.cut_in_write)
              ((λ req, request_executor.execute_request 2 sample.rate_limited req sample.job)
               <$> RequestCache.get_pending_requests sample.cache)
              (sample.cache, sample.db) true) as (_ & Hrows & _).
  - apply Forall_forall. intros t Ht. apply list_elem_of_fmap in Ht as (req & -> & _).
    exact (execute_request_within 2 sample.rate_limited req sample.job).
  - apply (bool_decide_unpack _). vm_compute. exact I.
  - apply (bool_decide_unpack _). vm_compute. exact I.
  - apply (bool_decide_unpack _). vm_compute. exact I.
  - exact Hrows.
Defined.

(** X28. No failed request is lost between the cache and the store while the
    periodic flush runs write by write.  From a freshly loaded cache,
    whatever the scheduling of the executors and of the flush and whichever
    writes of the flush raise: at any moment at which no flush is inside a
    write, every cached record that is failed and not marked dirty has its
    status and its retry count in its row of the store. *)
Theorem periodic_flush_keeps_failures
    (job_id : Z) (db : DB) (c0 : RequestCache.t) (choices : list Choice)
    (tasks : list (list Effect)) :
  NoDup (BatchRequest.id <$> batch_requests db) →
  Forall (Forall (λ e, target e ≠ None)) tasks →
  let res := run_tasks choices tasks
               (RequestCache.load_requests_for_job job_id db c0, db) None in
  res.2 = None → failed_synced res.1.
Proof.
  intros Hnd Htasks res Hnone.
  assert (Hstart : flush_in_step (RequestCache.load_requests_for_job job_id db c0, db) None).
  { split; [apply load_keyed|by apply load_synced]. }
  pose proof (run_tasks_in_step choices tasks _ None Htasks Hstart) as [_ Hstep].
  fold res in Hstep. by rewrite Hnone in Hstep.
Qed.

Lemma periodic_flush_keeps_failures_witness :
  failed_synced
    (run_tasks (job_processor.schedule sample.all_rate_limited)
       ((λ req, request_executor.execute_request 2 sample.rate_limited req sample.job)
        <$> RequestCache.get_pending_requests sample.cache)
       (sample.cache, sample.db) None).1.
Proof.
  apply (periodic_flush_keeps_failures 7 sample.db (RequestCache.__init__ 0)
           (job_processor.schedule sample.all_rate_limited)
           ((λ req, request_executor.execute_request 2 sample.rate_limited req sample.job)
            <$> RequestCache.get_pending_requests sample.cache)).
  - apply (bool_decide_unpack _). vm_compute. exact I.
  - apply (bool_decide_unpack _). vm_compute. exact I.
  - reflexivity.
Defined.

(** ** A job run *)

(** Without a raise in the [try] block, the final bookkeeping leaves the
    request rows as the unconditional finalize makes them and writes their
    counts to the job row. *)
Lemma finalize_no_fault_counts raises job job_details end_time now db i row :
  (∀ op, raises op = false) →
  batch_jobs db !! i = Some row →
  BatchJob.id row = BatchJob.id job →
  let db' := job_processor._finalize_job_processing raises job job_details end_time now db in
  batch_requests db'
  = batch_requests
      (batch_requests_curd.finalize_all_incomplete_requests_for_job (BatchJob.id job) now db)
  ∧ ∃ row',
      batch_jobs db' !! i = Some row'
      ∧ BatchJob.success_count row'
        = (batch_requests_curd.get_status_counts_for_job (BatchJob.id job) db').1
      ∧ BatchJob.failed_count row'
        = (batch_requests_curd.get_status_counts_for_job (BatchJob.id job) db').2.
Proof.
  intros Hnf Hrow Hid db'. subst db'.
  unfold job_processor._finalize_job_processing.
  rewrite (finalize_try_ext raises no_fault) by done.
  rewrite finalize_try_no_fault. cbn zeta.
  set (db1 := batch_requests_curd.finalize_all_incomplete_requests_for_job _ _ _).
  assert (Hrow1 : batch_jobs db1 !! i = Some row) by done.
  case_bool_decide as Hne; destruct (job_processor.all_terminal _ _ _);
    (split; [done|]); eexists;
    (split; [eapply update_job_status_hit; [eapply update_job_stats_hit;
              [first [eapply update_job_total_requests_hit; [exact Hrow1|done]
                     |exact Hrow1]
              |done]
            |done]
            |done]).
Qed.

(** A run of a job that is left alone, with a concurrency of at least 1, an
    active endpoint, a pending request and no raise in the final bookkeeping:
    it returns, the rows of the job all end terminal and the job row
    completed, with the counts of its rows as counters. *)
Lemma process_job_completes
    (base : Z) (env : job_processor.Env) (job : BatchJob.t) (db : DB)
    (i : nat) (row : BatchJob.t) (r : BatchRequest.t) :
  NoDup (BatchRequest.id <$> batch_requests db) →
  batch_jobs db !! i = Some row →
  BatchJob.id row = BatchJob.id job →
  job_processor.meanwhile env = job_processor.Left_alone →
  job_processor.api_config env = Some true →
  1 ≤ BatchJob.concurrency job →
  r ∈ batch_requests db →
  BatchRequest.batch_job_id r = BatchJob.id job →
  BatchRequest.status r = RequestStatus.PENDING →
  (∀ op, job_processor.finalize_raises env op = false) →
  ∃ db',
    job_processor.process_job base env job db = job_processor.Returns db'
    ∧ Forall (λ r', BatchRequest.batch_job_id r' = BatchJob.id job →
                    BatchRequest.status r' = RequestStatus.SUCCESS
                    ∨ BatchRequest.status r' = RequestStatus.FAILED) (batch_requests db')
    ∧ ∃ row',
        batch_jobs db' !! i = Some row'
        ∧ BatchJob.status row' = JobStatus.COMPLETED
        ∧ BatchJob.success_count row'
          = (batch_requests_curd.get_status_counts_for_job (BatchJob.id job) db').1
        ∧ BatchJob.failed_count row'
          = (batch_requests_curd.get_status_counts_for_job (BatchJob.id job) db').2
        ∧ BatchJob.success_count row' + BatchJob.failed_count row'
          = batch_requests_curd.count_requests_for_job (BatchJob.id job) db'.
Proof.
  intros Hnd Hrow Hid Halone Hapi Hconc Hin Hjob Hst Hfin.
  unfold job_processor.process_job. rewrite Halone, Hapi.
  set (db0 := batch_job_curd.update_job_status (BatchJob.id job) JobStatus.PROCESSING
                (Some (job_processor.start_time env)) None db).
  assert (Hrows0 : batch_requests db0 = batch_requests db) by done.
  assert (Hrow0 : ∃ row0, batch_jobs db0 !! i = Some row0
                          ∧ BatchJob.id row0 = BatchJob.id job).
  { eexists. split; [by apply update_job_status_hit|done]. }
  destruct Hrow0 as (row0 & Hrow0 & Hid0).
  set (c := RequestCache.load_requests_for_job (BatchJob.id job) db0
              (RequestCache.__init__ (job_processor.cache_clock env))).
  assert (Hpending : r ∈ RequestCache.get_pending_requests c).
  { apply pending_elem. split; [done|].
    exists (BatchRequest.id r). apply reload_row; [by rewrite Hrows0| |done].
    by rewrite Hrows0. }
  destruct (RequestCache.get_pending_requests c) as [|p ps] eqn:Hps;
    [by apply elem_of_nil in Hpending|].
  rewrite <- Hps in *. clear p ps Hps.
  destruct (Z.ltb_spec (BatchJob.concurrency job) 0) as [?|_]; [lia|].
  destruct (Z.eqb_spec (BatchJob.concurrency job) 0) as [?|_]; [lia|].
  set (tasks := (λ req, request_executor.execute_request base
                          (job_processor.executor_env env (BatchRequest.id req)) req job)
                <$> RequestCache.get_pending_requests c).
  assert (Htasks : Forall (Forall (λ e, target e ≠ None)) tasks).
  { subst tasks. apply Forall_fmap, Forall_forall. intros req _. cbn.
    eapply Forall_impl; [apply attempts_target|]. cbn. by intros e ->. }
  destruct (run_tasks_frame (job_processor.schedule env) tasks (c, db0) None Htasks)
    as [_ Hjobs1].
  destruct (run_tasks (job_processor.schedule env) tasks (c, db0) None) as [w1 flushing].
  cbn [fst snd] in Hjobs1 |- *.
  set (db1 := match flushing with
              | Some f => RequestCache.flush_cut (job_processor.flush_cut_committed env) f w1.2
              | None => w1.2
              end).
  assert (Hjobsc : batch_jobs db1 = batch_jobs db0).
  { subst db1. destruct flushing as [f|]; [|done].
    by destruct (flush_cut_frame (job_processor.flush_cut_committed env) f w1.2) as [_ ->]. }
  set (w2 := RequestCache.flush_updates (job_processor.final_flush_raises env) true
               (job_processor.final_flush_clock env) w1.1 db1).
  assert (Hjobs2 : batch_jobs w2.2 = batch_jobs db0).
  { subst w2. by rewrite flush_jobs. }
  set (db3 := if job_processor.conditional_finalize_raises env then w2.2
              else job_processor._finalize_incomplete_requests (BatchJob.id job)
                     (BatchJob.max_retries job) (job_processor.conditional_finalize_now env)
                     w2.2).
  assert (Hjobs3 : batch_jobs db3 = batch_jobs db0).
  { subst db3. by destruct (job_processor.conditional_finalize_raises env). }
  destruct (get_job_details_some (BatchJob.id job) db3 i row0) as [job_details ->];
    [by rewrite Hjobs3|done|].
  assert (Hrow3 : batch_jobs db3 !! i = Some row0) by (by rewrite Hjobs3).
  destruct (finalize_no_fault_counts (job_processor.finalize_raises env) job job_details
              (job_processor.end_time env) (job_processor.finalize_now env) db3 i row0
              Hfin Hrow3 Hid0) as (Hrows & row' & Hrow' & Hsucc & Hfail).
  destruct (finalize_no_fault_completed (job_processor.finalize_raises env) job job_details
              (job_processor.end_time env) (job_processor.finalize_now env) db3 i row0
              Hfin Hrow3 Hid0) as (row'' & Hrow'' & Hcompleted).
  rewrite Hrow' in Hrow''. injection Hrow'' as <-.
  assert (Hterminal :
    Forall (λ r', BatchRequest.batch_job_id r' = BatchJob.id job →
                  BatchRequest.status r' = RequestStatus.SUCCESS
                  ∨ BatchRequest.status r' = RequestStatus.FAILED)
           (batch_requests
              (job_processor._finalize_job_processing (job_processor.finalize_raises env) job
                 job_details (job_processor.end_time env) (job_processor.finalize_now env) db3))).
  { rewrite Hrows. apply finalize_all_rows. }
  eexists. split; [done|]. split; [exact Hterminal|].
  exists row'. split; [done|]. split; [done|]. split; [done|]. split; [done|].
  rewrite Hsucc, Hfail. by apply terminal_counts.
Qed.

(** X13. A run of a job that is left alone while it is processed, has a
    concurrency of at least 1, an active endpoint and a pending request when
    the run starts, and in which the final bookkeeping does not raise, returns
    with the job marked completed, whatever the upstream answers, the
    scheduling of the executors and of the periodic flush, whether or not
    flushes or the conditional finalize raise, and whether or not the periodic
    flush is cancelled inside a write.  Every request row of the job is then
    success or failed, and the success and failure counters of the job row are
    the numbers of such rows and add up to the number of the job's request
    rows. *)
Theorem process_job_ends_completed
    (base : Z) (env : job_processor.Env) (job : BatchJob.t) (db : DB)
    (i : nat) (row : BatchJob.t) (r : BatchRequest.t) :
  NoDup (BatchRequest.id <$> batch_requests db) →
  batch_jobs db !! i = Some row →
  BatchJob.id row = BatchJob.id job →
  job_processor.meanwhile env = job_processor.Left_alone →
  job_processor.api_config env = Some true →
  1 ≤ BatchJob.concurrency job →
  r ∈ batch_requests db →
  BatchRequest.batch_job_id r = BatchJob.id job →
  BatchRequest.status r = RequestStatus.PENDING →
  (∀ op, job_processor.finalize_raises env op = false) →
  ∃ db',
    job_processor.process_job base env job db = job_processor.Returns db'
    ∧ Forall (λ r', BatchRequest.batch_job_id r' = BatchJob.id job →
                    BatchRequest.status r' = RequestStatus.SUCCESS
                    ∨ BatchRequest.status r' = RequestStatus.FAILED) (batch_requests db')
    ∧ ∃ row',
        batch_jobs db' !! i = Some row'
        ∧ BatchJob.status row' = JobStatus.COMPLETED
        ∧ BatchJob.success_count row'
          = (batch_requests_curd.get_status_counts_for_job (BatchJob.id job) db').1
        ∧ BatchJob.failed_count row'
          = (batch_requests_curd.get_status_counts_for_job (BatchJob.id job) db').2
        ∧ BatchJob.success_count row' + BatchJob.failed_count row'
          = batch_requests_curd.count_requests_for_job (BatchJob.id job) db'.
Proof. apply process_job_completes. Qed.

Lemma process_job_ends_completed_witness :
  ∃ db' row',
    job_processor.process_job 2 sample.cut_in_write sample.job sample.db
    = job_processor.Returns db'
    ∧ batch_jobs db' !! 0%nat = Some row'
    ∧ BatchJob.status row' = JobStatus.COMPLETED.
Proof.
  destruct (process_job_ends_completed 2 sample.cut_in_write sample.job sample.db
              0%nat sample.job (sample.request 1 1))
    as (db' & Hreturns & _ & row' & Hrow' & Hst & _).
  - apply (bool_decide_unpack _). vm_compute. exact I.
  - reflexivity.
  - reflexivity.
  - reflexivity.
  - reflexivity.
  - vm_compute. discriminate.
  - apply list_elem_of_In. left. reflexivity.
  - reflexivity.
  - reflexivity.
  - intros op. reflexivity.
  - exists db', row'. split; [exact Hreturns|]. split; [exact Hrow'|exact Hst].
Defined.

(** X14. When the endpoint configuration is missing or inactive, the run of a
    job that is left alone returns, touches no request row, appends exactly one entry to the error log, for
    the job and no request and of type ConfigurationError, and leaves the
    job's row in status failed; every other job row is as before. *)
Theorem process_job_without_endpoint
    (base : Z) (env : job_processor.Env) (job : BatchJob.t) (db : DB) :
  job_processor.meanwhile env = job_processor.Left_alone →
  job_processor.api_config env ≠ Some true →
  ∃ db',
    job_processor.process_job base env job db = job_processor.Returns db'
    ∧ batch_requests db' = batch_requests db
    ∧ (∃ entry,
         error_logs db' = error_logs db ++ [entry]
         ∧ ErrorLog.batch_job_id entry = BatchJob.id job
         ∧ ErrorLog.request_id entry = None
         ∧ ErrorLog.error_type entry = "ConfigurationError"%string)
    ∧ ∀ i row,
        batch_jobs db !! i = Some row →
        ∃ row',
          batch_jobs db' !! i = Some row'
          ∧ (BatchJob.id row ≠ BatchJob.id job → row' = row)
          ∧ (BatchJob.id row = BatchJob.id job →
             BatchJob.status row' = JobStatus.FAILED
             ∧ BatchJob.total_requests row' = BatchJob.total_requests row
             ∧ BatchJob.success_count row' = BatchJob.success_count row
             ∧ BatchJob.failed_count row' = BatchJob.failed_count row).
Proof.
  intros Halone Hapi. unfold job_processor.process_job. rewrite Halone.
  assert (Hbranch : ∀ (A : Type) (x y : A),
            match job_processor.api_config env with Some true => x | _ => y end = y).
  { intros A x y. by destruct (job_processor.api_config env) as [[]|]. }
  rewrite Hbranch. clear Hbranch.
  eexists. split; [done|].
  split; [done|]. split; [by eexists|].
  intros i row Hrow.
  unfold batch_job_curd.update_job_status, log_error_to_db, with_jobs. cbn [batch_jobs].
  rewrite !sql_update_lookup, Hrow. cbn [fmap option_fmap option_map].
  eexists. split; [reflexivity|].
  destruct (bool_decide_reflect (BatchJob.id row = BatchJob.id job)) as [Hid|Hid].
  - cbn [BatchJob.id]. rewrite bool_decide_eq_true_2 by done.
    split; [done|]. intros _. by cbn.
  - rewrite bool_decide_eq_false_2 by done. split; [done|]. done.
Qed.

Lemma process_job_without_endpoint_witness :
  ∃ db',
    job_processor.process_job 2
      (job_processor.mkEnv "2025-01-01 00:00:00" None 0 (λ _, sample.rate_limited) [] 0
         no_raise false "t" "2025-01-01 00:00:01" no_fault "t" false job_processor.Left_alone)
      sample.job sample.db
    = job_processor.Returns db'
    ∧ batch_requests db' = batch_requests sample.db.
Proof.
  destruct (process_job_without_endpoint 2
              (job_processor.mkEnv "2025-01-01 00:00:00" None 0 (λ _, sample.rate_limited) [] 0
                 no_raise false "t" "2025-01-01 00:00:01" no_fault "t" false
                 job_processor.Left_alone)
              sample.job sample.db) as (db' & Hreturns & Hrows & _).
  - reflexivity.
  - discriminate.
  - exists db'. split; [exact Hreturns|exact Hrows].
Defined.

(** X15. When the endpoint is active and the job has no pending request row,
    the run of a job that is left alone starts no executor, whatever the
    concurrency of the job: it returns, marks the job completed and changes
    nothing else.  The request rows and the error log are as before, so a row
    of the job left in status processing or retrying stays non-terminal under
    a completed job, and the success and failure counters of the job row are
    not recomputed. *)
Theorem process_job_nothing_pending
    (base : Z) (env : job_processor.Env) (job : BatchJob.t) (db : DB) :
  job_processor.meanwhile env = job_processor.Left_alone →
  job_processor.api_config env = Some true →
  (∀ r, r ∈ batch_requests db →
        BatchRequest.batch_job_id r = BatchJob.id job →
        BatchRequest.status r ≠ RequestStatus.PENDING) →
  ∃ db',
    job_processor.process_job base env job db = job_processor.Returns db'
    ∧ batch_requests db' = batch_requests db
    ∧ error_logs db' = error_logs db
    ∧ ∀ i row,
        batch_jobs db !! i = Some row →
        ∃ row',
          batch_jobs db' !! i = Some row'
          ∧ (BatchJob.id row ≠ BatchJob.id job → row' = row)
          ∧ (BatchJob.id row = BatchJob.id job →
             BatchJob.status row' = JobStatus.COMPLETED
             ∧ BatchJob.total_requests row' = BatchJob.total_requests row
             ∧ BatchJob.success_count row' = BatchJob.success_count row
             ∧ BatchJob.failed_count row' = BatchJob.failed_count row).
Proof.
  intros Halone Hapi Hnone. unfold job_processor.process_job. rewrite Halone, Hapi.
  set (db0 := batch_job_curd.update_job_status (BatchJob.id job) JobStatus.PROCESSING
                (Some (job_processor.start_time env)) None db).
  set (c := RequestCache.load_requests_for_job (BatchJob.id job) db0
              (RequestCache.__init__ (job_processor.cache_clock env))).
  assert (Hempty : RequestCache.get_pending_requests c = []).
  { destruct (RequestCache.get_pending_requests c) as [|p ps] eqn:Hps; [done|].
    assert (Hp : p ∈ RequestCache.get_pending_requests c) by (rewrite Hps; by left).
    apply pending_elem in Hp as (Hst & k & Hk).
    apply load_lookup_elem in Hk as [Hin Hjob].
    by destruct (Hnone p Hin Hjob). }
  rewrite Hempty. eexists. split; [done|].
  split; [done|]. split; [done|].
  intros i row Hrow. subst db0.
  unfold batch_job_curd.update_job_status, with_jobs. cbn [batch_jobs].
  rewrite !sql_update_lookup, Hrow. cbn [fmap option_fmap option_map].
  eexists. split; [reflexivity|].
  destruct (bool_decide_reflect (BatchJob.id row = BatchJob.id job)) as [Hid|Hid].
  - cbn [BatchJob.id]. rewrite bool_decide_eq_true_2 by done.
    split; [done|]. intros _. by cbn.
  - rewrite bool_decide_eq_false_2 by done. split; [done|]. done.
Qed.

Lemma process_job_nothing_pending_witness :
  ∃ db',
    job_processor.process_job 2 sample.all_rate_limited sample.job sample.db_stale
    = job_processor.Returns db'
    ∧ batch_requests db' = batch_requests sample.db_stale.
Proof.
  destruct (process_job_nothing_pending 2 sample.all_rate_limited sample.job
              sample.db_stale) as (db' & Hreturns & Hrows & _).
  - reflexivity.
  - reflexivity.
  - intros r Hr _. apply list_elem_of_In in Hr.
    destruct Hr as [<-|[<-|[]]]; discriminate.
  - exists db'. split; [exact Hreturns|exact Hrows].
Defined.

(** X25. A periodic flush that is cancelled inside a bulk write loses the
    updates it carries.  On the sample job with every call rate limited, the
    flush that carries the failed record of the first request is cancelled
    inside its write when the executors are done: the ids of the flush stay
    out of the dirty set, the final flush has nothing to write for the
    request, and the finalize passes mark its row failed with the retry count
    of the store, 0, while the second request ends failed with retry count 3
    and the job completed. *)
Lemma cut_flush_loses_retry_count :
  ∃ f db',
    flush_at_cleanup settings.RETRY_BACKOFF_BASE sample.cut_in_write sample.job sample.db
    = Some f
    ∧ job_processor.process_job settings.RETRY_BACKOFF_BASE sample.cut_in_write
        sample.job sample.db = job_processor.Returns db'
    ∧ (BatchRequest.status <$> batch_requests db')
      = [RequestStatus.FAILED; RequestStatus.FAILED]
    ∧ (BatchRequest.retry_count <$> batch_requests db') = [0; 3]
    ∧ (BatchJob.status <$> batch_jobs db') = [JobStatus.COMPLETED].
Proof.
  do 2 eexists. split; [vm_compute; reflexivity|]. split; [vm_compute; reflexivity|].
  by vm_compute.
Qed.



(** ** The job service *)

(** X16. Deleting a job removes its row, and with the row every request and
    error log entry of the job and every error log entry that names one of
    its requests; the rows and requests of every other job are kept as they
    are.  Deleting again, or deleting a job that is not there, changes
    nothing. *)
Theorem delete_job_cascade (job_id : Z) (db : DB) :
  let db' := batch_job_curd.delete_job job_id db in
  batch_job_curd.get_job_details job_id db' = None
  ∧ (∀ j, j ≠ job_id →
       batch_job_curd.get_job_details j db' = batch_job_curd.get_job_details j db
       ∧ batch_requests_curd.get_requests_for_job j db'
         = batch_requests_curd.get_requests_for_job j db)
  ∧ (job_id ∈ BatchJob.id <$> batch_jobs db →
       batch_requests_curd.get_requests_for_job job_id db' = []
       ∧ Forall (λ e, ErrorLog.batch_job_id e ≠ job_id
                      ∧ ∀ k, ErrorLog.request_id e = Some k →
                             k ∉ BatchRequest.id
                                 <$> batch_requests_curd.get_requests_for_job job_id db)
                (error_logs db'))
  ∧ (job_id ∉ BatchJob.id <$> batch_jobs db → db' = db)
  ∧ batch_job_curd.delete_job job_id db' = db'.
Proof.
  intros db'. subst db'. unfold batch_job_curd.delete_job.
  case_bool_decide as Hin; cbn [batch_jobs batch_requests error_logs].
  - assert (Hgone : job_id ∉ BatchJob.id <$> filter (λ j, BatchJob.id j ≠ job_id) (batch_jobs db)).
    { intros Hx. apply list_elem_of_fmap in Hx as (j & -> & Hj).
      by apply list_elem_of_filter in Hj as [Hne _]. }
    split; [|split; [|split; [|split]]].
    + unfold batch_job_curd.get_job_details. cbn [batch_jobs].
      apply head_None, filter_none. intros j Hj Hid.
      by apply list_elem_of_filter in Hj as [Hne _].
    + intros j Hj.
      unfold batch_job_curd.get_job_details, batch_requests_curd.get_requests_for_job.
      cbn [batch_jobs batch_requests].
      rewrite !list_filter_filter_l; [done|intros x; congruence..].
    + intros _. split.
      * unfold batch_requests_curd.get_requests_for_job. cbn [batch_requests].
        apply filter_none. intros r Hr Hid.
        by apply list_elem_of_filter in Hr as [Hne _].
      * apply Forall_forall. intros e He.
        apply list_elem_of_filter in He as [Hcond _].
        apply andb_true_iff in Hcond as [Hjob Hreq].
        apply bool_decide_eq_true_1 in Hjob. split; [done|].
        intros k Hk. rewrite Hk in Hreq. by apply bool_decide_eq_true_1 in Hreq.
    + done.
    + by rewrite bool_decide_eq_false_2.
  - split; [|split; [|split; [|split]]].
    + unfold batch_job_curd.get_job_details.
      apply head_None, filter_none. intros j Hj Hid. apply Hin.
      apply list_elem_of_fmap. by exists j.
    + done.
    + done.
    + done.
    + by rewrite bool_decide_eq_false_2.
Qed.

(** X17. Deleting a job keeps the references of the store intact: when every
    request and every error log entry belonged to a job of the store, and
    every entry that names a request named one of the store, the same holds
    after the deletion, so no request or log entry is left without its job. *)
Theorem delete_job_keeps_references (job_id : Z) (db : DB) :
  references_intact db →
  references_intact (batch_job_curd.delete_job job_id db).
Proof.
  intros [Hreq Hlog]. unfold batch_job_curd.delete_job.
  case_bool_decide as Hin; [|done].
  assert (Hjobs : ∀ j, j ∈ BatchJob.id <$> batch_jobs db → j ≠ job_id →
            j ∈ BatchJob.id <$> filter (λ j, BatchJob.id j ≠ job_id) (batch_jobs db)).
  { intros j Hj Hne. apply list_elem_of_fmap in Hj as (row & -> & Hrow).
    apply list_elem_of_fmap_2. by apply list_elem_of_filter. }
  split; cbn [batch_jobs batch_requests error_logs].
  - intros r Hr. apply list_elem_of_filter in Hr as [Hne Hr]. by apply Hjobs; [apply Hreq|].
  - intros e He. apply list_elem_of_filter in He as [Hcond He].
    apply andb_true_iff in Hcond as [Hjob Hk].
    apply bool_decide_eq_true_1 in Hjob.
    destruct (Hlog e He) as [Hej Her]. split; [by apply Hjobs|].
    intros k Hek. rewrite Hek in Hk. apply bool_decide_eq_true_1 in Hk.
    apply Her in Hek. apply list_elem_of_fmap in Hek as (r & -> & Hr).
    apply list_elem_of_fmap_2, list_elem_of_filter. split; [|done].
    intros Hrj. apply Hk. apply list_elem_of_fmap_2. by apply list_elem_of_filter.
Qed.

Lemma delete_job_keeps_references_witness :
  references_intact (batch_job_curd.delete_job 7 sample.db).
Proof.
  apply delete_job_keeps_references. split.
  - intros r Hr. apply list_elem_of_In in Hr.
    destruct Hr as [<-|[<-|[]]]; apply list_elem_of_In; left; reflexivity.
  - intros e He. apply list_elem_of_In in He. destruct He.
Defined.

Lemma sql_count_pos {A} (c : A → bool) (tbl : list A) :
  (0 <? sql_count c tbl) = true ↔ ∃ x, x ∈ tbl ∧ c x = true.
Proof.
  unfold sql_count. split.
  - intros Hpos. apply Z.ltb_lt in Hpos.
    destruct (filter (λ row, c row = true) tbl) as [|x l] eqn:Hf; [simpl in Hpos; lia|].
    exists x. assert (Hx : x ∈ filter (λ row, c row = true) tbl) by (rewrite Hf; by left).
    apply list_elem_of_filter in Hx as [Hc Hx]. done.
  - intros (x & Hx & Hc). apply Z.ltb_lt.
    assert (Hin : x ∈ filter (λ row, c row = true) tbl) by (by apply list_elem_of_filter).
    destruct (filter (λ row, c row = true) tbl); [by apply elem_of_nil in Hin|simpl; lia].
Qed.

Lemma sql_update_none {A} (c : A → bool) (set : A → A) (tbl : list A) :
  (∀ x, x ∈ tbl → c x = false) → sql_update c set tbl = tbl.
Proof.
  intros Hnone. unfold sql_update. rewrite <- (list_fmap_id tbl) at 2.
  apply list_fmap_ext. intros i x Hx. simpl.
  by rewrite (Hnone x) by (by eapply list_elem_of_lookup_2).
Qed.

(** X18. [retry_failed_requests], when none of its store operations raises,
    returns [True] and leaves no failed request in the job: each failed row
    of the job is pending again with retry count 0 and its times cleared.
    Rows in flight are reset only when the job had no failed row.  Success and
    pending rows and the rows of other jobs are never touched.  The job is put
    back to pending exactly when a row was reset; otherwise the store is not
    changed at all. *)
Theorem retry_failed_requests_resets (raises : job_service.Op → bool) (job_id : Z) (db : DB) :
  (∀ op, raises op = false) →
  let res := job_service.retry_failed_requests raises job_id db in
  let has_failed :=
    0 <? sql_count (λ r, bool_decide (BatchRequest.batch_job_id r = job_id)
                         && bool_decide (BatchRequest.status r = RequestStatus.FAILED))
                   (batch_requests db) in
  let has_in_flight :=
    0 <? sql_count (λ r, bool_decide (BatchRequest.batch_job_id r = job_id)
                         && in_flight (BatchRequest.status r))
                   (batch_requests db) in
  res.1 = true
  ∧ error_logs res.2 = error_logs db
  ∧ (∀ i r, batch_requests db !! i = Some r →
       ∃ r',
         batch_requests res.2 !! i = Some r'
         ∧ (BatchRequest.batch_job_id r = job_id →
            BatchRequest.status r' ≠ RequestStatus.FAILED)
         ∧ (BatchRequest.batch_job_id r = job_id →
            BatchRequest.status r = RequestStatus.FAILED →
            r' = batch_requests_curd.set_reset r)
         ∧ (BatchRequest.batch_job_id r = job_id →
            in_flight (BatchRequest.status r) = true →
            r' = if has_failed then r else reset_in_flight r)
         ∧ (BatchRequest.batch_job_id r ≠ job_id
            ∨ BatchRequest.status r = RequestStatus.SUCCESS
            ∨ BatchRequest.status r = RequestStatus.PENDING → r' = r))
  ∧ (∀ i row, batch_jobs db !! i = Some row →
       ∃ row',
         batch_jobs res.2 !! i = Some row'
         ∧ (BatchJob.id row ≠ job_id → row' = row)
         ∧ (BatchJob.id row = job_id →
            row' = if has_failed || has_in_flight
                   then BatchJob.mk (BatchJob.id row) (BatchJob.total_requests row)
                          JobStatus.PENDING (BatchJob.success_count row)
                          (BatchJob.failed_count row) (BatchJob.concurrency row)
                          (BatchJob.max_retries row) (BatchJob.start_time row)
                          (BatchJob.end_time row)
                   else row))
  ∧ ((has_failed || has_in_flight) = false → res.2 = db).
Proof.
  intros Hnf res has_failed has_in_flight. subst res.
  unfold job_service.retry_failed_requests. rewrite !Hnf. cbv zeta.
  fold has_failed.
  destruct has_failed eqn:Hf.
  - (* some row of the job is failed *)
    cbn [fst snd orb].
    split; [done|]. split; [done|]. split; [|split; [|done]].
    + intros i r Hr.
      unfold batch_job_curd.update_job_status,
        batch_requests_curd.reset_failed_requests_for_job, with_jobs, with_requests.
      cbn [batch_requests]. rewrite sql_update_lookup, Hr.
      cbn [fmap option_fmap option_map]. eexists. split; [reflexivity|].
      destruct (bool_decide_reflect (BatchRequest.batch_job_id r = job_id)) as [Hj|Hj];
        destruct (bool_decide_reflect (BatchRequest.status r = RequestStatus.FAILED))
          as [Hs|Hs]; cbn [andb]; repeat split; try done.
      * intros _ Hfl. by rewrite Hs in Hfl.
      * intros [?|[Hx|Hx]]; [done|by rewrite Hs in Hx..].
    + intros i row Hrow.
      unfold batch_job_curd.update_job_status,
        batch_requests_curd.reset_failed_requests_for_job, with_jobs, with_requests.
      cbn [batch_jobs]. rewrite sql_update_lookup, Hrow.
      cbn [fmap option_fmap option_map]. eexists. split; [reflexivity|].
      case_bool_decide; split; done.
  - (* no failed row *)
    assert (Hnone : ∀ r, r ∈ batch_requests db →
              bool_decide (BatchRequest.batch_job_id r = job_id)
              && bool_decide (BatchRequest.status r = RequestStatus.FAILED) = false).
    { intros r Hr. destruct (_ && _) eqn:Hc; [|done].
      assert (has_failed = true) as Hcontra; [|by rewrite Hf in Hcontra].
      apply sql_count_pos. by exists r. }
    assert (Hsame : batch_requests_curd.reset_failed_requests_for_job job_id db = db).
    { unfold batch_requests_curd.reset_failed_requests_for_job, with_requests.
      rewrite sql_update_none by done. by destruct db. }
    rewrite Hsame. fold has_in_flight. cbn [orb].
    assert (Hrows : ∀ d, batch_requests d = batch_requests
                           (batch_requests_curd.reset_processing_requests_for_job job_id db) →
              ∀ i r, batch_requests db !! i = Some r →
              ∃ r',
                batch_requests d !! i = Some r'
                ∧ (BatchRequest.batch_job_id r = job_id →
                   BatchRequest.status r' ≠ RequestStatus.FAILED)
                ∧ (BatchRequest.batch_job_id r = job_id →
                   BatchRequest.status r = RequestStatus.FAILED →
                   r' = batch_requests_curd.set_reset r)
                ∧ (BatchRequest.batch_job_id r = job_id →
                   in_flight (BatchRequest.status r) = true → r' = reset_in_flight r)
                ∧ (BatchRequest.batch_job_id r ≠ job_id
                   ∨ BatchRequest.status r = RequestStatus.SUCCESS
                   ∨ BatchRequest.status r = RequestStatus.PENDING → r' = r)).
    { intros d -> i r Hr.
      unfold batch_requests_curd.reset_processing_requests_for_job, with_requests.
      cbn [batch_requests]. rewrite sql_update_lookup, Hr.
      cbn [fmap option_fmap option_map]. eexists. split; [reflexivity|].
      pose proof (Hnone r (list_elem_of_lookup_2 _ _ _ Hr)) as Hnf'.
      unfold reset_in_flight.
      destruct (bool_decide_reflect (BatchRequest.batch_job_id r = job_id)) as [Hj|Hj];
        cbn [andb] in *.
      - apply bool_decide_eq_false_1 in Hnf'.
        destruct (in_flight (BatchRequest.status r)) eqn:Hfl; repeat split; try done.
        + intros [?|[Hx|Hx]]; [done|by rewrite Hx in Hfl..].
      - repeat split; done. }
    destruct has_in_flight eqn:Hi; cbn [fst snd].
    + split; [done|]. split; [done|]. split; [by apply Hrows|]. split; [|done].
      intros i row Hrow.
      unfold batch_job_curd.update_job_status,
        batch_requests_curd.reset_processing_requests_for_job, with_jobs, with_requests.
      cbn [batch_jobs]. rewrite sql_update_lookup, Hrow.
      cbn [fmap option_fmap option_map]. eexists. split; [reflexivity|].
      case_bool_decide; split; done.
    + assert (Hnone' : ∀ r, r ∈ batch_requests db →
                bool_decide (BatchRequest.batch_job_id r = job_id)
                && in_flight (BatchRequest.status r) = false).
      { intros r Hr. destruct (_ && _) eqn:Hc; [|done].
        assert (has_in_flight = true) as Hcontra; [|by rewrite Hi in Hcontra].
        apply sql_count_pos. by exists r. }
      assert (Hsame' : batch_requests_curd.reset_processing_requests_for_job job_id db = db).
      { unfold batch_requests_curd.reset_processing_requests_for_job, with_requests.
        rewrite sql_update_none by done. by destruct db. }
      split; [done|]. split; [done|]. split; [by apply Hrows|].
      rewrite Hsame'. split; [|done].
      intros i row Hrow. exists row. done.
Qed.

Lemma retry_failed_requests_resets_witness :
  (job_service.retry_failed_requests (λ _, false) 7 sample.db_stale).1 = true.
Proof.
  destruct (retry_failed_requests_resets (λ _, false) 7 sample.db_stale) as (Hres & _).
  - intros op. reflexivity.
  - exact Hres.
Defined.

(** X19. [reset_job_to_pending], when none of its store operations raises,
    returns [True]; every request row of the job is then pending with retry
    count 0 and no start or end time, while its response body and token
    counts are kept; the job's row is pending with both counters 0 and no
    start or end time, and keeps its total; rows of other jobs and the error
    log are not touched.  Doing it twice is the same as doing it once. *)
Theorem reset_job_to_pending_resets (raises : job_service.Op → bool) (job_id : Z) (db : DB) :
  (∀ op, raises op = false) →
  let res := job_service.reset_job_to_pending raises job_id db in
  res.1 = true
  ∧ error_logs res.2 = error_logs db
  ∧ (∀ i r, batch_requests db !! i = Some r →
       batch_requests res.2 !! i
       = Some (if bool_decide (BatchRequest.batch_job_id r = job_id)
               then BatchRequest.mk (BatchRequest.id r) (BatchRequest.batch_job_id r)
                      (BatchRequest.request_index r) RequestStatus.PENDING 0
                      (BatchRequest.response_body r) (BatchRequest.prompt_tokens r)
                      (BatchRequest.completion_tokens r) (BatchRequest.total_tokens r)
                      None None
               else r))
  ∧ (∀ i row, batch_jobs db !! i = Some row →
       batch_jobs res.2 !! i
       = Some (if bool_decide (BatchJob.id row = job_id)
               then BatchJob.mk (BatchJob.id row) (BatchJob.total_requests row)
                      JobStatus.PENDING 0 0 (BatchJob.concurrency row)
                      (BatchJob.max_retries row) None None
               else row))
  ∧ job_service.reset_job_to_pending raises job_id res.2 = res.
Proof.
  intros Hnf res. subst res. unfold job_service.reset_job_to_pending. rewrite !Hnf.
  cbv zeta. cbn [fst snd].
  assert (Hrows : ∀ d i,
    batch_requests
      (batch_job_curd.reset_job_stats job_id
         (batch_job_curd.update_job_status job_id JobStatus.PENDING None None
            (batch_requests_curd.reset_all_requests_for_job job_id d))) !! i
    = (λ r, if bool_decide (BatchRequest.batch_job_id r = job_id)
            then batch_requests_curd.set_reset r else r) <$> (batch_requests d !! i)).
  { intros d i.
    unfold batch_job_curd.reset_job_stats, batch_job_curd.update_job_status,
      batch_requests_curd.reset_all_requests_for_job, with_jobs, with_requests.
    cbn [batch_requests]. by rewrite sql_update_lookup. }
  assert (Hjobs : ∀ d i,
    batch_jobs
      (batch_job_curd.reset_job_stats job_id
         (batch_job_curd.update_job_status job_id JobStatus.PENDING None None
            (batch_requests_curd.reset_all_requests_for_job job_id d))) !! i
    = (λ row, if bool_decide (BatchJob.id row = job_id)
              then BatchJob.mk (BatchJob.id row) (BatchJob.total_requests row)
                     JobStatus.PENDING 0 0 (BatchJob.concurrency row)
                     (BatchJob.max_retries row) None None
              else row) <$> (batch_jobs d !! i)).
  { intros d i.
    unfold batch_job_curd.reset_job_stats, batch_job_curd.update_job_status,
      batch_requests_curd.reset_all_requests_for_job, with_jobs, with_requests.
    cbn [batch_jobs]. rewrite !sql_update_lookup.
    destruct (batch_jobs d !! i) as [row|]; [|done].
    cbn [fmap option_fmap option_map]. f_equal.
    destruct (bool_decide_reflect (BatchJob.id row = job_id)) as [Hid|Hid].
    - cbn [BatchJob.id]. by rewrite bool_decide_eq_true_2.
    - by rewrite bool_decide_eq_false_2. }
  split; [done|]. split; [done|].
  split; [intros i r Hr; by rewrite Hrows, Hr|].
  split; [intros i row Hrow; by rewrite Hjobs, Hrow|].
  f_equal. apply db_eq; [split; [|done]|].
  - apply list_eq. intros i. rewrite Hjobs, Hjobs.
    destruct (batch_jobs db !! i) as [row|]; [|done].
    cbn [fmap option_fmap option_map]. f_equal.
    destruct (bool_decide_reflect (BatchJob.id row = job_id)) as [Hid|Hid].
    + cbn [BatchJob.id]. by rewrite bool_decide_eq_true_2.
    + by rewrite bool_decide_eq_false_2.
  - apply list_eq. intros i. rewrite Hrows, Hrows.
    destruct (batch_requests db !! i) as [r|]; [|done].
    cbn [fmap option_fmap option_map]. f_equal.
    destruct (bool_decide_reflect (BatchRequest.batch_job_id r = job_id)) as [Hid|Hid].
    + cbn [BatchRequest.batch_job_id batch_requests_curd.set_reset].
      by rewrite bool_decide_eq_true_2.
    + by rewrite bool_decide_eq_false_2.
Qed.

Lemma reset_job_to_pending_resets_witness :
  (job_service.reset_job_to_pending (λ _, false) 7 sample.db_crashed).1 = true.
Proof.
  destruct (reset_job_to_pending_resets (λ _, false) 7 sample.db_crashed) as (Hres & _).
  - intros op. reflexivity.
  - exact Hres.
Defined.

Lemma get_job_details_status (job_id : Z) (s : JobStatus.t) (st en : option string)
    (db : DB) (i : nat) (row : BatchJob.t) :
  batch_jobs db !! i = Some row →
  BatchJob.id row = job_id →
  ∃ job,
    batch_job_curd.get_job_details job_id (batch_job_curd.update_job_status job_id s st en db)
    = Some job
    ∧ BatchJob.status job = s.
Proof.
  intros Hrow Hid.
  destruct (get_job_details_some job_id (batch_job_curd.update_job_status job_id s st en db)
              i _ (update_job_status_hit job_id s st en db i row Hrow Hid) Hid)
    as [job Hjob].
  exists job. split; [done|].
  unfold batch_job_curd.get_job_details in Hjob.
  apply head_Some_elem_of, list_elem_of_filter in Hjob as [Hjid Hin].
  apply list_elem_of_lookup in Hin as [k Hk].
  unfold batch_job_curd.update_job_status, with_jobs in Hk. cbn [batch_jobs] in Hk.
  rewrite sql_update_lookup in Hk.
  destruct (batch_jobs db !! k) as [row0|]; [|done].
  cbn [fmap option_fmap option_map] in Hk. injection Hk as <-.
  destruct (bool_decide_reflect (BatchJob.id row0 = job_id)) as [H0|H0]; [done|].
  by destruct H0.
Qed.

(** X20. Pausing a job and then resuming it leaves the job in status pending,
    whatever its status was before the pause; the job's requests in flight
    are put back to pending on the way, unless that reset raises, which the
    resume ignores.  Nothing else changes: the other fields of the job row,
    the other job rows, the requests that are not in flight and the error log
    are as before.  Resuming a job that is not in the store returns [False],
    and resuming one that is not paused returns [True]; both leave the store
    as it is. *)
Theorem pause_then_resume (raises : job_service.Op → bool) (job_id : Z) (db : DB)
    (i : nat) (row : BatchJob.t) :
  raises job_service.Set_status = false →
  raises job_service.Get_details = false →
  batch_jobs db !! i = Some row →
  BatchJob.id row = job_id →
  let paused := job_service.pause_job raises job_id db in
  let res := job_service.resume_job raises job_id paused.2 in
  paused.1 = true ∧ res.1 = true
  ∧ batch_jobs res.2 !! i
    = Some (BatchJob.mk (BatchJob.id row) (BatchJob.total_requests row) JobStatus.PENDING
              (BatchJob.success_count row) (BatchJob.failed_count row)
              (BatchJob.concurrency row) (BatchJob.max_retries row)
              (BatchJob.start_time row) (BatchJob.end_time row))
  ∧ (∀ k row0, batch_jobs db !! k = Some row0 → BatchJob.id row0 ≠ job_id →
               batch_jobs res.2 !! k = Some row0)
  ∧ (∀ k r, batch_requests db !! k = Some r →
            batch_requests res.2 !! k
            = Some (if raises job_service.Reset_processing then r
                    else if bool_decide (BatchRequest.batch_job_id r = job_id)
                    then reset_in_flight r else r))
  ∧ error_logs res.2 = error_logs db
  ∧ (∀ db0, batch_job_curd.get_job_details job_id db0 = None →
            job_service.resume_job raises job_id db0 = (false, db0))
  ∧ (∀ db0 job, batch_job_curd.get_job_details job_id db0 = Some job →
                BatchJob.status job ≠ JobStatus.PAUSED →
                job_service.resume_job raises job_id db0 = (true, db0)).
Proof.
  intros Hset Hget Hrow Hid paused res. subst paused res.
  unfold job_service.pause_job. rewrite Hset. cbn [fst snd].
  unfold job_service.resume_job. rewrite Hset, Hget.
  destruct (get_job_details_status job_id JobStatus.PAUSED None None db i row Hrow Hid)
    as (job & -> & Hst).
  rewrite bool_decide_eq_false_2 by (by intros Hne).
  cbn [fst snd].
  split; [done|]. split; [done|]. split; [|split; [|split; [|split; [|split]]]].
  - assert (Hjobs : ∀ d, batch_jobs d
              = batch_jobs (batch_job_curd.update_job_status job_id JobStatus.PAUSED
                              None None db) →
              batch_jobs (batch_job_curd.update_job_status job_id JobStatus.PENDING
                            None None d) !! i
              = Some (BatchJob.mk (BatchJob.id row) (BatchJob.total_requests row)
                        JobStatus.PENDING (BatchJob.success_count row)
                        (BatchJob.failed_count row) (BatchJob.concurrency row)
                        (BatchJob.max_retries row) (BatchJob.start_time row)
                        (BatchJob.end_time row))).
    { intros d Hd.
      erewrite update_job_status_hit;
        [|rewrite Hd; by apply update_job_status_hit|done]. done. }
    apply Hjobs. by destruct (raises job_service.Reset_processing).
  - intros k row0 Hrow0 Hne.
    assert (Hjobs : ∀ d, batch_jobs d
              = batch_jobs (batch_job_curd.update_job_status job_id JobStatus.PAUSED
                              None None db) →
              batch_jobs (batch_job_curd.update_job_status job_id JobStatus.PENDING
                            None None d) !! k = Some row0).
    { intros d Hd.
      unfold batch_job_curd.update_job_status, with_jobs in *. cbn [batch_jobs] in *.
      rewrite sql_update_lookup, Hd, sql_update_lookup, Hrow0.
      cbn [fmap option_fmap option_map].
      rewrite (bool_decide_eq_false_2 (BatchJob.id row0 = job_id)) by done.
      by rewrite (bool_decide_eq_false_2 (BatchJob.id row0 = job_id)) by done. }
    apply Hjobs. by destruct (raises job_service.Reset_processing).
  - intros k r Hr.
    destruct (raises job_service.Reset_processing); [done|].
    unfold batch_job_curd.update_job_status,
      batch_requests_curd.reset_processing_requests_for_job, with_jobs, with_requests.
    cbn [batch_requests]. rewrite sql_update_lookup, Hr.
    cbn [fmap option_fmap option_map]. f_equal. unfold reset_in_flight.
    by destruct (bool_decide _), (in_flight _).
  - by destruct (raises job_service.Reset_processing).
  - intros db0 Hnone. by rewrite Hnone.
  - intros db0 job0 Hsome Hne. rewrite Hsome. by rewrite bool_decide_eq_true_2.
Qed.

Lemma pause_then_resume_witness :
  batch_jobs
    (job_service.resume_job (λ _, false) 7
       (job_service.pause_job (λ _, false) 7 sample.db_crashed).2).2 !! 0%nat
  = Some (BatchJob.mk 7 2 JobStatus.PENDING 1 0 2 3 None None).
Proof.
  destruct (pause_then_resume (λ _, false) 7 sample.db_crashed 0%nat
              (BatchJob.mk 7 2 JobStatus.COMPLETED 1 0 2 3 None None))
    as (_ & _ & Hrow & _).
  - reflexivity.
  - reflexivity.
  - reflexivity.
  - reflexivity.
  - exact Hrow.
Defined.

(** ** Paging through the requests of a job *)

Lemma count_requests_length (job_id : Z) (db : DB) :
  batch_requests_curd.count_requests_for_job job_id db
  = Z.of_nat (length (batch_requests_curd.get_requests_for_job job_id db)).
Proof.
  unfold batch_requests_curd.count_requests_for_job, sql_count,
    batch_requests_curd.get_requests_for_job.
  do 2 f_equal. apply list_filter_iff. intros r. apply bool_decide_eq_true.
Qed.

Lemma sorted_requests_length (job_id : Z) (db : DB) :
  length (merge_sort batch_requests_curd.index_le
            (filter (λ r, BatchRequest.batch_job_id r = job_id) (batch_requests db)))
  = length (batch_requests_curd.get_requests_for_job job_id db).
Proof. apply Permutation_length, merge_sort_Permutation. Qed.

(** The number of pages: the least [q >= 1] with [q * s >= n]. *)
Lemma total_pages_bounds (n s : Z) :
  0 ≤ n → 1 ≤ s →
  let q := Z.max 1 ((n + s - 1) / s) in
  1 ≤ q ∧ n ≤ q * s ∧ (0 < n → (q - 1) * s < n) ∧ (n = 0 → q = 1).
Proof.
  intros Hn Hs q. subst q.
  pose proof (Z.mul_div_le (n + s - 1) s ltac:(lia)) as Hle.
  pose proof (Z.mul_succ_div_gt (n + s - 1) s ltac:(lia)) as Hgt.
  assert (Hd : 0 ≤ (n + s - 1) / s) by (apply Z.div_pos; lia).
  rewrite Z.mul_succ_r in Hgt.
  set (d := (n + s - 1) / s) in *. clearbody d.
  split; [lia|]. split.
  - destruct (Z.max_spec 1 d) as [[Hd1 ->]|[Hd1 ->]]; [lia|].
    assert (d = 0 ∨ d = 1) as [->| ->] by lia; lia.
  - split.
    + intros Hpos. destruct (Z.max_spec 1 d) as [[Hd1 ->]|[Hd1 ->]]; lia.
    + intros ->. assert (d = 0) by nia. lia.
Qed.

(** X21. Whatever page and page size are asked for, the page of requests
    that comes back has a page size of at least 1, a page number between 1
    and the number of pages, and the number of the job's rows as total; the
    pages cover the rows with no page beyond them, the last page starting
    before the end; and the page holds as many items as its size allows, so it
    is empty only for a job without requests. *)
Theorem requests_page_window (job_id : Z) (page page_size : option Z) (db : DB) :
  let res := ui_response_service.get_job_requests_page job_id page page_size db in
  let s := ui_response_service.page_size res in
  let n := ui_response_service.total res in
  1 ≤ s
  ∧ 1 ≤ ui_response_service.page res ≤ ui_response_service.total_pages res
  ∧ n = Z.of_nat (length (batch_requests_curd.get_requests_for_job job_id db))
  ∧ n ≤ ui_response_service.total_pages res * s
  ∧ (0 < n → (ui_response_service.total_pages res - 1) * s < n)
  ∧ Z.of_nat (length (ui_response_service.items res))
    = Z.min s (n - (ui_response_service.page res - 1) * s)
  ∧ (0 < n → ui_response_service.items res ≠ []).
Proof.
  intros res s n. subst res s n. unfold ui_response_service.get_job_requests_page.
  cbv zeta. cbn [ui_response_service.page_size ui_response_service.total
                 ui_response_service.page ui_response_service.total_pages
                 ui_response_service.items].
  set (p := match page with Some p => if p <? 1 then 1 else p | None => 1 end).
  set (s := match page_size with Some s => if s <? 1 then 2 else s | None => 2 end).
  assert (Hp : 1 ≤ p).
  { subst p. destruct page as [p|]; [|lia]. destruct (Z.ltb_spec p 1); lia. }
  assert (Hs : 1 ≤ s).
  { subst s. destruct page_size as [s|]; [|lia]. destruct (Z.ltb_spec s 1); lia. }
  rewrite count_requests_length.
  set (n := Z.of_nat (length (batch_requests_curd.get_requests_for_job job_id db))).
  assert (Hn : 0 ≤ n) by (subst n; lia).
  destruct (total_pages_bounds n s Hn Hs) as (Hq1 & Hq2 & Hq3 & Hq4).
  set (q := Z.max 1 ((n + s - 1) / s)) in *.
  assert (Hlen : Z.of_nat (length (batch_requests_curd.get_requests_for_job_paginated job_id s
                                     ((Z.min p q - 1) * s) db))
                 = Z.min s (n - (Z.min p q - 1) * s)).
  { unfold batch_requests_curd.get_requests_for_job_paginated,
      batch_requests_curd.sql_limit_offset.
    destruct (Z.ltb_spec s 0); [lia|].
    rewrite length_take, length_drop, sorted_requests_length. fold n.
    assert (Hoff0 : 0 ≤ (Z.min p q - 1) * s) by nia.
    assert (Hoff1 : 0 < n → (Z.min p q - 1) * s < n) by nia.
    assert (Hoff2 : n = 0 → (Z.min p q - 1) * s = 0) by (intros Hz; rewrite (Hq4 Hz); lia).
    set (off := (Z.min p q - 1) * s) in *. clearbody off. subst n. lia. }
  split; [done|]. split; [lia|]. split; [done|]. split; [done|]. split; [done|].
  split; [done|].
  intros Hpos Hnil. rewrite Hnil in Hlen. cbn [length] in Hlen.
  assert ((Z.min p q - 1) * s < n) by nia. lia.
Qed.

Lemma concat_chunks {A} (s n : nat) (l : list A) :
  (0 < s)%nat → (length l ≤ n * s)%nat →
  concat ((λ p, take s (drop (p * s) l)) <$> seq 0 n) = l.
Proof.
  intros Hs. revert l. induction n as [|n IH]; intros l Hl.
  - destruct l; [done|]. simpl in Hl. lia.
  - cbn [seq fmap list_fmap concat]. rewrite <- fmap_S_seq, <- list_fmap_compose.
    rewrite drop_0.
    rewrite (list_fmap_ext _ (λ p, take s (drop (p * s) (drop s l))) (seq 0 n)).
    + rewrite IH; [by rewrite take_drop|]. rewrite length_drop. lia.
    + intros i p _. simpl. rewrite drop_drop. do 2 f_equal; lia.
Qed.

(** X22. Going through the pages 1, 2, ... up to the number of pages, with a
    page size of at least 1, gives every request of the job exactly once, in
    ascending order of the request index: the items of the pages, one after
    the other, are the job's rows sorted by index. *)
Theorem requests_pages_cover (job_id s : Z) (db : DB) :
  1 ≤ s →
  let pages :=
    Z.to_nat (ui_response_service.total_pages
                (ui_response_service.get_job_requests_page job_id None (Some s) db)) in
  let all :=
    concat ((λ p, ui_response_service.items
                    (ui_response_service.get_job_requests_page job_id
                       (Some (Z.of_nat p)) (Some s) db))
            <$> seq 1 pages) in
  all ≡ₚ batch_requests_curd.get_requests_for_job job_id db
  ∧ Sorted batch_requests_curd.index_le all.
Proof.
  intros Hs pages all.
  set (sorted := merge_sort batch_requests_curd.index_le
                   (filter (λ r, BatchRequest.batch_job_id r = job_id) (batch_requests db))).
  assert (Hall : all = sorted).
  { subst all pages. unfold ui_response_service.get_job_requests_page.
    cbv zeta. cbn [ui_response_service.total_pages ui_response_service.items].
    destruct (Z.ltb_spec s 1); [lia|].
    rewrite count_requests_length.
    set (n := Z.of_nat (length (batch_requests_curd.get_requests_for_job job_id db))).
    assert (Hn : 0 ≤ n) by (subst n; lia).
    destruct (total_pages_bounds n s Hn Hs) as (Hq1 & Hq2 & Hq3 & Hq4).
    set (q := Z.max 1 ((n + s - 1) / s)) in *.
    rewrite <- fmap_S_seq, <- list_fmap_compose.
    rewrite (list_fmap_ext _ (λ p, take (Z.to_nat s) (drop (p * Z.to_nat s) sorted))
               (seq 0 (Z.to_nat q))).
    - apply concat_chunks; [lia|].
      subst sorted. rewrite sorted_requests_length. fold n in Hq2 |- *. nia.
    - intros i p Hp. apply lookup_seq in Hp as [-> Hi]. simpl.
      unfold batch_requests_curd.get_requests_for_job_paginated,
        batch_requests_curd.sql_limit_offset.
      destruct (Z.ltb_spec s 0); [lia|].
      destruct (Z.ltb_spec (Z.of_nat (S i)) 1); [lia|].
      fold sorted. do 2 f_equal.
      rewrite Z.min_l by lia. nia. }
  rewrite Hall. split.
  - apply merge_sort_Permutation.
  - apply Sorted_merge_sort. intros r1 r2. unfold batch_requests_curd.index_le. lia.
Qed.

Lemma requests_pages_cover_witness :
  concat ((λ p, ui_response_service.items
                  (ui_response_service.get_job_requests_page 7 (Some (Z.of_nat p)) (Some 1)
                     sample.db))
          <$> seq 1 (Z.to_nat (ui_response_service.total_pages
                                 (ui_response_service.get_job_requests_page 7 None (Some 1)
                                    sample.db))))
  ≡ₚ batch_requests_curd.get_requests_for_job 7 sample.db.
Proof.
  destruct (requests_pages_cover 7 1 sample.db) as [Hperm _].
  - lia.
  - exact Hperm.
Defined.

(** ** Recovery, then a run *)

Lemma recover_requests_ids (db : DB) :
  BatchRequest.id <$> batch_requests (scheduler.recover_incomplete_jobs db)
  = BatchRequest.id <$> batch_requests db.
Proof.
  apply list_eq. intros k. rewrite !list_lookup_fmap, recover_requests_lookup.
  destruct (batch_requests db !! k) as [r|]; [|done].
  cbn [fmap option_fmap option_map]. f_equal.
  case_bool_decide; [|done]. unfold reset_in_flight. by destruct (in_flight _).
Qed.

Lemma recover_jobs_concurrency (db : DB) (i : nat) (job job' : BatchJob.t) :
  batch_jobs db !! i = Some job →
  batch_jobs (scheduler.recover_incomplete_jobs db) !! i = Some job' →
  BatchJob.concurrency job' = BatchJob.concurrency job.
Proof.
  unfold scheduler.recover_incomplete_jobs.
  rewrite reset_stats_loop_jobs, recover_loop_jobs. intros ->.
  cbn [fmap option_fmap option_map]. intros [= <-].
  repeat case_bool_decide; done.
Qed.

(** X23. Recovery hands a crashed job back to the processor in a state from
    which it runs to the end.  For a job the sweep finds in processing, with
    a concurrency of at least 1 and a request that is pending or in flight:
    after the sweep the job row is pending, and a run of this row that is
    left alone, with an active endpoint and no raise in the final
    bookkeeping, returns and leaves every request of the job success or
    failed and the job completed, with counters that add up to the number of
    its requests. *)
Theorem recovered_job_runs_to_completion
    (base : Z) (env : job_processor.Env) (db : DB)
    (i : nat) (row : BatchJob.t) (r : BatchRequest.t) :
  NoDup (BatchRequest.id <$> batch_requests db) →
  batch_jobs db !! i = Some row →
  BatchJob.status row = JobStatus.PROCESSING →
  r ∈ batch_requests db →
  BatchRequest.batch_job_id r = BatchJob.id row →
  non_terminal (BatchRequest.status r) = true →
  1 ≤ BatchJob.concurrency row →
  job_processor.meanwhile env = job_processor.Left_alone →
  job_processor.api_config env = Some true →
  (∀ op, job_processor.finalize_raises env op = false) →
  let db1 := scheduler.recover_incomplete_jobs db in
  ∃ job db2,
    batch_jobs db1 !! i = Some job
    ∧ BatchJob.id job = BatchJob.id row
    ∧ BatchJob.status job = JobStatus.PENDING
    ∧ job_processor.process_job base env job db1 = job_processor.Returns db2
    ∧ Forall (λ r', BatchRequest.batch_job_id r' = BatchJob.id row →
                    BatchRequest.status r' = RequestStatus.SUCCESS
                    ∨ BatchRequest.status r' = RequestStatus.FAILED) (batch_requests db2)
    ∧ ∃ row2,
        batch_jobs db2 !! i = Some row2
        ∧ BatchJob.status row2 = JobStatus.COMPLETED
        ∧ BatchJob.success_count row2 + BatchJob.failed_count row2
          = batch_requests_curd.count_requests_for_job (BatchJob.id row) db2.
Proof.
  intros Hnd Hrow Hst Hin Hjob Hnt Hconc Halone Hapi Hfin db1. subst db1.
  assert (Hsel : BatchJob.id row
                 ∈ BatchJob.id <$> (batch_job_curd.get_jobs_by_status JobStatus.PROCESSING db
                                    ++ batch_job_curd.get_incomplete_completed_jobs db)).
  { apply stuck_selected; [by eapply list_elem_of_lookup_2|done]. }
  destruct (batch_jobs (scheduler.recover_incomplete_jobs db) !! i) as [job|] eqn:Hjob1.
  2:{ exfalso. revert Hjob1. unfold scheduler.recover_incomplete_jobs.
      rewrite reset_stats_loop_jobs, recover_loop_jobs, Hrow. done. }
  destruct (recover_jobs_status db i job Hjob1) as (row0 & Hrow0 & Hid & Hstatus).
  rewrite Hrow in Hrow0. injection Hrow0 as <-.
  rewrite bool_decide_eq_true_2 in Hstatus by done.
  pose proof (recover_jobs_concurrency db i row job Hrow Hjob1) as Hc.
  apply list_elem_of_lookup in Hin as [k Hk].
  pose proof (recover_requests_lookup db k) as Hk1. rewrite Hk in Hk1.
  cbn [fmap option_fmap option_map] in Hk1.
  rewrite Hjob, bool_decide_eq_true_2 in Hk1 by done.
  destruct (process_job_completes base env job (scheduler.recover_incomplete_jobs db) i job
              (reset_in_flight r))
    as (db2 & Hreturns & Hterminal & row2 & Hrow2 & Hcompleted & _ & _ & Hsum).
  - by rewrite recover_requests_ids.
  - done.
  - done.
  - done.
  - done.
  - by rewrite Hc.
  - by eapply list_elem_of_lookup_2.
  - by rewrite reset_in_flight_job, Hjob.
  - unfold reset_in_flight. destruct r as [? ? ? [] ? ? ? ? ? ? ?]; done.
  - done.
  - exists job, db2. split; [done|]. split; [done|]. split; [done|]. split; [done|].
    rewrite Hid in *. split; [done|]. by exists row2.
Qed.

Lemma recovered_job_runs_to_completion_witness :
  ∃ job,
    batch_jobs (scheduler.recover_incomplete_jobs sample.db_stuck) !! 0%nat = Some job
    ∧ BatchJob.status job = JobStatus.PENDING.
Proof.
  destruct (recovered_job_runs_to_completion 2 sample.all_rate_limited sample.db_stuck
              0%nat (BatchJob.mk 7 2 JobStatus.PROCESSING 0 0 2 3 None None)
              (BatchRequest.mk 2 7 2 RequestStatus.PROCESSING 0 None 0 0 0
                 (Some "t0"%string) None))
    as (job & db2 & Hjob & _ & Hst & _).
  - apply (bool_decide_unpack _). vm_compute. exact I.
  - reflexivity.
  - reflexivity.
  - apply list_elem_of_In. right. left. reflexivity.
  - reflexivity.
  - reflexivity.
  - vm_compute. discriminate.
  - reflexivity.
  - reflexivity.
  - intros op. reflexivity.
  - exists job. split; [exact Hjob|exact Hst].
Defined.
